(** * anigo: a randomly initialised CPPN rendered into a looping GIF

    A shallow embedding of [anigo] (package [main], one Go file) and the
    properties of its network engine and rendering pipeline.

    Modelling conventions.
    - Go [int] is a 64-bit two's complement integer: a [Z] with the
      wrap-around written out ([GoInt.wrap]) wherever the source computes.
    - [float64] is modelled by the real numbers [R]: [math.Exp], [math.Tanh],
      [math.Sin], [math.Cos], [math.Sqrt] are [exp], [tanh], [sin], [cos],
      [sqrt]; rounding, infinities and NaN are outside that model, and the
      statements proved in it are those that rounding preserves.  Where
      rounding decides, at the ends of the ranges of the activations, the
      module [float64] computes on binary64 values.
    - A Go slice is a header (pointer, len, cap) into a heap of blocks of
      [float64]; [mat64.Vector] keeps such a header, so that sharing of a
      backing array between the caller's slice and a vector is visible.
    - A run-time panic is an error value; memory is unbounded (only the
      language-level panic of [make] on a negative length is modelled).
    - Of the libraries the program calls (gonum's mat64, image, image/color,
      math/rand) the operations used are modelled by what they compute;
      [palette.Plan9] and the stream of normal deviates are parameters.
    - The four goroutines of a frame are interleaved at the granularity of
      one [drawPixel] call: everything a call does before [frame.Set] touches
      goroutine-local data and the read-only network only. *)

From Stdlib Require Import PrimFloat.
From Stdlib Require Import Reals Lra Lia ZArith List String.
From stdpp Require Import base list.

(* ================================================================== *)
(** * Go integers *)

Module GoInt.

Definition maxInt : Z := 2 ^ 63 - 1.
Definition minInt : Z := - 2 ^ 63.

(** Reduction of a mathematical integer to the value an [int] holds. *)
Definition wrap (z : Z) : Z := (z + 2 ^ 63) mod 2 ^ 64 - 2 ^ 63.

Definition add (a b : Z) : Z := wrap (a + b).
Definition sub (a b : Z) : Z := wrap (a - b).
Definition mul (a b : Z) : Z := wrap (a * b).
(** Go's [/] on integers truncates toward zero. *)
Definition quot (a b : Z) : Z := wrap (Z.quot a b).

Definition in_range (z : Z) : Prop := (minInt <= z <= maxInt)%Z.

End GoInt.

(* ================================================================== *)
(** * Panics and the state-and-error monad *)

Inductive panic : Type :=
| DimensionMismatch (n : nat)
    (** [panic(fmt.Errorf("invalid number of inputs: %d\n", len(inputs)))] *)
| ErrShape            (** mat64: [matrix.ErrShape] *)
| ErrAccess           (** mat64 element access, or a Go index, out of range *)
| ErrMakeSlice        (** runtime: [makeslice: len out of range] *)
| BadLdA              (** blas: the leading dimension of a matrix is below
                          [max(1, n)], [n] its number of columns *)
| ErrInvalidMemory.   (** a slice header that names no block of the heap;
                          not reachable from Go code *)

Inductive result (A : Type) : Type :=
| Ok (a : A)
| Panic (e : panic).
Arguments Ok {A} a.
Arguments Panic {A} e.

Definition M (S A : Type) : Type := S -> result (A * S).

Definition ret {S A} (a : A) : M S A := fun s => Ok (a, s).

Definition bind {S A B} (c : M S A) (k : A -> M S B) : M S B :=
  fun s => match c s with
           | Ok (a, s') => k a s'
           | Panic e => Panic e
           end.

Definition fail {S A} (e : panic) : M S A := fun _ => Panic e.

Notation "x <- c ;; k" := (bind c (fun x => k))
  (at level 100, c at next level, right associativity).
Notation "c ;;; k" := (bind c (fun _ => k))
  (at level 100, right associativity).

(** [for _, a := range l { body a }] *)
Fixpoint forM_ {S A} (l : list A) (body : A -> M S unit) : M S unit :=
  match l with
  | [] => ret tt
  | a :: l' => body a ;;; forM_ l' body
  end.

(** A loop that threads an accumulator through the elements of [l]. *)
Fixpoint foldM {S A B} (f : B -> A -> M S B) (l : list A) (b : B) : M S B :=
  match l with
  | [] => ret b
  | a :: l' => b' <- f b a ;; foldM f l' b'
  end.

(** [n] successive runs of [c], results in order. *)
Fixpoint replicateM {S A} (n : nat) (c : M S A) : M S (list A) :=
  match n with
  | O => ret []
  | S n' => a <- c ;; l <- replicateM n' c ;; ret (a :: l)
  end.

(* ================================================================== *)
(** * Slices of float64 in a heap of blocks *)

Abbreviation heap := (list (list R)).

Record slice : Type := mkSlice { ptr : nat; len : nat; cap : nat }.

(** [make([]float64, n)] *)
Definition make (n : Z) : M heap slice :=
  fun h =>
    if (n <? 0)%Z then Panic ErrMakeSlice
    else Ok (mkSlice (length h) (Z.to_nat n) (Z.to_nat n),
             h ++ [replicate (Z.to_nat n) 0%R]).

(** A slice literal [[]float64{v0, v1, ...}]. *)
Definition literal (vs : list R) : M heap slice :=
  fun h => Ok (mkSlice (length h) (length vs) (length vs), h ++ [vs]).

(** [s[i]] *)
Definition slice_get (s : slice) (i : nat) : M heap R :=
  fun h =>
    if (i <? len s)%nat then
      match h !! ptr s with
      | Some blk => match blk !! i with
                    | Some x => Ok (x, h)
                    | None => Panic ErrInvalidMemory
                    end
      | None => Panic ErrInvalidMemory
      end
    else Panic ErrAccess.

(** [s[i] = x] *)
Definition slice_set (s : slice) (i : nat) (x : R) : M heap unit :=
  fun h =>
    if (i <? len s)%nat then
      match h !! ptr s with
      | Some blk =>
          if (i <? length blk)%nat
          then Ok (tt, <[ptr s := <[i := x]> blk]> h)
          else Panic ErrInvalidMemory
      | None => Panic ErrInvalidMemory
      end
    else Panic ErrAccess.

(** The elements [s[0] .. s[len-1]], read in order. *)
Fixpoint slice_load_from (s : slice) (i n : nat) : M heap (list R) :=
  match n with
  | O => ret []
  | S n' => x <- slice_get s i ;; l <- slice_load_from s (S i) n' ;; ret (x :: l)
  end.

Definition slice_load (s : slice) : M heap (list R) :=
  slice_load_from s 0 (len s).

(** What a slice holds in a heap, as a value (used in statements). *)
Definition contents (h : heap) (s : slice) : option (list R) :=
  match h !! ptr s with
  | Some blk => Some (take (len s) blk)
  | None => None
  end.

(** A slice header is valid in a heap when its block exists and is at least
    as long as the capacity. *)
Definition valid_slice (h : heap) (s : slice) : Prop :=
  exists blk, h !! ptr s = Some blk /\ (len s <= cap s)%nat /\ (cap s <= length blk)%nat.

(* ================================================================== *)
(** * The part of gonum's mat64 the program uses *)

Module mat64.

(** [mat64.Vector] with increment 1: its length [n] is [len] of its data. *)
Record Vector : Type := mkVector { Data : slice }.

Definition Len (v : Vector) : nat := len (Data v).

(** [NewVector(n, data)]: with [data == nil] a new zeroed block, otherwise
    [data] itself becomes the backing slice; [ErrShape] when
    [len(data) != n]. *)
Definition NewVector (n : Z) (data : option slice) : M heap Vector :=
  match data with
  | Some d => if (Z.of_nat (len d) =? n)%Z then ret (mkVector d) else fail ErrShape
  | None => d <- make n ;; ret (mkVector d)
  end.

(** [v.At(i, 0)] *)
Definition At (v : Vector) (i : nat) : M heap R :=
  if (i <? Len v)%nat then slice_get (Data v) i else fail ErrAccess.

(** [v.SetVec(i, x)] *)
Definition SetVec (v : Vector) (i : nat) (x : R) : M heap unit :=
  if (i <? Len v)%nat then slice_set (Data v) i x else fail ErrAccess.

(** [blas64.Copy(n, x, y)]: [y[i] = x[i]] for [i < n], in increasing [i]. *)
Definition Copy (n : nat) (x y : slice) : M heap unit :=
  forM_ (seq 0 n) (fun i => a <- slice_get x i ;; slice_set y i a).

(** [v.CopyVec(a)]: copies [min(v.Len(), a.Len())] elements, returns the
    count. *)
Definition CopyVec (v a : Vector) : M heap nat :=
  let n := Nat.min (Len v) (Len a) in
  Copy n (Data a) (Data v) ;;; ret n.

(** [use(f, l)]: the slice [f[:l]] when [l <= cap(f)], a new block
    otherwise. *)
Definition use (f : slice) (l : nat) : M heap slice :=
  if (l <=? cap f)%nat then ret (mkSlice (ptr f) l (cap f))
  else make (Z.of_nat l).

(** [v.CloneVec(a)] (receiver and argument are distinct objects at its one
    call site): the receiver takes the length of [a], keeps its own
    backing array when that has the capacity, and receives a copy of the
    elements of [a].  The updated receiver is returned. *)
Definition CloneVec (v a : Vector) : M heap Vector :=
  let n := Len a in
  d <- use (Data v) n ;;
  Copy n (Data a) d ;;;
  ret (mkVector d).

(** [mat64.Dense] in row-major order with stride [Cols]; never written
    after construction, so it is kept as a value. *)
Record Dense : Type := mkDense { Rows : Z; Cols : Z; DData : list R }.

(** [NewDense(r, c, data)] with [data != nil]. *)
Definition NewDense {S} (r c : Z) (data : list R) : M S Dense :=
  if (GoInt.mul r c =? Z.of_nat (length data))%Z
  then ret (mkDense r c data) else fail ErrShape.

(** A matrix argument: a dense matrix or its transpose view [m.T()]. *)
Inductive Matrix : Type :=
| Plain (m : Dense)
| Transpose (m : Dense).

Definition T (m : Dense) : Matrix := Transpose m.

Definition Dims (a : Matrix) : Z * Z :=
  match a with
  | Plain m => (Rows m, Cols m)
  | Transpose m => (Cols m, Rows m)
  end.

Definition DenseAt (m : Dense) (i j : nat) : R :=
  nth (i * Z.to_nat (Cols m) + j) (DData m) 0%R.

Definition MatAt (a : Matrix) (i j : nat) : R :=
  match a with
  | Plain m => DenseAt m i j
  | Transpose m => DenseAt m j i
  end.

(** Row [i] of [a] times the column [bs]. *)
Definition dot (a : Matrix) (i : nat) (bs : list R) : R :=
  fold_left (fun acc jb => (acc + MatAt a i (fst jb) * snd jb)%R)
            (combine (seq 0 (length bs)) bs) 0%R.

(** The dense matrix behind a matrix argument ([untranspose]). *)
Definition untranspose (a : Matrix) : Dense :=
  match a with
  | Plain m => m
  | Transpose m => m
  end.

(** [v.MulVec(a, b)]: [ErrShape] unless [a] is [r x c], [b] has length [c]
    and the (non-empty receiver) [v] has length [r]; then the product is
    left to [blas64.Gemv] on the untransposed matrix, whose stride is its
    number of columns: the routine panics when the stride is below
    [max(1, columns)], which is when the matrix has no column; otherwise
    [v = a * b]. *)
Definition MulVec (v : Vector) (a : Matrix) (b : Vector) : M heap unit :=
  let '(r, c) := Dims a in
  if negb (c =? Z.of_nat (Len b))%Z then fail ErrShape
  else if negb (r =? Z.of_nat (Len v))%Z then fail ErrShape
  else if (Cols (untranspose a) <? Z.max 1 (Cols (untranspose a)))%Z then fail BadLdA
  else
    bs <- slice_load (Data b) ;;
    forM_ (seq 0 (Len v)) (fun i => slice_set (Data v) i (dot a i bs)).

End mat64.

(* ================================================================== *)
(** * Activations, layers and the network *)

Record Activation : Type := mkActivation { Name : string; Fn : R -> R }.

Definition Sigmoid : Activation :=
  {| Name := "sigmoid"; Fn := fun x => (1 / (1 + exp (- x)))%R |}.

Definition Tanh : Activation :=
  {| Name := "tanh"; Fn := tanh |}.

Record Layer : Type := mkLayer {
  Weights : mat64.Dense;     (* connection weights from previous layer *)
  activation : Activation    (* activation function for feed forwarding *)
}.

(** The global generator of [math/rand] after [rand.Seed]: a fixed sequence
    of normal deviates and the position of the next one. *)
Record rng : Type := mkRng { draws : nat -> R; pos : nat }.

(** [rand.NormFloat64()] *)
Definition NormFloat64 : M rng R :=
  fun g => Ok (draws g (pos g), mkRng (draws g) (S (pos g))).

(** [NewLayer(r, c, activation)] *)
Definition NewLayer (r c : Z) (act : Activation) : M rng Layer :=
  let n := GoInt.mul r c in
  if (n <? 0)%Z then fail ErrMakeSlice
  else
    weights <- replicateM (Z.to_nat n) (x <- NormFloat64 ;; ret (x * 0.5)%R) ;;
    w <- mat64.NewDense r c weights ;;
    ret (mkLayer w act).

(** [l.Activate(signal)] *)
Definition Activate (l : Layer) (signal : mat64.Vector) : M heap mat64.Vector :=
  withBias <- mat64.NewVector (Z.of_nat (mat64.Len signal + 1)) None ;;
  mat64.CopyVec withBias signal ;;;
  mat64.SetVec withBias (mat64.Len signal) (-1)%R ;;;
  let c := mat64.Cols (Weights l) in
  d <- make c ;;
  activated <- mat64.NewVector c (Some d) ;;
  mat64.MulVec activated (mat64.T (Weights l)) withBias ;;;
  forM_ (seq 0 (Z.to_nat c))
        (fun i => x <- mat64.At activated i ;;
                  mat64.SetVec activated i (Fn (activation l) x)) ;;;
  ret activated.

Record CPPNParam : Type := mkParam {
  NumInputs : Z;           (* number of inputs *)
  NumHiddenLayers : Z;     (* number of hidden layers *)
  NumHiddenNeurons : Z;    (* number of neurons in a hidden layer *)
  NumOutputs : Z           (* number of outputs *)
}.

Record CPPN : Type := mkCPPN { Param : CPPNParam; Layers : list Layer }.

(** [NewCPPN(param)].  The loop [for i := 1; i < NumHiddenLayers; i++] runs
    [NumHiddenLayers - 1] times, or not at all. *)
Definition NewCPPN (param : CPPNParam) : M rng CPPN :=
  if (GoInt.add (NumHiddenLayers param) 1 <? 0)%Z then fail ErrMakeSlice
  else
    first <- NewLayer (GoInt.add (NumInputs param) 1)
                      (NumHiddenNeurons param) Tanh ;;
    middle <- replicateM (Z.to_nat (NumHiddenLayers param - 1))
                         (NewLayer (GoInt.add (NumHiddenNeurons param) 1)
                                   (NumHiddenNeurons param) Tanh) ;;
    last <- NewLayer (GoInt.add (NumHiddenNeurons param) 1)
                     (NumOutputs param) Sigmoid ;;
    ret (mkCPPN param (first :: middle ++ [last])).

(** The loop [for _, layer := range c.Layers] of [FeedForward]: the local
    [signalVec] is threaded through the layers. *)
Definition propagate (layers : list Layer) (signalVec : mat64.Vector)
    : M heap mat64.Vector :=
  foldM (fun signalVec layer =>
           outputs <- Activate layer signalVec ;;
           mat64.CloneVec signalVec outputs)
        layers signalVec.

(** [c.FeedForward(inputs)]; the result is the slice
    [signalVec.RawVector().Data]. *)
Definition FeedForward (c : CPPN) (inputs : slice) : M heap slice :=
  if negb (Z.of_nat (len inputs) =? NumInputs (Param c))%Z
  then fail (DimensionMismatch (len inputs))
  else
    signalVec <- mat64.NewVector (Z.of_nat (len inputs)) (Some inputs) ;;
    signalVec <- propagate (Layers c) signalVec ;;
    ret (mat64.Data signalVec).

(* ================================================================== *)
(** * The activations and the layers on float64 values

    Where the real numbers and [float64] part: at the ends of the ranges of
    the two activations.  The functions below compute on binary64 values
    with the operations of IEEE 754; they cover the arguments that the
    special cases of the library functions decide, and return [None] where
    the result comes from a polynomial or rational approximation, which is
    left out. *)

Local Set Warnings "-inexact-float".

Module float64.

(** [math.Exp] (exp.go): the constants and the special cases.  The argument
    reduction and [expmulti] after them are not modelled: [None]. *)
Definition Overflow : float := 7.09782712893383973096e+02%float.
Definition Underflow : float := (-7.45133219101941108420e+02)%float.
Definition NearZero : float := 0x1p-28%float.

Definition Exp (x : float) : option float :=
  if (is_nan x || (x =? infinity))%float then Some x
  else if (x =? neg_infinity)%float then Some 0%float
  else if (Overflow <? x)%float then Some infinity
  else if (x <? Underflow)%float then Some 0%float
  else if ((- NearZero <? x) && (x <? NearZero))%float then Some (1 + x)%float
  else None.

(** The function of [Sigmoid()]: [1.0 / (1.0 + math.Exp(-x))]. *)
Definition Sigmoid (x : float) : option float :=
  option_map (fun e => (1 / (1 + e))%float) (Exp (- x)%float).

(** [math.Tanh] (tanh.go), the function of [Tanh()]: beyond [0.5 * MAXLOG]
    the result is exactly 1 or -1; from 0.625 on it is computed from
    [math.Exp]; the rational approximation below 0.625 is not modelled. *)
Definition MAXLOG : float := 8.8029691931113054295988e+01%float.

Definition Tanh (x : float) : option float :=
  let z := abs x in
  if (0.5 * MAXLOG <? z)%float then
    Some (if (x <? 0)%float then (-1)%float else 1%float)
  else if (0.625 <=? z)%float then
    option_map (fun s => let z := (1 - 2 / (s + 1))%float in
                         if (x <? 0)%float then (- z)%float else z)
               (Exp (2 * z)%float)
  else if (x =? 0)%float then Some x
  else None.

(** A layer: the weights in row-major order, [Cols] to a row. *)
Record Layer : Type := mkLayer {
  Cols : nat;
  Weights : list float;
  Fn : float -> option float
}.

(** Component [i] of the product of the transposed weights and [bs]: the
    sum starts from 0 and takes the rows in order, as [Dgemv] does. *)
Definition dot (l : Layer) (i : nat) (bs : list float) : float :=
  fold_left
    (fun acc jb => (acc + nth (fst jb * Cols l + i) (Weights l) 0 * snd jb)%float)
    (combine (seq 0 (length bs)) bs) 0%float.

(** [l.Activate(signal)] and the loop of [c.FeedForward(inputs)] on signals
    that fit the layers (the shape checks are those of [Activate] and
    [FeedForward] above). *)
Definition Activate (l : Layer) (signal : list float) : option (list float) :=
  let withBias := signal ++ [(-1)%float] in
  mapM (fun i => Fn l (dot l i withBias)) (seq 0 (Cols l)).

Definition FeedForward (layers : list Layer) (inputs : list float)
    : option (list float) :=
  fold_left (fun signal l => mbind (Activate l) signal) layers (Some inputs).

Definition output : Layer := mkLayer 1 [800; 0]%float Sigmoid.

End float64.

(* ================================================================== *)
(** * The part of image/color and image the program uses *)

Definition uint8 (z : Z) : Z := z mod 256.

(** Conversion of a float64 to an integer discards the fraction. *)
Definition trunc (x : R) : Z :=
  if Rlt_dec x 0 then (- Int_part (- x))%Z else Int_part x.

(** [uint8(x)] for a float64 [x]. *)
Definition float64_to_uint8 (x : R) : Z := uint8 (trunc x).

Module color.

Inductive Color : Type :=
| Gray (Y : Z)
| RGBA (r g b a : Z).

(** The method [RGBA()]: 16-bit channels held in [uint32]. *)
Definition channels (c : Color) : Z * Z * Z * Z :=
  let widen v := Z.lor v (Z.shiftl v 8) in
  match c with
  | Gray y => (widen y, widen y, widen y, 65535%Z)
  | RGBA r g b a => (widen r, widen g, widen b, widen a)
  end.

Definition uint32 (z : Z) : Z := z mod 2 ^ 32.

(** [sqDiff(x, y)]: the squared difference, shifted by two bits. *)
Definition sqDiff (x y : Z) : Z :=
  let d := uint32 (x - y) in
  Z.shiftr (uint32 (d * d)) 2.

Definition Palette : Type := list Color.

(** The loop of [Palette.Index] from position [i] on, with the best index
    and sum found so far. *)
Fixpoint Index_from (p : Palette) (c : Z * Z * Z * Z) (i best bestSum : Z) : Z :=
  match p with
  | [] => best
  | v :: p' =>
      let '(cr, cg, cb, ca) := c in
      let '(vr, vg, vb, va) := channels v in
      let sum := uint32 (sqDiff cr vr + sqDiff cg vg + sqDiff cb vb + sqDiff ca va) in
      if (sum <? bestSum)%Z then
        if (sum =? 0)%Z then i
        else Index_from p' c (i + 1) i sum
      else Index_from p' c (i + 1) best bestSum
  end.

(** [p.Index(c)]: the index of the palette colour closest to [c]. *)
Definition Index (p : Palette) (c : Color) : Z :=
  Index_from p (channels c) 0 0 (2 ^ 32 - 1).

End color.

Module image.

Record Point : Type := mkPoint { X : Z; Y : Z }.
Record Rectangle : Type := mkRectangle { Min : Point; Max : Point }.

(** [image.Rect(x0, y0, x1, y1)]: the coordinates are put in order. *)
Definition Rect (x0 y0 x1 y1 : Z) : Rectangle :=
  let '(x0, x1) := if (x1 <? x0)%Z then (x1, x0) else (x0, x1) in
  let '(y0, y1) := if (y1 <? y0)%Z then (y1, y0) else (y0, y1) in
  mkRectangle (mkPoint x0 y0) (mkPoint x1 y1).

Definition Dx (r : Rectangle) : Z := GoInt.sub (X (Max r)) (X (Min r)).
Definition Dy (r : Rectangle) : Z := GoInt.sub (Y (Max r)) (Y (Min r)).

(** [p.In(r)] *)
Definition In (p : Point) (r : Rectangle) : bool :=
  (X (Min r) <=? X p)%Z && (X p <? X (Max r))%Z &&
  (Y (Min r) <=? Y p)%Z && (Y p <? Y (Max r))%Z.

Record Paletted : Type := mkPaletted {
  Pix : list Z;
  Stride : Z;
  Bounds : Rectangle;
  Palette : color.Palette
}.

(** Frames are shared by pointer: a store of frames, a frame is its
    index. *)
Abbreviation store := (list Paletted).

(** [image.NewPaletted(r, p)] *)
Definition NewPaletted (r : Rectangle) (p : color.Palette) : M store nat :=
  fun st =>
    let w := Dx r in
    let h := Dy r in
    let n := GoInt.mul (GoInt.mul 1 w) h in
    if (n <? 0)%Z then Panic ErrMakeSlice
    else Ok (length st,
             st ++ [mkPaletted (replicate (Z.to_nat n) 0%Z) (GoInt.mul 1 w) r p]).

(** [p.PixOffset(x, y)] *)
Definition PixOffset (p : Paletted) (x y : Z) : Z :=
  GoInt.add (GoInt.mul (GoInt.sub y (Y (Min (Bounds p)))) (Stride p))
            (GoInt.mul (GoInt.sub x (X (Min (Bounds p)))) 1).

(** [p.Set(x, y, c)] on the frame at index [f] ([Set] is a keyword). *)
Definition Set_ (f : nat) (x y : Z) (c : color.Color) : M store unit :=
  fun st =>
    match st !! f with
    | None => Panic ErrInvalidMemory
    | Some p =>
        if negb (In (mkPoint x y) (Bounds p)) then Ok (tt, st)
        else
          let i := PixOffset p x y in
          if ((0 <=? i)%Z && (i <? Z.of_nat (length (Pix p)))%Z)%bool then
            Ok (tt, <[f := mkPaletted
                             (<[Z.to_nat i := uint8 (color.Index (Palette p) c)]> (Pix p))
                             (Stride p) (Bounds p) (Palette p)]> st)
          else Panic ErrAccess
    end.

End image.

(* ================================================================== *)
(** * The program: configuration, pixels, frames, animation *)

(** The flags of [main] (the file name apart). *)
Record Config : Type := mkConfig {
  width : Z; height : Z;
  sharpness : R; focus : R;
  seed : Z;
  depth : Z; size : Z;
  pattern : bool; density : R;
  gray : bool
}.

(** What the program takes from outside: the table [palette.Plan9] and the
    sequence of normal deviates that [math/rand] yields for a seed. *)
Record Env : Type := mkEnv {
  Plan9 : color.Palette;
  deviates : Z -> nat -> R
}.

(** The memory of a run: float64 blocks and frames. *)
Record world : Type := mkWorld { floats : heap; frames : image.store }.

Definition onFloats {A} (c : M heap A) : M world A :=
  fun w => match c (floats w) with
           | Ok (a, h) => Ok (a, mkWorld h (frames w))
           | Panic e => Panic e
           end.

Definition onFrames {A} (c : M image.store A) : M world A :=
  fun w => match c (frames w) with
           | Ok (a, st) => Ok (a, mkWorld (floats w) st)
           | Panic e => Panic e
           end.

(** The integers [a, a+1, ..., b-1] of [for i := a; i < b; i++]. *)
Definition range (a b : Z) : list Z :=
  map (fun i => (a + Z.of_nat i)%Z) (seq 0 (Z.to_nat (b - a))).

(** The gray palette: [for i := 0; i < 255; i++ { append Gray{uint8(i)} }]. *)
Definition grayColors : color.Palette :=
  map (fun i => color.Gray (uint8 i)) (range 0 255).

(** The two phase inputs of a pixel, [z1] and [z2] in [drawPixel]. *)
Definition z1 (theta : Z) : R := cos (IZR theta / (PI * 3.0)).
Definition z2 (theta : Z) : R := sin (IZR theta / (PI * 3.0)).

(** The closure [set] chosen by [gray]. *)
Definition set (gray : bool) (frame : nat) (output : slice) (x y : Z) : M world unit :=
  if gray then
    o0 <- onFloats (slice_get output 0) ;;
    onFrames (image.Set_ frame x y (color.Gray (float64_to_uint8 (255 * o0))))
  else
    o0 <- onFloats (slice_get output 0) ;;
    o1 <- onFloats (slice_get output 1) ;;
    o2 <- onFloats (slice_get output 2) ;;
    onFrames (image.Set_ frame x y
                (color.RGBA (float64_to_uint8 (255 * o0))
                            (float64_to_uint8 (255 * o1))
                            (float64_to_uint8 (255 * o2))
                            255)).

(** The five inputs of the network at a pixel. *)
Definition features (cfg : Config) (x y theta : Z) : list R :=
  let r := (sqrt ((IZR (GoInt.sub x (GoInt.quot (width cfg) 2))) ^ 2 +
                  (IZR (GoInt.sub y (GoInt.quot (height cfg) 2))) ^ 2)
            * sharpness cfg * focus cfg)%R in
  if pattern cfg then
    [ (sin (IZR x * density cfg) * sharpness cfg)%R;
      (cos (IZR y * density cfg) * sharpness cfg)%R;
      r; z1 theta; z2 theta ]
  else
    [ (IZR x * sharpness cfg)%R;
      (IZR y * sharpness cfg)%R;
      r; z1 theta; z2 theta ].

(** The closure [drawPixel]. *)
Definition drawPixel (cfg : Config) (cppn : CPPN)
    (frame : nat) (x y theta : Z) : M world unit :=
  inputs <- onFloats (literal (features cfg x y theta)) ;;
  output <- onFloats (FeedForward cppn inputs) ;;
  set (gray cfg) frame output x y.

(** The pixels [drawPart] visits, in its order: rows outside, columns
    inside. *)
Definition pixels (x0 x1 y0 y1 : Z) : list (Z * Z) :=
  flat_map (fun y => map (fun x => (x, y)) (range x0 x1)) (range y0 y1).

(** Running [drawPixel] over a sequence of pixels. *)
Definition drawAll (cfg : Config) (cppn : CPPN) (frame : nat) (theta : Z)
    (order : list (Z * Z)) : M world unit :=
  forM_ order (fun xy => drawPixel cfg cppn frame (fst xy) (snd xy) theta).

(** The closure [drawPart], run on its own. *)
Definition drawPart (cfg : Config) (cppn : CPPN)
    (frame : nat) (x0 x1 y0 y1 theta : Z) : M world unit :=
  drawAll cfg cppn frame theta (pixels x0 x1 y0 y1).

(** The work of the four goroutines of a frame. *)
Definition quadrants (cfg : Config) : list (list (Z * Z)) :=
  let w := width cfg in
  let h := height cfg in
  [ pixels 0 (GoInt.quot w 2) 0 (GoInt.quot h 2);
    pixels (GoInt.quot w 2) w 0 (GoInt.quot h 2);
    pixels 0 (GoInt.quot w 2) (GoInt.quot h 2) h;
    pixels (GoInt.quot w 2) w (GoInt.quot h 2) h ].

(** The order in which the steps of concurrent tasks happen, for the
    scheduler's choices [picks]: each pick runs the next step of the task it
    names (a pick of a finished task is void); when the picks are used up the
    tasks still running finish one after the other, which is the join of
    [wg.Wait]. *)
Fixpoint schedule {A} (tasks : list (list A)) (picks : list nat) : list A :=
  match picks with
  | [] => concat tasks
  | i :: picks' =>
      match tasks !! i with
      | Some (a :: t) => a :: schedule (<[i := t]> tasks) picks'
      | _ => schedule tasks picks'
      end
  end.

(** One turn of the loop of [main] up to [wg.Wait]: a new frame, drawn by
    the four goroutines. *)
Definition renderFrame (cfg : Config) (cppn : CPPN) (colors : color.Palette)
    (picks : list nat) (theta : Z) : M world nat :=
  frame <- onFrames (image.NewPaletted
                       (image.Rect 0 0 (width cfg) (height cfg)) colors) ;;
  drawAll cfg cppn frame theta (schedule (quadrants cfg) picks) ;;;
  ret frame.

(** [gif.GIF], its frames by pointer. *)
Record GIF : Type := mkGIF { Image : list nat; Delay : list Z }.

(** The loop of [main] over the phase samples [thetas]. *)
Definition assemble (cfg : Config) (cppn : CPPN) (colors : color.Palette)
    (picks : Z -> list nat) (thetas : list Z) (img : GIF) : M world GIF :=
  foldM (fun img theta =>
           frame <- renderFrame cfg cppn colors (picks theta) theta ;;
           ret (mkGIF (Image img ++ [frame]) (Delay img ++ [0%Z])))
        thetas img.

(** The network parameters and the palette chosen by [gray]. *)
Definition setup (env : Env) (cfg : Config) : CPPNParam * color.Palette :=
  if gray cfg then (mkParam 5 (depth cfg) (size cfg) 1, grayColors)
  else (mkParam 5 (depth cfg) (size cfg) 3, Plan9 env).

(** [main], from [rand.Seed] to the animation handed to [gif.EncodeAll]. *)
Definition main (env : Env) (cfg : Config) (picks : Z -> list nat) : M world GIF :=
  let g := mkRng (deviates env (seed cfg)) 0 in
  let '(param, colors) := setup env cfg in
  match NewCPPN param g with
  | Panic e => fail e
  | Ok (cppn, _) => assemble cfg cppn colors picks (range 0 60) (mkGIF [] [])
  end.

(* ================================================================== *)
(** * Specification-level functions *)

(** The product of a matrix and a column, component by component. *)
Definition mulVec (a : mat64.Matrix) (bs : list R) : list R :=
  map (fun i => mat64.dot a i bs) (seq 0 (Z.to_nat (fst (mat64.Dims a)))).

(** A layer as the specification words it: append the bias term -1.0,
    multiply by the transposed weight matrix, apply the activation to each
    component. *)
Definition activate_spec (l : Layer) (input : list R) : list R :=
  let withBias := input ++ [(-1)%R] in
  let raw := mulVec (mat64.Transpose (Weights l)) withBias in
  map (Fn (activation l)) raw.

(** The network as a function on values: the layers in order. *)
Definition feed_spec (layers : list Layer) (input : list R) : list R :=
  fold_left (fun v l => activate_spec l v) layers input.

(* ------------------------------------------------------------------ *)
(** ** Shapes, configurations, memory *)

(** The shapes of the layers fit an input of [n] components: each weight
    matrix has one row more than its input has components, and its column
    count is the size of the next input. *)
Fixpoint chained (n : nat) (layers : list Layer) : Prop :=
  match layers with
  | [] => True
  | l :: ls =>
      mat64.Rows (Weights l) = Z.of_nat (n + 1) /\
      (0 <= mat64.Cols (Weights l))%Z /\
      chained (Z.to_nat (mat64.Cols (Weights l))) ls
  end.

(** A configuration as the specification wants it: four positive fields. *)
Definition valid (p : CPPNParam) : Prop :=
  (0 < NumInputs p /\ 0 < NumHiddenLayers p /\
   0 < NumHiddenNeurons p /\ 0 < NumOutputs p)%Z.

(** The sizes the construction computes are values of [int]. *)
Definition representable (p : CPPNParam) : Prop :=
  (NumHiddenLayers p < GoInt.maxInt /\
   (NumInputs p + 1) * NumHiddenNeurons p <= GoInt.maxInt /\
   (NumHiddenNeurons p + 1) * NumHiddenNeurons p <= GoInt.maxInt /\
   (NumHiddenNeurons p + 1) * NumOutputs p <= GoInt.maxInt)%Z.

(** Memory below the mark [n] is the same in [h] and [h']. *)
Definition unchanged_below (n : nat) (h h' : heap) : Prop :=
  forall p, (p < n)%nat -> h' !! p = h !! p.

(** The slice [s] is valid in [h] and holds the values [xs]. *)
Definition holds (h : heap) (s : slice) (xs : list R) : Prop :=
  exists blk, h !! ptr s = Some blk /\ (len s <= cap s)%nat /\
              (cap s <= length blk)%nat /\ take (len s) blk = xs.

(** One turn of the loop of [FeedForward]. *)
Definition turn (signalVec : mat64.Vector) (layer : Layer) : M heap mat64.Vector :=
  outputs <- Activate layer signalVec ;;
  mat64.CloneVec signalVec outputs.

(** A layer has the shape [r x c] and the activation [act]. *)
Definition shaped (r c : Z) (act : Activation) (l : Layer) : Prop :=
  mat64.Rows (Weights l) = r /\ mat64.Cols (Weights l) = c /\
  activation l = act /\
  Z.of_nat (length (mat64.DData (Weights l))) = (r * c)%Z.

(** What [NewCPPN] builds for [p]: a first layer, [NumHiddenLayers - 1]
    middle layers, a last layer. *)
Definition built (p : CPPNParam) (c : CPPN) : Prop :=
  Param c = p /\
  exists first middle last,
    Layers c = first :: middle ++ [last] /\
    shaped (NumInputs p + 1) (NumHiddenNeurons p) Tanh first /\
    Forall (shaped (NumHiddenNeurons p + 1) (NumHiddenNeurons p) Tanh) middle /\
    length middle = Z.to_nat (NumHiddenLayers p - 1) /\
    shaped (NumHiddenNeurons p + 1) (NumOutputs p) Sigmoid last.

(** The sizes [NewCPPN] computes are non-negative values of [int]. *)
Definition constructible (p : CPPNParam) : Prop :=
  (-1 <= NumHiddenLayers p < GoInt.maxInt /\
   0 <= NumInputs p /\ 0 <= NumHiddenNeurons p /\ 0 <= NumOutputs p /\
   (NumInputs p + 1) * NumHiddenNeurons p <= GoInt.maxInt /\
   (NumHiddenNeurons p + 1) * NumHiddenNeurons p <= GoInt.maxInt /\
   (NumHiddenNeurons p + 1) * NumOutputs p <= GoInt.maxInt /\
   NumInputs p < GoInt.maxInt /\ NumHiddenNeurons p < GoInt.maxInt)%Z.

(** A computation that never panics with [DimensionMismatch]. *)
Definition quiet {S A} (c : M S A) : Prop :=
  forall s n, c s <> Panic (DimensionMismatch n).

(** Evaluation of a run on concrete data, the operations on reals left
    alone. *)
Ltac run :=
  cbv -[Rplus Rmult Rminus Ropp Rinv Rdiv Rlt exp tanh sin cos sqrt pow IZR PI
        Int_part];
  try reflexivity.

(* ------------------------------------------------------------------ *)
(** ** Frames as values *)

(** The colour [drawPixel] hands to [frame.Set] at a pixel, as a function of
    the pixel, the phase and the network. *)
Definition pixelColor (cfg : Config) (cppn : CPPN) (x y theta : Z) : color.Color :=
  let output := feed_spec (Layers cppn) (features cfg x y theta) in
  if gray cfg then
    color.Gray (float64_to_uint8 (255 * nth 0 output 0%R))
  else
    color.RGBA (float64_to_uint8 (255 * nth 0 output 0%R))
               (float64_to_uint8 (255 * nth 1 output 0%R))
               (float64_to_uint8 (255 * nth 2 output 0%R))
               255.

(** A frame of [w x h] pixels with its origin at (0, 0). *)
Definition canvas (w h : Z) (colors : color.Palette) (pix : list Z) : image.Paletted :=
  image.mkPaletted pix w (image.Rect 0 0 w h) colors.

(** The buffer after the palette index [v] is stored at pixel [xy]; pixels
    outside the frame are ignored. *)
Definition put (w h : Z) (pix : list Z) (xy : Z * Z) (v : Z) : list Z :=
  let '(x, y) := xy in
  if ((0 <=? x) && (x <? w) && (0 <=? y) && (y <? h))%Z
  then <[Z.to_nat (y * w + x) := v]> pix
  else pix.

(** The buffer after the pixels of [order] are drawn, one after the other. *)
Definition paint (cfg : Config) (cppn : CPPN) (colors : color.Palette) (theta : Z)
    (pix : list Z) (order : list (Z * Z)) : list Z :=
  fold_left (fun pix xy =>
               put (width cfg) (height cfg) pix xy
                   (uint8 (color.Index colors
                             (pixelColor cfg cppn (fst xy) (snd xy) theta))))
            order pix.

(** The frame of phase [theta], drawn in one pass over the whole grid. *)
Definition rendered (cfg : Config) (cppn : CPPN) (colors : color.Palette)
    (theta : Z) : image.Paletted :=
  canvas (width cfg) (height cfg) colors
         (paint cfg cppn colors theta
                (replicate (Z.to_nat (width cfg * height cfg)) 0%Z)
                (pixels 0 (width cfg) 0 (height cfg))).

(** A frame drawn with a single partition: [drawPart] over the whole grid,
    nothing concurrent. *)
Definition renderFrame1 (cfg : Config) (cppn : CPPN) (colors : color.Palette)
    (theta : Z) : M world nat :=
  frame <- onFrames (image.NewPaletted
                       (image.Rect 0 0 (width cfg) (height cfg)) colors) ;;
  drawPart cfg cppn frame 0 (width cfg) 0 (height cfg) theta ;;;
  ret frame.

(** A frame drawn by visiting the pixels of [order], whatever partition and
    interleaving produced that order. *)
Definition renderIn (cfg : Config) (cppn : CPPN) (colors : color.Palette)
    (order : list (Z * Z)) (theta : Z) : M world nat :=
  frame <- onFrames (image.NewPaletted
                       (image.Rect 0 0 (width cfg) (height cfg)) colors) ;;
  drawAll cfg cppn frame theta order ;;;
  ret frame.

(** The frame sizes are positive values of [int]. *)
Definition drawable (cfg : Config) : Prop :=
  (0 < width cfg /\ 0 < height cfg /\ width cfg * height cfg <= GoInt.maxInt)%Z.

(** The network takes the five features and yields the channels the mode
    of [cfg] reads. *)
Definition usable (cfg : Config) (cppn : CPPN) : Prop :=
  NumInputs (Param cppn) = 5%Z /\
  chained 5 (Layers cppn) /\
  forall xs,
    ((if gray cfg then 1 else 3) <= length (feed_spec (Layers cppn) xs))%nat.

(** The pixel [xy] lies in a frame of [w x h] pixels. *)
Definition inside (w h : Z) (xy : Z * Z) : bool :=
  ((0 <=? fst xy) && (fst xy <? w) && (0 <=? snd xy) && (snd xy <? h))%Z.

(** The position of the pixel [xy] in the buffer of a frame of width [w]. *)
Definition offset (w : Z) (xy : Z * Z) : nat := Z.to_nat (snd xy * w + fst xy).

(** The buffer after the pixels of [order] are drawn with the palette
    indices [val]. *)
Definition paintWith (w h : Z) (val : Z * Z -> Z)
    (pix : list Z) (order : list (Z * Z)) : list Z :=
  fold_left (fun pix xy => put w h pix xy (val xy)) order pix.

(* ------------------------------------------------------------------ *)
(** ** Weights, one pixel *)

(** The weights [NewLayer] draws from position [k] of the generator on. *)
Definition drawn (g : rng) (k n : nat) : list R :=
  map (fun i => (draws g (k + i) * 0.5)%R) (seq 0 n).

(** All the weights of a network: layer after layer, each matrix in
    row-major order. *)
Definition parameters (c : CPPN) : list R :=
  concat (map (fun l => mat64.DData (Weights l)) (Layers c)).

(** No weight matrix is without columns.  The BLAS routine behind [MulVec]
    rejects a matrix without columns (its stride is 0, see [mat64.MulVec]),
    so a network evaluates only when its layers are of this kind. *)
Definition nonempty (layers : list Layer) : Prop :=
  Forall (fun l => mat64.Cols (Weights l) <> 0%Z) layers.

(** The part the two closures that [drawPixel] can be have in common, and
    the body of the pixel loop of the earlier [main]: the features become the
    input slice, the network is evaluated, [set] stores the colour. *)
Definition drawWith (feats : list R) (gray : bool) (cppn : CPPN)
    (frame : nat) (x y : Z) : M world unit :=
  inputs <- onFloats (literal feats) ;;
  output <- onFloats (FeedForward cppn inputs) ;;
  set gray frame output x y.

(** The colour [set] makes of the outputs [ys] of the network. *)
Definition colorOf (gray : bool) (ys : list R) : color.Color :=
  if gray then
    color.Gray (float64_to_uint8 (255 * nth 0 ys 0%R))
  else
    color.RGBA (float64_to_uint8 (255 * nth 0 ys 0%R))
               (float64_to_uint8 (255 * nth 1 ys 0%R))
               (float64_to_uint8 (255 * nth 2 ys 0%R))
               255.

(* ================================================================== *)
(** * The first version of the program (main.go) *)

(** The values [a, a+s, a+2s, ...] below [b] of
    [for i := a; i < b; i += s], for a positive step [s]. *)
Definition rangeBy (a b s : Z) : list Z :=
  map (fun i => (a + s * Z.of_nat i)%Z) (seq 0 (Z.to_nat ((b - a + s - 1) / s))).

(** The first version has the same network engine; its [main] renders in
    one goroutine, in colour, with a fixed network shape, and takes the
    phase from [theta] in steps of 6. *)
Module v1.

Record Config : Type := mkConfig {
  width : Z; height : Z;
  sharpness : R; focus : R;
  seed : Z
}.

(** [&CPPNParam{5, 8, 16, 3}] *)
Definition param : CPPNParam := mkParam 5 8 16 3.

(** The inputs of the network at a pixel: [xs, ys, r, z1, z2]. *)
Definition features (cfg : Config) (x y theta : Z) : list R :=
  [ (IZR x * sharpness cfg)%R;
    (IZR y * sharpness cfg)%R;
    (sqrt ((IZR (GoInt.sub x (GoInt.quot (width cfg) 2))) ^ 2 +
           (IZR (GoInt.sub y (GoInt.quot (height cfg) 2))) ^ 2)
     * sharpness cfg * focus cfg)%R;
    (sin (IZR theta) * 0.5)%R;
    (cos (IZR theta) * 0.5)%R ].

(** The body of the loop over [x]. *)
Definition pixel (cfg : Config) (cppn : CPPN) (frame : nat) (theta y x : Z)
    : M world unit :=
  inputs <- onFloats (literal (features cfg x y theta)) ;;
  output <- onFloats (FeedForward cppn inputs) ;;
  o0 <- onFloats (slice_get output 0) ;;
  o1 <- onFloats (slice_get output 1) ;;
  o2 <- onFloats (slice_get output 2) ;;
  onFrames (image.Set_ frame x y
              (color.RGBA (float64_to_uint8 (255 * o0))
                          (float64_to_uint8 (255 * o1))
                          (float64_to_uint8 (255 * o2))
                          255)).

(** One turn of the loop over [theta]: a new frame and the two loops over
    its pixels. *)
Definition renderFrame (env : Env) (cfg : Config) (cppn : CPPN) (theta : Z)
    : M world nat :=
  frame <- onFrames (image.NewPaletted
                       (image.Rect 0 0 (width cfg) (height cfg)) (Plan9 env)) ;;
  forM_ (range 0 (height cfg))
        (fun y => forM_ (range 0 (width cfg))
                        (fun x => pixel cfg cppn frame theta y x)) ;;;
  ret frame.

(** The loop over [theta], from 0 below 360 in steps of 6. *)
Definition assemble (env : Env) (cfg : Config) (cppn : CPPN)
    (thetas : list Z) (img : GIF) : M world GIF :=
  foldM (fun img theta =>
           frame <- renderFrame env cfg cppn theta ;;
           ret (mkGIF (Image img ++ [frame]) (Delay img ++ [0%Z])))
        thetas img.

(** [main], from [rand.Seed] to the animation handed to [gif.EncodeAll]. *)
Definition main (env : Env) (cfg : Config) : M world GIF :=
  let g := mkRng (deviates env (seed cfg)) 0 in
  match NewCPPN param g with
  | Panic e => fail e
  | Ok (cppn, _) => assemble env cfg cppn (rangeBy 0 360 6) (mkGIF [] [])
  end.

(** The frame of phase [theta] as a value. *)
Definition rendered (env : Env) (cfg : Config) (cppn : CPPN) (theta : Z)
    : image.Paletted :=
  canvas (width cfg) (height cfg) (Plan9 env)
    (paintWith (width cfg) (height cfg)
       (fun xy => uint8 (color.Index (Plan9 env)
                           (colorOf false
                              (feed_spec (Layers cppn)
                                 (features cfg (fst xy) (snd xy) theta)))))
       (replicate (Z.to_nat (width cfg * height cfg)) 0%Z)
       (pixels 0 (width cfg) 0 (height cfg))).

End v1.

(** A network of one layer with one output and weights 0, and a gray
    configuration of 2 x 2 pixels, for examples. *)
Definition flatNet : CPPN :=
  mkCPPN (mkParam 5 0 0 1)
         [mkLayer (mat64.mkDense 6 1 [0; 0; 0; 0; 0; 0]%R) Sigmoid].

Definition smallGray : Config := mkConfig 2 2 0.07 1.0 0 0 0 false 1.0 true.

(* ================================================================== *)
(** * The model on small inputs *)

Example range_2_5 : range 2 5 = [2; 3; 4]%Z.
Proof. reflexivity. Qed.

Example pixels_2x2 :
  pixels 0 2 0 2 = [(0, 0); (1, 0); (0, 1); (1, 1)]%Z.
Proof. reflexivity. Qed.

Example quadrants_3x3 :
  quadrants (mkConfig 3 3 0.07 1.0 0 12 24 false 1.0 false) =
  [ [(0, 0)]; [(1, 0); (2, 0)]; [(0, 1); (0, 2)];
    [(1, 1); (2, 1); (1, 2); (2, 2)] ]%Z.
Proof. reflexivity. Qed.

Example schedule_two_tasks :
  schedule [[1; 2]; [3; 4]]%nat [1; 0; 1]%nat = [3; 1; 4; 2]%nat.
Proof. reflexivity. Qed.

Example mul_wraps : GoInt.mul 6 (2 ^ 62) = (- 2 ^ 63)%Z.
Proof. reflexivity. Qed.

(** A width whose weight matrix has no [int] length: the allocation in
    [NewLayer] panics. *)
Example NewCPPN_huge_width :
  NewCPPN (mkParam 5 1 (2 ^ 62) 3) (mkRng (fun _ => 0%R) 0) = Panic ErrMakeSlice.
Proof. reflexivity. Qed.

Example Rect_orders_its_corners :
  image.Rect 0 0 (-2) 3 =
  image.mkRectangle (image.mkPoint (-2) 0) (image.mkPoint 0 3).
Proof. reflexivity. Qed.

Example Index_gray_7 : color.Index grayColors (color.Gray 7) = 7%Z.
Proof. vm_compute. reflexivity. Qed.

Example FeedForward_short_input :
  FeedForward (mkCPPN (mkParam 5 1 2 1) []) (mkSlice 0 4 4) [[0; 0; 0; 0]%R] =
  Panic (DimensionMismatch 4).
Proof. reflexivity. Qed.

(** A layer whose matrix has no column: [MulVec] panics in BLAS. *)
Example Activate_without_columns :
  Activate (mkLayer (mat64.mkDense 2 0 []) Tanh)
           (mat64.mkVector (mkSlice 0 1 1)) [[0%R]] = Panic BadLdA.
Proof. reflexivity. Qed.

(** The network [NewCPPN] builds for zero hidden neurons does not
    evaluate. *)
Example FeedForward_without_hidden_neurons :
  exists c g',
    NewCPPN (mkParam 5 1 0 1) (mkRng (fun _ => 0%R) 0) = Ok (c, g') /\
    FeedForward c (mkSlice 0 5 5) [[0; 0; 0; 0; 0]%R] = Panic BadLdA.
Proof. eexists _, _. split; reflexivity. Qed.

(** binary64: [1 + e] is 1 from [e = 2^-54] down, which [exp (-x)] is from
    [x = 37.5] on; [math.Exp] returns 0 below -745.14; [math.Tanh] returns 1
    above 44.02, and computes [1 - 2/(s + 1)], which is 1 from [s = 2^55]
    on, before that. *)
Example float64_rounds_to_one :
  (1 / (1 + 0x1p-54))%float = 1%float /\
  (1 - 2 / (0x1p55 + 1))%float = 1%float.
Proof. vm_compute. split; reflexivity. Qed.

Example float64_Sigmoid_746 :
  float64.Sigmoid 746 = Some 1%float /\ float64.Sigmoid 3 = None.
Proof. vm_compute. split; reflexivity. Qed.

Example float64_Tanh_45 :
  float64.Tanh 45 = Some 1%float /\ float64.Tanh (-45) = Some (-1)%float /\
  float64.Tanh 0 = Some 0%float /\ float64.Tanh 3 = None.
Proof. vm_compute. repeat split; reflexivity. Qed.

(* ================================================================== *)
(** * The monad and its loops *)

Lemma bind_ok {S A B} (c : M S A) (k : A -> M S B) s a s' :
  c s = Ok (a, s') -> bind c k s = k a s'.
Proof. intros H. unfold bind. now rewrite H. Qed.

Lemma bind_panic {S A B} (c : M S A) (k : A -> M S B) s e :
  c s = Panic e -> bind c k s = Panic e.
Proof. intros H. unfold bind. now rewrite H. Qed.

Lemma forM__app {S A} (l1 l2 : list A) (body : A -> M S unit) s :
  forM_ (l1 ++ l2) body s = (forM_ l1 body ;;; forM_ l2 body) s.
Proof.
  revert s. induction l1 as [|a l1 IH]; intros s; simpl.
  - reflexivity.
  - unfold bind in *. destruct (body a s) as [[[] s']|e]; [apply IH | reflexivity].
Qed.

Lemma foldM_app {S A B} (f : B -> A -> M S B) (l1 l2 : list A) b s :
  foldM f (l1 ++ l2) b s = (b' <- foldM f l1 b ;; foldM f l2 b') s.
Proof.
  revert b s. induction l1 as [|a l1 IH]; intros b s; simpl.
  - reflexivity.
  - unfold bind in *. destruct (f b a s) as [[b' s']|e]; [apply IH | reflexivity].
Qed.

(* ================================================================== *)
(** * Slices and blocks *)

Section Heap.
Implicit Types (h : heap) (s : slice) (blk : list R).

Lemma slice_get_ok s i h blk x :
  h !! ptr s = Some blk -> blk !! i = Some x -> (i < len s)%nat ->
  slice_get s i h = Ok (x, h).
Proof.
  intros Hb Hx Hi. unfold slice_get.
  apply Nat.ltb_lt in Hi. now rewrite Hi, Hb, Hx.
Qed.

Lemma slice_set_ok s i x h blk :
  h !! ptr s = Some blk -> (i < len s)%nat -> (i < length blk)%nat ->
  slice_set s i x h = Ok (tt, <[ptr s := <[i := x]> blk]> h).
Proof.
  intros Hb Hi Hl. unfold slice_set.
  apply Nat.ltb_lt in Hi, Hl. now rewrite Hi, Hb, Hl.
Qed.

Lemma slice_load_from_ok s h blk n i :
  h !! ptr s = Some blk -> (i + n <= len s)%nat -> (i + n <= length blk)%nat ->
  slice_load_from s i n h = Ok (take n (drop i blk), h).
Proof.
  intros Hb. revert i. induction n as [|n IH]; intros i Hs Hl; simpl.
  - now rewrite take_0.
  - destruct (lookup_lt_is_Some_2 blk i) as [x Hx]; [lia|].
    rewrite (bind_ok _ _ _ _ _ (slice_get_ok s i h blk x Hb Hx ltac:(lia))).
    rewrite (bind_ok _ _ _ _ _ (IH (S i) ltac:(lia) ltac:(lia))).
    unfold ret. do 2 f_equal.
    rewrite (drop_S _ _ _ Hx). reflexivity.
Qed.

Lemma slice_load_ok s h blk :
  h !! ptr s = Some blk -> (len s <= length blk)%nat ->
  slice_load s h = Ok (take (len s) blk, h).
Proof.
  intros Hb Hl. unfold slice_load.
  rewrite (slice_load_from_ok s h blk (len s) 0 Hb); [|lia|lia].
  now rewrite drop_0.
Qed.

(** One more element of a block filled from the left. *)
Lemma fill_step (g : nat -> R) blk i :
  (i < length blk)%nat ->
  <[i := g i]> (map g (seq 0 i) ++ drop i blk) =
  map g (seq 0 (S i)) ++ drop (S i) blk.
Proof.
  intros Hi. destruct (lookup_lt_is_Some_2 blk i Hi) as [x Hx].
  rewrite (drop_S _ _ _ Hx), seq_S, map_app. simpl.
  rewrite <- app_assoc. simpl.
  replace i with (length (map g (seq 0 i)) + 0)%nat at 1
    by (rewrite length_map, length_seq; lia).
  now rewrite insert_app_r.
Qed.

(** A loop whose turn [i] stores [g i] in element [i] of block [p]. *)
Lemma pointwise_loop (body : nat -> M heap unit) (p : nat) (g : nat -> R) h blk n :
  h !! p = Some blk -> (n <= length blk)%nat ->
  (forall i, (i < n)%nat ->
     let cur := map g (seq 0 i) ++ drop i blk in
     body i (<[p := cur]> h) = Ok (tt, <[p := <[i := g i]> cur]> h)) ->
  forM_ (seq 0 n) body h = Ok (tt, <[p := map g (seq 0 n) ++ drop n blk]> h).
Proof.
  intros Hb. induction n as [|n IH]; intros Hn Hbody.
  - simpl. unfold ret. rewrite drop_0. now rewrite list_insert_id.
  - rewrite seq_S, forM__app. simpl.
    rewrite (bind_ok _ _ _ _ _ (IH ltac:(lia) (fun i Hi => Hbody i ltac:(lia)))).
    unfold bind. rewrite (Hbody n ltac:(lia)). unfold ret.
    rewrite fill_step by lia. now rewrite seq_S.
Qed.

Lemma lookup_nth blk i :
  (i < length blk)%nat -> blk !! i = Some (nth i blk 0%R).
Proof.
  intros Hi. destruct (nth_lookup_or_length blk i 0%R) as [H|H]; [exact H | lia].
Qed.

Lemma map_nth_seq blk n :
  (n <= length blk)%nat -> map (fun i => nth i blk 0%R) (seq 0 n) = take n blk.
Proof.
  intros Hn. apply list_eq. intros i.
  rewrite list_lookup_fmap.
  destruct (decide (i < n)%nat) as [Hi|Hi].
  - rewrite lookup_seq_lt, lookup_take_lt by lia. simpl.
    destruct (lookup_lt_is_Some_2 blk i ltac:(lia)) as [v Hv].
    rewrite Hv. f_equal. now apply nth_lookup_Some.
  - rewrite lookup_seq_ge, lookup_take_ge by lia. reflexivity.
Qed.

Lemma Copy_ok n (x y : slice) h bx bly :
  ptr x <> ptr y ->
  h !! ptr x = Some bx -> h !! ptr y = Some bly ->
  (n <= len x)%nat -> (n <= length bx)%nat ->
  (n <= len y)%nat -> (n <= length bly)%nat ->
  mat64.Copy n x y h = Ok (tt, <[ptr y := take n bx ++ drop n bly]> h).
Proof.
  intros Hne Hx Hy Hnx Hbx Hny Hby. unfold mat64.Copy.
  rewrite (pointwise_loop _ (ptr y) (fun i => nth i bx 0%R) h bly n Hy Hby).
  - now rewrite map_nth_seq.
  - intros i Hi cur.
    assert (Hp : (ptr y < length h)%nat) by (eapply lookup_lt_Some; eauto).
    assert (Hxi : bx !! i = Some (nth i bx 0%R)) by (apply lookup_nth; lia).
    assert (Hgx : <[ptr y := cur]> h !! ptr x = Some bx)
      by (rewrite list_lookup_insert_ne; [exact Hx | congruence]).
    rewrite (bind_ok _ _ _ _ _ (slice_get_ok x i _ bx _ Hgx Hxi ltac:(lia))).
    rewrite (slice_set_ok y i _ _ cur).
    + now rewrite list_insert_insert_eq.
    + now rewrite list_lookup_insert_eq.
    + lia.
    + subst cur. rewrite length_app, length_map, length_seq, length_drop. lia.
Qed.

Lemma store_loop (s : slice) (g : nat -> R) h blk n :
  h !! ptr s = Some blk -> (n <= len s)%nat -> (n <= length blk)%nat ->
  forM_ (seq 0 n) (fun i => slice_set s i (g i)) h =
  Ok (tt, <[ptr s := map g (seq 0 n) ++ drop n blk]> h).
Proof.
  intros Hb Hn Hl.
  apply (pointwise_loop _ (ptr s) g h blk n Hb Hl).
  intros i Hi cur.
  assert (Hp : (ptr s < length h)%nat) by (eapply lookup_lt_Some; eauto).
  rewrite (slice_set_ok s i _ _ cur).
  - now rewrite list_insert_insert_eq.
  - now rewrite list_lookup_insert_eq.
  - lia.
  - subst cur. rewrite length_app, length_map, length_seq, length_drop. lia.
Qed.

Lemma apply_loop (v : mat64.Vector) (F : R -> R) h blk n :
  h !! ptr (mat64.Data v) = Some blk ->
  (n <= mat64.Len v)%nat -> (n <= length blk)%nat ->
  forM_ (seq 0 n)
        (fun i => x <- mat64.At v i ;; mat64.SetVec v i (F x)) h =
  Ok (tt, <[ptr (mat64.Data v) := map F (take n blk) ++ drop n blk]> h).
Proof.
  intros Hb Hn Hl.
  rewrite (pointwise_loop _ (ptr (mat64.Data v)) (fun i => F (nth i blk 0%R)) h blk n Hb Hl).
  - rewrite <- (map_nth_seq blk n Hl), map_map. reflexivity.
  - intros i Hi cur.
    assert (Hp : (ptr (mat64.Data v) < length h)%nat) by (eapply lookup_lt_Some; eauto).
    assert (Hlen : length cur = length blk).
    { subst cur. rewrite length_app, length_map, length_seq, length_drop. lia. }
    assert (Hci : cur !! i = Some (nth i blk 0%R)).
    { subst cur. rewrite lookup_app_r by (rewrite length_map, length_seq; lia).
      rewrite length_map, length_seq, Nat.sub_diag, lookup_drop, Nat.add_0_r.
      apply lookup_nth. lia. }
    unfold mat64.At, mat64.SetVec. unfold mat64.Len in *.
    destruct (Nat.ltb_spec i (len (mat64.Data v))); [|lia].
    assert (Hgc : <[ptr (mat64.Data v) := cur]> h !! ptr (mat64.Data v) = Some cur)
      by now rewrite list_lookup_insert_eq.
    rewrite (bind_ok _ _ _ _ _ (slice_get_ok _ i _ cur _ Hgc Hci ltac:(lia))).
    rewrite (slice_set_ok _ i _ _ cur).
    + now rewrite list_insert_insert_eq.
    + now rewrite list_lookup_insert_eq.
    + lia.
    + lia.
Qed.

Lemma insert_last (h : heap) (old new : list R) (t : heap) :
  <[length h := new]> (h ++ old :: t) = h ++ new :: t.
Proof.
  replace (length h) with (length h + 0)%nat by lia.
  now rewrite insert_app_r.
Qed.

Lemma lookup_last (h : heap) (b : list R) (t : heap) :
  (h ++ b :: t) !! length h = Some b.
Proof. apply list_lookup_middle. reflexivity. Qed.

End Heap.

Lemma make_ok (z : Z) (h : heap) :
  (0 <= z)%Z ->
  make z h = Ok (mkSlice (length h) (Z.to_nat z) (Z.to_nat z),
                 h ++ [replicate (Z.to_nat z) 0%R]).
Proof.
  intros Hz. unfold make.
  destruct (Z.ltb_spec z 0); [lia | reflexivity].
Qed.

(** [Activate] on a valid signal: the heap grows by the bias-augmented input
    and the output block, and nothing else changes. *)
Lemma Activate_ok (l : Layer) (signal : mat64.Vector) (h : heap) (blk : list R) :
  h !! ptr (mat64.Data signal) = Some blk ->
  (mat64.Len signal <= length blk)%nat ->
  mat64.Rows (Weights l) = Z.of_nat (mat64.Len signal + 1) ->
  (0 < mat64.Cols (Weights l))%Z ->
  let xs := take (mat64.Len signal) blk in
  let c := Z.to_nat (mat64.Cols (Weights l)) in
  Activate l signal h =
  Ok (mat64.mkVector (mkSlice (S (length h)) c c),
      h ++ [xs ++ [(-1)%R]; activate_spec l xs]).
Proof.
  intros Hb Hlen Hrows Hpos xs c.
  assert (Hcols : (0 <= mat64.Cols (Weights l))%Z) by lia.
  set (n := mat64.Len signal) in *.
  assert (Hxs : length xs = n) by (subst xs; rewrite length_take; lia).
  assert (Hp : (ptr (mat64.Data signal) < length h)%nat)
    by (eapply lookup_lt_Some; eauto).
  unfold Activate.
  (* withBias := NewVector(n+1, nil) *)
  set (wb := mkSlice (length h) (n + 1) (n + 1)).
  assert (E1 : mat64.NewVector (Z.of_nat (n + 1)) None h =
               Ok (mat64.mkVector wb, h ++ [replicate (n + 1) 0%R])).
  { unfold mat64.NewVector.
    rewrite (bind_ok _ _ _ _ _ (make_ok (Z.of_nat (n + 1)) h ltac:(lia))).
    unfold ret, wb. now rewrite Nat2Z.id. }
  rewrite (bind_ok _ _ _ _ _ E1). clear E1.
  (* withBias.CopyVec(signal) *)
  assert (E2 : mat64.CopyVec (mat64.mkVector wb) signal (h ++ [replicate (n + 1) 0%R]) =
               Ok (n, h ++ [xs ++ [0%R]])).
  { unfold mat64.CopyVec. unfold mat64.Len at 1. simpl.
    fold n. replace (Nat.min (n + 1) n) with n by lia.
    assert (Ec : mat64.Copy n (mat64.Data signal) wb (h ++ [replicate (n + 1) 0%R]) =
                 Ok (tt, <[ptr wb := take n blk ++ drop n (replicate (n + 1) 0%R)]>
                           (h ++ [replicate (n + 1) 0%R]))).
    { apply Copy_ok; unfold wb; simpl.
      - lia.
      - rewrite lookup_app_l by lia. exact Hb.
      - apply lookup_last.
      - unfold n, mat64.Len. lia.
      - lia.
      - lia.
      - rewrite length_replicate. lia. }
    rewrite (bind_ok _ _ _ _ _ Ec).
    unfold ret. simpl. rewrite insert_last.
    rewrite drop_replicate. replace (n + 1 - n)%nat with 1%nat by lia.
    unfold mat64.Len. simpl. replace (Nat.min (n + 1) n) with n by lia.
    reflexivity. }
  rewrite (bind_ok _ _ _ _ _ E2). clear E2.
  (* withBias.SetVec(n, -1.0) *)
  assert (E3 : mat64.SetVec (mat64.mkVector wb) n (-1)%R (h ++ [xs ++ [0%R]]) =
               Ok (tt, h ++ [xs ++ [(-1)%R]])).
  { unfold mat64.SetVec, mat64.Len. simpl.
    destruct (Nat.ltb_spec n (n + 1)); [|lia].
    rewrite (slice_set_ok wb n _ _ (xs ++ [0%R])); unfold wb; simpl.
    - rewrite insert_last. do 3 f_equal.
      replace n with (length xs + 0)%nat at 1 by lia.
      now rewrite insert_app_r.
    - apply lookup_last.
    - lia.
    - rewrite length_app. simpl. lia. }
  rewrite (bind_ok _ _ _ _ _ E3). clear E3.
  (* activated := NewVector(c, make([]float64, c)) *)
  set (h3 := h ++ [xs ++ [(-1)%R]]).
  assert (Hl3 : length h3 = S (length h))
    by (subst h3; rewrite length_app; simpl; lia).
  rewrite (bind_ok _ _ _ _ _ (make_ok _ h3 Hcols)). fold c.
  set (act := mkSlice (length h3) c c).
  assert (E5 : mat64.NewVector (mat64.Cols (Weights l)) (Some act)
                 (h3 ++ [replicate c 0%R]) =
               Ok (mat64.mkVector act, h3 ++ [replicate c 0%R])).
  { unfold mat64.NewVector. simpl. unfold c. rewrite Z2Nat.id by lia.
    now rewrite Z.eqb_refl. }
  rewrite (bind_ok _ _ _ _ _ E5). clear E5.
  (* activated.MulVec(l.Weights.T(), withBias) *)
  set (raw := mulVec (mat64.Transpose (Weights l)) (xs ++ [(-1)%R])).
  assert (Hraw : length raw = c)
    by (subst raw; unfold mulVec; now rewrite length_map, length_seq).
  assert (E6 : mat64.MulVec (mat64.mkVector act) (mat64.T (Weights l))
                 (mat64.mkVector wb) (h3 ++ [replicate c 0%R]) =
               Ok (tt, h3 ++ [raw])).
  { unfold mat64.MulVec, mat64.T, mat64.Dims, mat64.Len. simpl.
    rewrite Hrows. fold n. rewrite Z.eqb_refl. simpl.
    unfold c. rewrite Z2Nat.id by lia. rewrite Z.eqb_refl. simpl.
    destruct (Z.ltb_spec (mat64.Cols (Weights l)) (Z.max 1 (mat64.Cols (Weights l))));
      [lia|].
    assert (Hwb : (h3 ++ [replicate (Z.to_nat (mat64.Cols (Weights l))) 0%R]) !! ptr wb
                  = Some (xs ++ [(-1)%R])).
    { unfold wb. simpl. subst h3. rewrite <- app_assoc. apply lookup_last. }
    rewrite (bind_ok _ _ _ _ _
               (slice_load_ok wb _ _ Hwb ltac:(unfold wb; simpl; rewrite length_app; simpl; lia))).
    simpl. rewrite take_ge by (rewrite length_app; simpl; lia).
    rewrite (store_loop act _ _ (replicate c 0%R) c); unfold act, wb; simpl.
    - rewrite insert_last. rewrite drop_ge by (rewrite length_replicate; lia).
      rewrite app_nil_r. reflexivity.
    - apply lookup_last.
    - lia.
    - rewrite length_replicate. lia. }
  rewrite (bind_ok _ _ _ _ _ E6). clear E6.
  (* the activation loop *)
  assert (E7 : forM_ (seq 0 c)
                 (fun i => x <- mat64.At (mat64.mkVector act) i ;;
                           mat64.SetVec (mat64.mkVector act) i (Fn (activation l) x))
                 (h3 ++ [raw]) =
               Ok (tt, <[ptr act := map (Fn (activation l)) (take c raw) ++ drop c raw]>
                         (h3 ++ [raw]))).
  { apply (apply_loop (mat64.mkVector act)); unfold mat64.Len, act; simpl.
    - apply lookup_last.
    - lia.
    - lia. }
  rewrite (bind_ok _ _ _ _ _ E7). clear E7.
  unfold ret, act. simpl. rewrite insert_last.
  rewrite take_ge, drop_ge, app_nil_r by lia.
  rewrite Hl3. subst h3. rewrite <- app_assoc. reflexivity.
Qed.

Lemma holds_contents h s xs : holds h s xs -> contents h s = Some xs.
Proof. intros (blk & Hb & _ & _ & <-). unfold contents. now rewrite Hb. Qed.

Lemma holds_length h s xs : holds h s xs -> length xs = len s.
Proof. intros (blk & _ & ? & ? & <-). rewrite length_take. lia. Qed.

Lemma valid_holds h s : valid_slice h s -> exists xs, holds h s xs.
Proof. intros (blk & ? & ? & ?). exists (take (len s) blk), blk. auto. Qed.

Lemma activate_spec_length l xs :
  length (activate_spec l xs) = Z.to_nat (mat64.Cols (Weights l)).
Proof. unfold activate_spec, mulVec. now rewrite !length_map, length_seq. Qed.

(** [CloneVec] when the receiver's backing array has the capacity: the
    array is overwritten in place. *)
Lemma CloneVec_reuse (v a : mat64.Vector) h bv ba :
  ptr (mat64.Data a) <> ptr (mat64.Data v) ->
  h !! ptr (mat64.Data v) = Some bv -> h !! ptr (mat64.Data a) = Some ba ->
  (mat64.Len a <= length ba)%nat ->
  (mat64.Len a <= cap (mat64.Data v))%nat ->
  (cap (mat64.Data v) <= length bv)%nat ->
  let n := mat64.Len a in
  mat64.CloneVec v a h =
  Ok (mat64.mkVector (mkSlice (ptr (mat64.Data v)) n (cap (mat64.Data v))),
      <[ptr (mat64.Data v) := take n ba ++ drop n bv]> h).
Proof.
  intros Hne Hv Ha Hla Hcap Hbv n. unfold mat64.CloneVec, mat64.use. fold n.
  destruct (Nat.leb_spec n (cap (mat64.Data v))); [|lia].
  unfold bind at 1. unfold ret at 1.
  set (d := mkSlice _ _ _).
  rewrite (bind_ok _ _ _ _ _
             (Copy_ok n (mat64.Data a) d h ba bv Hne Ha Hv
                ltac:(unfold n, mat64.Len; lia) Hla ltac:(simpl; lia) ltac:(lia))).
  reflexivity.
Qed.

(** [CloneVec] when it has not: a new block receives the copy. *)
Lemma CloneVec_fresh (v a : mat64.Vector) h ba :
  h !! ptr (mat64.Data a) = Some ba ->
  (mat64.Len a <= length ba)%nat ->
  (cap (mat64.Data v) < mat64.Len a)%nat ->
  let n := mat64.Len a in
  mat64.CloneVec v a h =
  Ok (mat64.mkVector (mkSlice (length h) n n), h ++ [take n ba]).
Proof.
  intros Ha Hla Hcap n. unfold mat64.CloneVec, mat64.use. fold n.
  destruct (Nat.leb_spec n (cap (mat64.Data v))); [lia|].
  rewrite (bind_ok _ _ _ _ _ (make_ok (Z.of_nat n) h ltac:(lia))).
  rewrite Nat2Z.id.
  assert (Hp : (ptr (mat64.Data a) < length h)%nat) by (eapply lookup_lt_Some; eauto).
  set (d := mkSlice (length h) n n).
  assert (Ec : mat64.Copy n (mat64.Data a) d (h ++ [replicate n 0%R]) =
               Ok (tt, <[ptr d := take n ba ++ drop n (replicate n 0%R)]>
                         (h ++ [replicate n 0%R]))).
  { apply Copy_ok; unfold d; simpl.
    - lia.
    - rewrite lookup_app_l by lia. exact Ha.
    - apply lookup_last.
    - unfold n, mat64.Len. lia.
    - exact Hla.
    - lia.
    - rewrite length_replicate. lia. }
  rewrite (bind_ok _ _ _ _ _ Ec). unfold ret, d. simpl.
  rewrite insert_last, drop_ge, app_nil_r by (rewrite length_replicate; lia).
  reflexivity.
Qed.

Lemma turn_ok (l : Layer) (sv : mat64.Vector) h xs :
  holds h (mat64.Data sv) xs ->
  mat64.Rows (Weights l) = Z.of_nat (mat64.Len sv + 1) ->
  (0 < mat64.Cols (Weights l))%Z ->
  exists sv' h',
    turn sv l h = Ok (sv', h') /\
    holds h' (mat64.Data sv') (activate_spec l xs) /\
    (length h <= length h')%nat /\
    (forall p, (p < length h)%nat -> p <> ptr (mat64.Data sv) -> h' !! p = h !! p) /\
    (ptr (mat64.Data sv') = ptr (mat64.Data sv) \/
     (length h <= ptr (mat64.Data sv'))%nat) /\
    ((cap (mat64.Data sv) < Z.to_nat (mat64.Cols (Weights l)))%nat ->
     (length h <= ptr (mat64.Data sv'))%nat /\ unchanged_below (length h) h h').
Proof.
  intros (blk & Hb & Hlc & Hcb & Hxs) Hrows Hcols.
  assert (Hp : (ptr (mat64.Data sv) < length h)%nat) by (eapply lookup_lt_Some; eauto).
  unfold turn.
  rewrite (bind_ok _ _ _ _ _
             (Activate_ok l sv h blk Hb ltac:(unfold mat64.Len; lia) Hrows Hcols)).
  unfold mat64.Len in *. rewrite Hxs.
  set (out := activate_spec l xs).
  set (c := Z.to_nat (mat64.Cols (Weights l))).
  assert (Hout : length out = c) by apply activate_spec_length.
  set (h1 := h ++ [xs ++ [(-1)%R]; out]).
  assert (Hl1 : length h1 = S (S (length h)))
    by (subst h1; rewrite length_app; simpl; lia).
  set (a := mat64.mkVector (mkSlice (S (length h)) c c)).
  assert (Ha : h1 !! ptr (mat64.Data a) = Some out).
  { subst h1 a. simpl.
    replace (h ++ [xs ++ [(-1)%R]; out]) with ((h ++ [xs ++ [(-1)%R]]) ++ [out])
      by now rewrite <- app_assoc.
    replace (S (length h)) with (length (h ++ [xs ++ [(-1)%R]]))
      by (rewrite length_app; simpl; lia).
    apply lookup_last. }
  assert (Hv1 : h1 !! ptr (mat64.Data sv) = Some blk)
    by (subst h1; rewrite lookup_app_l by lia; exact Hb).
  destruct (le_lt_dec c (cap (mat64.Data sv))) as [Hle|Hgt].
  - (* the backing array of signalVec is kept *)
    rewrite (CloneVec_reuse sv a h1 blk out); try assumption; unfold mat64.Len;
      subst a; simpl; try lia.
    eexists _, _. split; [reflexivity|]. simpl.
    rewrite take_ge by lia.
    repeat split.
    + exists (out ++ drop c blk). simpl. split.
      * apply list_lookup_insert_eq. lia.
      * repeat split; try lia.
        -- rewrite length_app, length_drop. lia.
        -- rewrite take_app_le, take_ge by lia. reflexivity.
    + rewrite length_insert. lia.
    + intros p Hpl Hpn. rewrite list_lookup_insert_ne by congruence.
      subst h1. now rewrite lookup_app_l by lia.
    + now left.
    + lia.
    + lia.
  - (* a new block *)
    rewrite (CloneVec_fresh sv a h1 out); try assumption; unfold mat64.Len;
      subst a; simpl; try lia.
    eexists _, _. split; [reflexivity|]. simpl.
    rewrite take_ge by lia.
    repeat split.
    + exists out. simpl. split; [apply lookup_last|]. repeat split; try lia.
      rewrite take_ge by lia. reflexivity.
    + rewrite length_app. simpl. lia.
    + intros p Hpl Hpn. subst h1. now rewrite !lookup_app_l by (rewrite ?length_app; simpl; lia).
    + right. lia.
    + lia.
    + intros p Hpl. subst h1. now rewrite !lookup_app_l by (rewrite ?length_app; simpl; lia).
Qed.

Lemma propagate_cons l ls sv h :
  propagate (l :: ls) sv h = (sv' <- turn sv l ;; propagate ls sv') h.
Proof. reflexivity. Qed.

(** The loop of [FeedForward] computes [feed_spec]; it writes only to the
    block of the signal vector it was given and to new blocks. *)
Lemma propagate_ok (ls : list Layer) :
  forall (sv : mat64.Vector) h xs,
    holds h (mat64.Data sv) xs ->
    chained (mat64.Len sv) ls -> nonempty ls ->
    exists sv' h',
      propagate ls sv h = Ok (sv', h') /\
      holds h' (mat64.Data sv') (feed_spec ls xs) /\
      (length h <= length h')%nat /\
      (forall p, (p < length h)%nat -> p <> ptr (mat64.Data sv) -> h' !! p = h !! p) /\
      (ptr (mat64.Data sv') = ptr (mat64.Data sv) \/
       (length h <= ptr (mat64.Data sv'))%nat).
Proof.
  induction ls as [|l ls IH]; intros sv h xs Hh Hch Hnz.
  - exists sv, h. simpl. repeat split; auto.
  - destruct Hch as (Hrows & Hcols & Hch).
    apply Forall_cons in Hnz as [Hn0 Hnz].
    destruct (turn_ok l sv h xs Hh Hrows ltac:(lia))
      as (sv1 & h1 & E1 & Hh1 & Hl1 & Hfr1 & Hp1 & _).
    assert (Hlen1 : mat64.Len sv1 = Z.to_nat (mat64.Cols (Weights l))).
    { unfold mat64.Len. rewrite <- (holds_length _ _ _ Hh1).
      apply activate_spec_length. }
    rewrite <- Hlen1 in Hch.
    destruct (IH sv1 h1 _ Hh1 Hch Hnz) as (sv2 & h2 & E2 & Hh2 & Hl2 & Hfr2 & Hp2).
    exists sv2, h2. rewrite propagate_cons, (bind_ok _ _ _ _ _ E1).
    repeat split; auto.
    + lia.
    + intros p Hp Hne. rewrite Hfr2.
      * now apply Hfr1.
      * lia.
      * destruct Hp1 as [-> | Hge]; [exact Hne | lia].
    + destruct Hp2 as [Ep2 | Hge2]; destruct Hp1 as [Ep1 | Hge1];
        [left; congruence | right; lia | right; lia | right; lia].
Qed.




(** [FeedForward] on a network whose shapes fit. *)
Lemma FeedForward_ok (c : CPPN) (inputs : slice) h xs :
  holds h inputs xs ->
  Z.of_nat (len inputs) = NumInputs (Param c) ->
  chained (len inputs) (Layers c) -> nonempty (Layers c) ->
  exists out h',
    FeedForward c inputs h = Ok (out, h') /\
    holds h' out (feed_spec (Layers c) xs) /\
    (length h <= length h')%nat /\
    (forall p, (p < length h)%nat -> p <> ptr inputs -> h' !! p = h !! p) /\
    (ptr out = ptr inputs \/ (length h <= ptr out)%nat).
Proof.
  intros Hh Hn Hch Hne. unfold FeedForward.
  rewrite Hn, Z.eqb_refl. simpl.
  unfold mat64.NewVector. rewrite <- Hn, Z.eqb_refl.
  unfold bind at 1. unfold ret at 1.
  destruct (propagate_ok (Layers c) (mat64.mkVector inputs) h xs Hh Hch Hne)
    as (sv & h' & E & Hh' & Hl & Hfr & Hp).
  exists (mat64.Data sv), h'. rewrite (bind_ok _ _ _ _ _ E). auto.
Qed.

(* ------------------------------------------------------------------ *)
(** ** Construction *)

Lemma wrap_id (z : Z) : GoInt.in_range z -> GoInt.wrap z = z.
Proof.
  unfold GoInt.in_range, GoInt.wrap, GoInt.minInt, GoInt.maxInt. intros H.
  rewrite Z.mod_small; lia.
Qed.

Lemma replicateM_length {S A} (n : nat) (c : M S A) s l s' :
  replicateM n c s = Ok (l, s') -> length l = n.
Proof.
  revert s l s'. induction n as [|n IH]; intros s l s'; simpl.
  - unfold ret. intros [= <- _]. reflexivity.
  - unfold bind, ret. destruct (c s) as [[a s1]|e]; [|discriminate].
    destruct (replicateM n c s1) as [[l1 s2]|e] eqn:E; [|discriminate].
    intros [= <- _]. simpl. f_equal. eapply IH. exact E.
Qed.

Lemma replicateM_Forall {S A} (P : A -> Prop) (n : nat) (c : M S A) :
  (forall s a s', c s = Ok (a, s') -> P a) ->
  forall s l s', replicateM n c s = Ok (l, s') -> Forall P l.
Proof.
  intros HP. induction n as [|n IH]; intros s l s'; simpl.
  - unfold ret. intros [= <- _]. constructor.
  - unfold bind, ret. destruct (c s) as [[a s1]|e] eqn:Ea; [|discriminate].
    destruct (replicateM n c s1) as [[l1 s2]|e] eqn:E; [|discriminate].
    intros [= <- _]. constructor; eauto.
Qed.

Lemma replicateM_total {S A} (n : nat) (c : M S A) :
  (forall s, exists a s', c s = Ok (a, s')) ->
  forall s, exists l s', replicateM n c s = Ok (l, s').
Proof.
  intros Hc. induction n as [|n IH]; intros s; simpl.
  - eexists _, _. reflexivity.
  - destruct (Hc s) as (a & s1 & Ea). destruct (IH s1) as (l & s2 & El).
    exists (a :: l), s2. unfold bind, ret. now rewrite Ea, El.
Qed.

Lemma NewLayer_shaped r c act g l g' :
  GoInt.in_range (r * c) ->
  NewLayer r c act g = Ok (l, g') -> shaped r c act l.
Proof.
  intros Hr. unfold NewLayer, GoInt.mul. rewrite (wrap_id _ Hr).
  destruct (Z.ltb_spec (r * c) 0); [discriminate|].
  unfold bind at 1.
  destruct (replicateM _ _ g) as [[ws g1]|e] eqn:E; [|discriminate].
  apply replicateM_length in E.
  unfold mat64.NewDense, GoInt.mul. rewrite (wrap_id _ Hr), E, Z2Nat.id by lia.
  rewrite Z.eqb_refl. unfold bind, ret. intros [= <- _].
  unfold shaped. simpl. rewrite E. repeat split; lia.
Qed.

Lemma NewLayer_total r c act g :
  GoInt.in_range (r * c) -> (0 <= r * c)%Z ->
  exists l g', NewLayer r c act g = Ok (l, g').
Proof.
  intros Hr Hpos. unfold NewLayer, GoInt.mul. rewrite (wrap_id _ Hr).
  destruct (Z.ltb_spec (r * c) 0); [lia|].
  destruct (replicateM_total (Z.to_nat (r * c))
              (x <- NormFloat64 ;; ret (x * 0.5)%R)
              ltac:(intros s; eexists _, _; reflexivity) g) as (ws & g1 & E).
  unfold bind at 1. rewrite E.
  apply replicateM_length in E.
  unfold mat64.NewDense, GoInt.mul. rewrite (wrap_id _ Hr), E, Z2Nat.id by lia.
  rewrite Z.eqb_refl. unfold bind, ret. eexists _, _. reflexivity.
Qed.

(** What [NewCPPN] builds for [p]: a first layer, [NumHiddenLayers - 1]
    middle layers, a last layer. *)
Lemma valid_constructible p : valid p -> representable p -> constructible p.
Proof.
  unfold valid, representable, constructible, GoInt.maxInt.
  intros (? & ? & ? & ?) (? & ? & ? & ?). repeat split; try lia; nia.
Qed.

Lemma NewCPPN_built p g :
  constructible p -> exists c g', NewCPPN p g = Ok (c, g') /\ built p c.
Proof.
  intros (Hd & Hi & Hn & Ho & H1 & H2 & H3 & Hi' & Hn').
  assert (Hmax : GoInt.maxInt = (2 ^ 63 - 1)%Z) by reflexivity.
  assert (Hmin : GoInt.minInt = (- 2 ^ 63)%Z) by reflexivity.
  unfold NewCPPN, GoInt.add.
  rewrite !wrap_id by (unfold GoInt.in_range; lia).
  destruct (Z.ltb_spec (NumHiddenLayers p + 1) 0); [lia|].
  assert (R1 : GoInt.in_range ((NumInputs p + 1) * NumHiddenNeurons p))
    by (unfold GoInt.in_range; nia).
  assert (R2 : GoInt.in_range ((NumHiddenNeurons p + 1) * NumHiddenNeurons p))
    by (unfold GoInt.in_range; nia).
  assert (R3 : GoInt.in_range ((NumHiddenNeurons p + 1) * NumOutputs p))
    by (unfold GoInt.in_range; nia).
  destruct (NewLayer_total _ _ Tanh g R1 ltac:(nia)) as (first & g1 & E1).
  destruct (replicateM_total (Z.to_nat (NumHiddenLayers p - 1))
              (NewLayer (NumHiddenNeurons p + 1) (NumHiddenNeurons p) Tanh)
              (fun s => NewLayer_total _ _ Tanh s R2 ltac:(nia)) g1)
    as (middle & g2 & E2).
  destruct (NewLayer_total _ _ Sigmoid g2 R3 ltac:(nia)) as (last & g3 & E3).
  exists (mkCPPN p (first :: middle ++ [last])), g3.
  rewrite (bind_ok _ _ _ _ _ E1), (bind_ok _ _ _ _ _ E2), (bind_ok _ _ _ _ _ E3).
  split; [reflexivity|]. split; [reflexivity|].
  exists first, middle, last.
  split; [reflexivity|].
  split; [eapply NewLayer_shaped; eauto|].
  split.
  { eapply replicateM_Forall; [|exact E2].
    intros s a s' Ha. eapply NewLayer_shaped; eauto. }
  split; [eapply replicateM_length; eauto|].
  eapply NewLayer_shaped; eauto.
Qed.

Lemma NewCPPN_inv p g c g' :
  constructible p -> NewCPPN p g = Ok (c, g') -> built p c.
Proof.
  intros Hp E. destruct (NewCPPN_built p g Hp) as (c0 & g0 & E0 & Hb).
  rewrite E in E0. now injection E0 as -> _.
Qed.

Lemma chained_app n ls1 ls2 :
  chained n (ls1 ++ ls2) <->
  chained n ls1 /\
  chained (match last ls1 with
           | Some l => Z.to_nat (mat64.Cols (Weights l))
           | None => n
           end) ls2.
Proof.
  revert n. induction ls1 as [|l ls1 IH]; intros n; simpl.
  - tauto.
  - rewrite IH. destruct ls1 as [|l' ls1]; simpl; [tauto|].
    destruct (last (l' :: ls1)) eqn:E; [tauto|].
    apply last_None in E. discriminate.
Qed.

Lemma chained_uniform r c act n ls :
  (0 <= c)%Z -> r = (c + 1)%Z -> n = Z.to_nat c ->
  Forall (shaped r c act) ls -> chained n ls.
Proof.
  intros Hc -> ->. induction 1 as [|l ls (Hr & Hcl & _) _ IH]; simpl; [exact I|].
  rewrite Hr, Hcl. repeat split; [lia | lia | exact IH].
Qed.

Lemma last_uniform r c act (ls : list Layer) l :
  Forall (shaped r c act) ls -> last ls = Some l -> mat64.Cols (Weights l) = c.
Proof.
  intros HF Hl. apply last_Some_elem_of in Hl.
  rewrite Forall_forall in HF.
  now destruct (HF _ Hl) as (_ & ? & _).
Qed.

Lemma built_chained p c :
  (0 <= NumInputs p)%Z -> (0 <= NumHiddenNeurons p)%Z -> (0 <= NumOutputs p)%Z ->
  built p c -> chained (Z.to_nat (NumInputs p)) (Layers c).
Proof.
  intros Hi Hn Ho (_ & first & middle & last & -> & (Hr1 & Hc1 & _) & Hm & _ & (Hr3 & Hc3 & _)).
  cbn [chained]. rewrite Hr1, Hc1. repeat split; [lia | lia |].
  apply chained_app. split.
  - apply (chained_uniform (NumHiddenNeurons p + 1) (NumHiddenNeurons p) Tanh);
      [lia | reflexivity | reflexivity | exact Hm].
  - cbn [chained]. rewrite Hr3, Hc3.
    destruct (list.last middle) as [l|] eqn:El.
    + rewrite (last_uniform _ _ _ _ _ Hm El). repeat split; lia.
    + repeat split; lia.
Qed.

(** A network built for a positive width and a positive number of outputs
    has no weight matrix without columns. *)
Lemma built_nonempty p c :
  (0 < NumHiddenNeurons p)%Z -> (0 < NumOutputs p)%Z ->
  built p c -> nonempty (Layers c).
Proof.
  intros Hn Ho (_ & first & middle & last & -> & (_ & Hc1 & _) & Hm & _ & (_ & Hc3 & _)).
  unfold nonempty. constructor; [lia|].
  apply Forall_app. split.
  - eapply Forall_impl; [exact Hm|]. intros l (_ & Hcl & _). lia.
  - constructor; [lia | constructor].
Qed.

(* ------------------------------------------------------------------ *)
(** ** The activations *)

Lemma Rdiv_between (a b lo hi : R) :
  (0 < b -> lo * b < a < hi * b -> lo < a / b < hi)%R.
Proof.
  intros Hb [H1 H2].
  split; apply (Rmult_lt_reg_r b); auto; unfold Rdiv;
    rewrite Rmult_assoc, Rinv_l by lra; lra.
Qed.


Lemma sigmoid_range (x : R) : (0 < Fn Sigmoid x < 1)%R.
Proof.
  simpl. pose proof (exp_pos (- x)).
  apply Rdiv_between; lra.
Qed.


Lemma activate_spec_sigmoid l xs :
  activation l = Sigmoid ->
  Forall (fun v => (0 < v < 1)%R) (activate_spec l xs).
Proof.
  intros E. unfold activate_spec. rewrite E.
  apply Forall_map, Forall_forall. intros v _. apply sigmoid_range.
Qed.

Lemma feed_spec_snoc ls l xs :
  feed_spec (ls ++ [l]) xs = activate_spec l (feed_spec ls xs).
Proof. unfold feed_spec. now rewrite fold_left_app. Qed.

(* ------------------------------------------------------------------ *)
(** ** Which computations can raise the input-count panic *)

Lemma quiet_ret {S A} (a : A) : quiet (@ret S A a).
Proof. intros s n. discriminate. Qed.

Lemma quiet_fail {S A} (e : panic) :
  (forall n, e <> DimensionMismatch n) -> quiet (@fail S A e).
Proof. intros He s n [= E]. exact (He n E). Qed.

Lemma quiet_bind {S A B} (c : M S A) (k : A -> M S B) :
  quiet c -> (forall a, quiet (k a)) -> quiet (bind c k).
Proof.
  intros Hc Hk s n. unfold bind.
  destruct (c s) as [[a s']|e] eqn:E.
  - apply Hk.
  - intros [= ->]. exact (Hc s n E).
Qed.

Lemma quiet_forM_ {S A} (l : list A) (body : A -> M S unit) :
  (forall a, quiet (body a)) -> quiet (forM_ l body).
Proof.
  intros Hb. induction l as [|a l IH]; simpl.
  - apply quiet_ret.
  - apply quiet_bind; auto.
Qed.

Lemma quiet_foldM {S A B} (f : B -> A -> M S B) (l : list A) :
  (forall b a, quiet (f b a)) -> forall b, quiet (foldM f l b).
Proof.
  intros Hf. induction l as [|a l IH]; intros b; simpl.
  - apply quiet_ret.
  - apply quiet_bind; auto.
Qed.

Lemma quiet_make z : quiet (make z).
Proof. intros s n. unfold make. destruct (z <? 0)%Z; discriminate. Qed.

Lemma quiet_slice_get s i : quiet (slice_get s i).
Proof.
  intros h n. unfold slice_get.
  destruct (i <? len s)%nat; [|discriminate].
  destruct (h !! ptr s) as [blk|]; [|discriminate].
  destruct (blk !! i); discriminate.
Qed.

Lemma quiet_slice_set s i x : quiet (slice_set s i x).
Proof.
  intros h n. unfold slice_set.
  destruct (i <? len s)%nat; [|discriminate].
  destruct (h !! ptr s) as [blk|]; [|discriminate].
  destruct (i <? length blk)%nat; discriminate.
Qed.

Lemma quiet_slice_load_from s n : forall i, quiet (slice_load_from s i n).
Proof.
  induction n as [|n IH]; intros i; simpl.
  - apply quiet_ret.
  - apply quiet_bind; [apply quiet_slice_get|]. intros x.
    apply quiet_bind; [apply IH|]. intros l. apply quiet_ret.
Qed.

Create HintDb quiet.
#[local] Hint Resolve quiet_ret quiet_bind quiet_forM_ quiet_foldM quiet_make
  quiet_slice_get quiet_slice_set quiet_slice_load_from : quiet.
#[local] Hint Extern 1 (quiet (fail _)) =>
  (apply quiet_fail; intros ?; discriminate) : quiet.

Lemma quiet_Copy n x y : quiet (mat64.Copy n x y).
Proof. unfold mat64.Copy. auto 6 with quiet. Qed.

Lemma quiet_NewVector n d : quiet (mat64.NewVector n d).
Proof.
  unfold mat64.NewVector. destruct d as [d|]; [|auto with quiet].
  destruct (Z.of_nat (len d) =? n)%Z; auto with quiet.
Qed.

Lemma quiet_At v i : quiet (mat64.At v i).
Proof. unfold mat64.At. destruct (i <? mat64.Len v)%nat; auto with quiet. Qed.

Lemma quiet_SetVec v i x : quiet (mat64.SetVec v i x).
Proof. unfold mat64.SetVec. destruct (i <? mat64.Len v)%nat; auto with quiet. Qed.

Lemma quiet_CopyVec v a : quiet (mat64.CopyVec v a).
Proof. unfold mat64.CopyVec. pose proof quiet_Copy. auto with quiet. Qed.

Lemma quiet_CloneVec v a : quiet (mat64.CloneVec v a).
Proof.
  unfold mat64.CloneVec, mat64.use. pose proof quiet_Copy.
  apply quiet_bind; [destruct (_ <=? _)%nat; auto with quiet|].
  auto with quiet.
Qed.

Lemma quiet_MulVec v a b : quiet (mat64.MulVec v a b).
Proof.
  unfold mat64.MulVec. destruct (mat64.Dims a) as [r c].
  destruct (negb _); [auto with quiet|].
  destruct (negb _); [auto with quiet|].
  destruct (_ <? _)%Z; [auto with quiet|].
  unfold slice_load. auto 6 with quiet.
Qed.

Lemma quiet_Activate l signal : quiet (Activate l signal).
Proof.
  unfold Activate.
  pose proof quiet_NewVector. pose proof quiet_CopyVec. pose proof quiet_SetVec.
  pose proof quiet_MulVec. pose proof quiet_At.
  auto 12 with quiet.
Qed.

Lemma quiet_propagate ls sv : quiet (propagate ls sv).
Proof.
  unfold propagate. apply quiet_foldM. intros b a.
  pose proof quiet_Activate. pose proof quiet_CloneVec. auto with quiet.
Qed.

(* ================================================================== *)
(** * C3 *)

(** C3. [FeedForward] panics with the input-count error (the
    specification's [DimensionMismatch]) exactly when the length of the
    input slice differs from [NumInputs]; this holds for every network,
    every slice and every heap, hence for any depth and size. *)
Theorem FeedForward_dimension_mismatch (c : CPPN) (inputs : slice) (h : heap) :
  (exists n, FeedForward c inputs h = Panic (DimensionMismatch n)) <->
  Z.of_nat (len inputs) <> NumInputs (Param c).
Proof.
  unfold FeedForward. split.
  - intros [n E] Heq. rewrite Heq, Z.eqb_refl in E. cbn [negb] in E.
    revert E. apply quiet_bind.
    + apply quiet_NewVector.
    + intros sv. apply quiet_bind; [apply quiet_propagate|].
      intros sv'. apply quiet_ret.
  - intros Hne. exists (len inputs).
    destruct (Z.eqb_spec (Z.of_nat (len inputs)) (NumInputs (Param c))); [contradiction|].
    reflexivity.
Qed.

(* ================================================================== *)
(** * C5 *)

Lemma built_lookup p c i l :
  (0 < NumHiddenLayers p)%Z -> built p c -> Layers c !! i = Some l ->
  if decide (i = 0)%nat
  then shaped (NumInputs p + 1) (NumHiddenNeurons p) Tanh l
  else if decide (Z.of_nat i = NumHiddenLayers p)
       then shaped (NumHiddenNeurons p + 1) (NumOutputs p) Sigmoid l
       else shaped (NumHiddenNeurons p + 1) (NumHiddenNeurons p) Tanh l.
Proof.
  intros Hd (_ & first & middle & last & -> & H1 & Hm & Hlen & H3) Hl.
  destruct i as [|i]; simpl in Hl.
  - injection Hl as <-. exact H1.
  - destruct (decide (S i = 0)%nat); [lia|].
    apply lookup_app_Some in Hl as [Hl | [Hge Hl]].
    + pose proof (lookup_lt_Some _ _ _ Hl).
      destruct (decide (Z.of_nat (S i) = NumHiddenLayers p)); [lia|].
      rewrite Forall_forall in Hm. apply Hm. eapply list_elem_of_lookup_2; eauto.
    + destruct (i - length middle)%nat as [|j] eqn:Ej; simpl in Hl; [|discriminate].
      injection Hl as <-.
      destruct (decide (Z.of_nat (S i) = NumHiddenLayers p)); [exact H3 | lia].
Qed.

Lemma built_length p c :
  (0 < NumHiddenLayers p)%Z -> built p c ->
  Z.of_nat (length (Layers c)) = (NumHiddenLayers p + 1)%Z.
Proof.
  intros Hd (_ & first & middle & last & -> & _ & _ & Hlen & _).
  simpl. rewrite length_app, Hlen. simpl. lia.
Qed.

(** C5. For a valid configuration (whose sizes are values of [int]),
    [NewCPPN] returns a network of [NumHiddenLayers + 1] layers: layer 0 is
    [(NumInputs+1) x NumHiddenNeurons] with tanh, the last layer is
    [(NumHiddenNeurons+1) x NumOutputs] with sigmoid, the layers between are
    [(NumHiddenNeurons+1) x NumHiddenNeurons] with tanh, and the column
    count of a layer is the row count of the next one less the bias row. *)
Theorem NewCPPN_chaining (p : CPPNParam) (g : rng) :
  valid p -> representable p ->
  exists c g',
    NewCPPN p g = Ok (c, g') /\
    Z.of_nat (length (Layers c)) = (NumHiddenLayers p + 1)%Z /\
    (forall i l, Layers c !! i = Some l ->
       if decide (i = 0)%nat
       then shaped (NumInputs p + 1) (NumHiddenNeurons p) Tanh l
       else if decide (Z.of_nat i = NumHiddenLayers p)
            then shaped (NumHiddenNeurons p + 1) (NumOutputs p) Sigmoid l
            else shaped (NumHiddenNeurons p + 1) (NumHiddenNeurons p) Tanh l) /\
    (forall i l l', Layers c !! i = Some l -> Layers c !! S i = Some l' ->
       mat64.Cols (Weights l) = (mat64.Rows (Weights l') - 1)%Z).
Proof.
  intros Hv Hr. pose proof Hv as (Hi & Hd & Hn & Ho).
  destruct (NewCPPN_built p g (valid_constructible p Hv Hr)) as (c & g' & E & Hb).
  exists c, g'. split; [exact E|].
  split; [now apply built_length|].
  split; [intros i l; now apply built_lookup|].
  intros i l l' Hl Hl'.
  pose proof (built_length p c Hd Hb) as Hlen.
  pose proof (lookup_lt_Some _ _ _ Hl').
  pose proof (built_lookup p c i l Hd Hb Hl) as Hs.
  pose proof (built_lookup p c (S i) l' Hd Hb Hl') as Hs'.
  destruct (decide (S i = 0)%nat); [lia|].
  assert (Hrow : mat64.Rows (Weights l') = (NumHiddenNeurons p + 1)%Z)
    by (destruct (decide (Z.of_nat (S i) = NumHiddenLayers p));
        now destruct Hs' as (? & _)).
  assert (Hcol : mat64.Cols (Weights l) = NumHiddenNeurons p).
  { destruct (decide (i = 0)%nat); [now destruct Hs as (_ & ? & _)|].
    destruct (decide (Z.of_nat i = NumHiddenLayers p)); [lia|].
    now destruct Hs as (_ & ? & _). }
  lia.
Qed.

(* ================================================================== *)
(** * C6 *)

(** C6. On a layer with an [r x m] weight matrix that has columns ([m] at
    least 1; without columns [MulVec] panics in BLAS) and a signal vector of
    [r - 1] components, [Activate] returns a vector that holds the
    activation applied to each component of the product of the transposed
    weight matrix and the input extended by the bias term -1.0; it has [m]
    components, lives in a block allocated by the call, and every block that
    existed before the call is unchanged. *)
Theorem Activate_refines_spec (l : Layer) (signal : mat64.Vector) (h : heap) (r m : Z) :
  mat64.Rows (Weights l) = r -> mat64.Cols (Weights l) = m -> (0 < m)%Z ->
  Z.of_nat (length (mat64.DData (Weights l))) = (r * m)%Z ->
  valid_slice h (mat64.Data signal) ->
  Z.of_nat (mat64.Len signal) = (r - 1)%Z ->
  exists input out h',
    contents h (mat64.Data signal) = Some input /\
    Activate l signal h = Ok (out, h') /\
    contents h' (mat64.Data out) = Some (activate_spec l input) /\
    Z.of_nat (mat64.Len out) = m /\
    unchanged_below (length h) h h' /\
    (length h <= ptr (mat64.Data out))%nat.
Proof.
  intros Hr Hm Hpos _ (blk & Hb & Hlc & Hcb) Hn.
  exists (take (mat64.Len signal) blk).
  eexists _, _. split.
  { unfold contents. now rewrite Hb. }
  split.
  { apply (Activate_ok l signal h blk Hb); unfold mat64.Len in *; lia. }
  simpl. repeat split.
  - unfold contents. simpl.
    replace (h ++ [take (mat64.Len signal) blk ++ [(-1)%R];
                   activate_spec l (take (mat64.Len signal) blk)])
      with ((h ++ [take (mat64.Len signal) blk ++ [(-1)%R]]) ++
            [activate_spec l (take (mat64.Len signal) blk)])
      by now rewrite <- app_assoc.
    replace (S (length h))
      with (length (h ++ [take (mat64.Len signal) blk ++ [(-1)%R]]))
      by (rewrite length_app; simpl; lia).
    rewrite lookup_last. f_equal. apply take_ge.
    rewrite activate_spec_length. lia.
  - unfold mat64.Len. simpl. lia.
  - intros p Hp. now rewrite lookup_app_l.
  - lia.
Qed.

(* ================================================================== *)
(** * C7 *)

Lemma built_last_sigmoid p c xs :
  built p c -> Forall (fun v => (0 < v < 1)%R) (feed_spec (Layers c) xs) /\
               length (feed_spec (Layers c) xs) = Z.to_nat (NumOutputs p).
Proof.
  intros (_ & first & middle & last & -> & _ & _ & _ & (_ & Hc & Ha & _)).
  rewrite app_comm_cons, feed_spec_snoc. split.
  - now apply activate_spec_sigmoid.
  - now rewrite activate_spec_length, Hc.
Qed.





(* ================================================================== *)
(** * C10 *)


(** C4, the claim refuted: the configuration with zero hidden layers is
    accepted, and the network it yields feeds forward. *)
Lemma NewCPPN_accepts_zero_hidden_layers :
  exists c g' out h',
    NewCPPN (mkParam 5 0 2 1) (mkRng (fun _ => 0%R) 0) = Ok (c, g') /\
    length (Layers c) = 2%nat /\
    FeedForward c (mkSlice 0 5 5) [[0; 0; 0; 0; 0]%R] = Ok (out, h').
Proof.
  eexists _, _, _, _.
  split; [run|]. split; [reflexivity|]. run.
Qed.


(* ================================================================== *)
(** * C4 *)

Lemma NewCPPN_negative_width p g :
  (0 <= NumInputs p < GoInt.maxInt)%Z -> (NumHiddenNeurons p < 0)%Z ->
  (GoInt.minInt <= (NumInputs p + 1) * NumHiddenNeurons p)%Z ->
  NewCPPN p g = Panic ErrMakeSlice.
Proof.
  intros Hi Hn Hlo. unfold NewCPPN.
  destruct (_ <? 0)%Z; [reflexivity|].
  apply bind_panic. unfold NewLayer, GoInt.add, GoInt.mul.
  assert (Hmax : GoInt.maxInt = (2 ^ 63 - 1)%Z) by reflexivity.
  assert (Hmin : GoInt.minInt = (- 2 ^ 63)%Z) by reflexivity.
  rewrite (wrap_id (NumInputs p + 1)) by (unfold GoInt.in_range; lia).
  rewrite wrap_id by (unfold GoInt.in_range; nia).
  destruct (Z.ltb_spec ((NumInputs p + 1) * NumHiddenNeurons p) 0); [reflexivity | nia].
Qed.

(** C4, as amended. [NewCPPN] checks nothing about its configuration.  With
    zero hidden layers and the other dimensions positive it returns a
    network of two layers, [(NumInputs+1) x NumHiddenNeurons] with tanh and
    [(NumHiddenNeurons+1) x NumOutputs] with sigmoid, on which [FeedForward]
    succeeds for every input of [NumInputs] components.  With a negative
    number of hidden neurons it fails at construction, by the run-time panic
    of the slice allocation. *)
Theorem NewCPPN_no_validation (p : CPPNParam) (g : rng) :
  (0 < NumInputs p < GoInt.maxInt)%Z -> (0 < NumOutputs p)%Z ->
  (NumHiddenLayers p = 0%Z -> (0 < NumHiddenNeurons p)%Z -> representable p ->
   exists c g' first last,
     NewCPPN p g = Ok (c, g') /\
     Layers c = [first; last] /\
     shaped (NumInputs p + 1) (NumHiddenNeurons p) Tanh first /\
     shaped (NumHiddenNeurons p + 1) (NumOutputs p) Sigmoid last /\
     forall inputs h,
       valid_slice h inputs -> Z.of_nat (len inputs) = NumInputs p ->
       exists out h', FeedForward c inputs h = Ok (out, h')) /\
  ((NumHiddenNeurons p < 0)%Z ->
   (GoInt.minInt <= (NumInputs p + 1) * NumHiddenNeurons p)%Z ->
   NewCPPN p g = Panic ErrMakeSlice).
Proof.
  intros Hi Ho. split.
  - intros Hd Hn (Hr0 & Hr1 & Hr2 & Hr3).
    assert (Hc : constructible p)
      by (unfold constructible, GoInt.maxInt in *; repeat split; try lia; nia).
    destruct (NewCPPN_built p g Hc) as (c & g' & E & Hb).
    pose proof Hb as (Hpar & first & middle & last & HL & H1 & _ & Hlen & H3).
    rewrite Hd in Hlen. simpl in Hlen. apply nil_length_inv in Hlen. subst middle.
    exists c, g', first, last. repeat split; try assumption;
      try (now destruct H1 as (? & ? & ? & ?)); try (now destruct H3 as (? & ? & ? & ?)).
    intros inputs h Hvs Hlen.
    pose proof (built_chained p c ltac:(lia) ltac:(lia) ltac:(lia) Hb) as Hch.
    replace (Z.to_nat (NumInputs p)) with (len inputs) in Hch by lia.
    destruct (valid_holds h inputs Hvs) as [xs Hh].
    destruct (FeedForward_ok c inputs h xs Hh ltac:(now rewrite Hpar) Hch
                (built_nonempty p c Hn Ho Hb))
      as (out & h' & Eff & _).
    now exists out, h'.
  - intros Hn Hlo. apply NewCPPN_negative_width; [lia | assumption..].
Qed.

Lemma NewCPPN_no_validation_witness :
  let p := mkParam 5 0 2 1 in
  let g := mkRng (fun _ => 0%R) 0 in
  (0 < NumInputs p < GoInt.maxInt)%Z /\ (0 < NumOutputs p)%Z /\
  NumHiddenLayers p = 0%Z /\ (0 < NumHiddenNeurons p)%Z /\ representable p /\
  exists c g' first last,
    NewCPPN p g = Ok (c, g') /\
    Layers c = [first; last] /\
    shaped (NumInputs p + 1) (NumHiddenNeurons p) Tanh first /\
    shaped (NumHiddenNeurons p + 1) (NumOutputs p) Sigmoid last /\
    forall inputs h,
      valid_slice h inputs -> Z.of_nat (len inputs) = NumInputs p ->
      exists out h', FeedForward c inputs h = Ok (out, h').
Proof.
  intros p g.
  assert (H1 : (0 < NumInputs p < GoInt.maxInt)%Z) by (vm_compute; split; reflexivity).
  assert (H2 : (0 < NumOutputs p)%Z) by reflexivity.
  assert (H3 : NumHiddenLayers p = 0%Z) by reflexivity.
  assert (H4 : (0 < NumHiddenNeurons p)%Z) by reflexivity.
  assert (H5 : representable p)
    by (vm_compute; repeat split; intros ?; discriminate).
  repeat (split; [assumption|]).
  exact (proj1 (NewCPPN_no_validation p g H1 H2) H3 H4 H5).
Defined.

(* ================================================================== *)
(** * Witnesses for the network theorems *)

Lemma NewCPPN_chaining_witness :
  let p := mkParam 5 2 3 1 in
  let g := mkRng (fun _ => 0%R) 0 in
  valid p /\ representable p /\
  exists c g',
    NewCPPN p g = Ok (c, g') /\
    Z.of_nat (length (Layers c)) = (NumHiddenLayers p + 1)%Z /\
    (forall i l, Layers c !! i = Some l ->
       if decide (i = 0)%nat
       then shaped (NumInputs p + 1) (NumHiddenNeurons p) Tanh l
       else if decide (Z.of_nat i = NumHiddenLayers p)
            then shaped (NumHiddenNeurons p + 1) (NumOutputs p) Sigmoid l
            else shaped (NumHiddenNeurons p + 1) (NumHiddenNeurons p) Tanh l) /\
    (forall i l l', Layers c !! i = Some l -> Layers c !! S i = Some l' ->
       mat64.Cols (Weights l) = (mat64.Rows (Weights l') - 1)%Z).
Proof.
  intros p g.
  assert (Hv : valid p) by (vm_compute; repeat split; reflexivity).
  assert (Hr : representable p) by (vm_compute; repeat split; intros ?; discriminate).
  split; [exact Hv|]. split; [exact Hr|].
  exact (NewCPPN_chaining p g Hv Hr).
Defined.

Lemma Activate_refines_spec_witness :
  let l := mkLayer (mat64.mkDense 2 1 [1; 1]%R) Tanh in
  let signal := mat64.mkVector (mkSlice 0 1 1) in
  let h := [[0%R]] in
  mat64.Rows (Weights l) = 2%Z /\ mat64.Cols (Weights l) = 1%Z /\ (0 < 1)%Z /\
  Z.of_nat (length (mat64.DData (Weights l))) = (2 * 1)%Z /\
  valid_slice h (mat64.Data signal) /\
  Z.of_nat (mat64.Len signal) = (2 - 1)%Z /\
  exists input out h',
    contents h (mat64.Data signal) = Some input /\
    Activate l signal h = Ok (out, h') /\
    contents h' (mat64.Data out) = Some (activate_spec l input) /\
    Z.of_nat (mat64.Len out) = 1%Z /\
    unchanged_below (length h) h h' /\
    (length h <= ptr (mat64.Data out))%nat.
Proof.
  intros l signal h.
  assert (H1 : mat64.Rows (Weights l) = 2%Z) by reflexivity.
  assert (H2 : mat64.Cols (Weights l) = 1%Z) by reflexivity.
  assert (H3 : (0 < 1)%Z) by lia.
  assert (H4 : Z.of_nat (length (mat64.DData (Weights l))) = (2 * 1)%Z) by reflexivity.
  assert (H5 : valid_slice h (mat64.Data signal))
    by (exists [0%R]; simpl; repeat split; lia).
  assert (H6 : Z.of_nat (mat64.Len signal) = (2 - 1)%Z) by reflexivity.
  repeat (split; [assumption|]).
  exact (Activate_refines_spec l signal h 2 1 H1 H2 H3 H4 H5 H6).
Defined.



(* ================================================================== *)
(** * C1 *)

Lemma PI_bounds : (3.14 < PI < 3.142)%R.
Proof.
  generalize (PI_2_3_7_ineq 2).
  unfold PI_2_3_7_tg, tg_alt, Ratan_seq. simpl. intros [H1 H2].
  split; lra.
Qed.

(** The phase angle of sample 60 is a full turn and a little more. *)
Lemma phase_angle_60 :
  exists d, (IZR 60 / (PI * 3.0) = d + 2 * INR 1 * PI /\ 0.08 < d < 0.09)%R.
Proof.
  destruct PI_bounds as [Hlo Hhi].
  exists (IZR 60 / (PI * 3.0) - 2 * INR 1 * PI)%R. split; [ring|].
  simpl INR.
  assert (E3 : (3.0 = 3)%R) by lra.
  assert (E : (IZR 60 / (PI * 3.0) = 20 / PI)%R) by (rewrite E3; field; lra).
  rewrite E.
  assert (H : (2 * 1 * PI + 0.08 < 20 / PI < 2 * 1 * PI + 0.09)%R).
  { apply Rdiv_between; [lra|]. split; nra. }
  lra.
Qed.

Lemma sin_lb_008 : (0.079 < sin_lb 0.08)%R.
Proof.
  unfold sin_lb, sin_approx, sum_f_R0, sin_term.
  rewrite !INR_IZR_INZ.
  change (Z.of_nat (fact (2 * 0 + 1))) with 1%Z.
  change (Z.of_nat (fact (2 * 1 + 1))) with 6%Z.
  change (Z.of_nat (fact (2 * 2 + 1))) with 120%Z.
  change (Z.of_nat (fact (2 * 3 + 1))) with 5040%Z.
  change (2 * 0 + 1)%nat with 1%nat.
  change (2 * 1 + 1)%nat with 3%nat.
  change (2 * 2 + 1)%nat with 5%nat.
  change (2 * 3 + 1)%nat with 7%nat.
  lra.
Qed.

(** C1. The phase inputs of the first sample are [z1 0 = 1] and [z2 0 = 0],
    but one period of 60 samples later they are [z1 60 < 0.997] and
    [z2 60 > 0.079]: the constant [1/(3*pi)] does not bring the phase back
    to its start (that would take [2*pi/60]). *)
Theorem phase_not_periodic :
  (z1 0 = 1 /\ z2 0 = 0 /\ z1 60 < 0.997 /\ 0.079 < z2 60)%R.
Proof.
  unfold z1, z2.
  replace (IZR 0 / (PI * 3.0))%R with 0%R
    by (unfold Rdiv; now rewrite Rmult_0_l).
  rewrite cos_0, sin_0. split; [reflexivity|]. split; [reflexivity|].
  destruct phase_angle_60 as (d & -> & Hd1 & Hd2).
  rewrite cos_period, sin_period.
  destruct PI_bounds as [Hlo Hhi].
  assert (Hs : (0.079 < sin d)%R).
  { apply Rlt_le_trans with (sin 0.08).
    - destruct (SIN 0.08 ltac:(lra) ltac:(lra)) as [Hlb _].
      eapply Rlt_le_trans; [exact sin_lb_008 | exact Hlb].
    - apply sin_incr_1; lra. }
  split; [|exact Hs].
  pose proof (sin2_cos2 d) as Hsc. unfold Rsqr in Hsc.
  nra.
Qed.

(** The colour [drawPixel] hands to [frame.Set] at a pixel, as a function of
    the pixel, the phase and the network. *)
(* ================================================================== *)
(** * Frames *)

Lemma NewPaletted_canvas (w h : Z) colors (st : image.store) :
  (0 <= w)%Z -> (0 <= h)%Z -> (w * h <= GoInt.maxInt)%Z ->
  (w <= GoInt.maxInt)%Z -> (h <= GoInt.maxInt)%Z ->
  image.NewPaletted (image.Rect 0 0 w h) colors st =
  Ok (length st, st ++ [canvas w h colors (replicate (Z.to_nat (w * h)) 0%Z)]).
Proof.
  intros Hw Hh Hwh Hw' Hh'.
  assert (Hmax : GoInt.maxInt = (2 ^ 63 - 1)%Z) by reflexivity.
  assert (Hmin : GoInt.minInt = (- 2 ^ 63)%Z) by reflexivity.
  unfold image.NewPaletted, image.Rect.
  destruct (Z.ltb_spec w 0); [lia|]. destruct (Z.ltb_spec h 0); [lia|].
  unfold image.Dx, image.Dy, GoInt.sub, GoInt.mul. cbn [image.X image.Y image.Min image.Max].
  rewrite !Z.sub_0_r, (wrap_id w), (wrap_id h) by (unfold GoInt.in_range; lia).
  rewrite Z.mul_1_l, (wrap_id w), (wrap_id (w * h)) by (unfold GoInt.in_range; nia).
  destruct (Z.ltb_spec (w * h) 0); [nia|].
  unfold canvas, image.Rect.
  destruct (Z.ltb_spec w 0); [lia|]. destruct (Z.ltb_spec h 0); [lia|].
  reflexivity.
Qed.

Lemma Set__canvas (w h : Z) colors pix (st : image.store) f x y c :
  (0 <= w)%Z -> (0 <= h)%Z -> (w * h <= GoInt.maxInt)%Z ->
  st !! f = Some (canvas w h colors pix) ->
  length pix = Z.to_nat (w * h) ->
  image.Set_ f x y c st =
  Ok (tt, <[f := canvas w h colors
                   (put w h pix (x, y) (uint8 (color.Index colors c)))]> st).
Proof.
  intros Hw Hh Hwh Hf Hlen.
  assert (Hmax : GoInt.maxInt = (2 ^ 63 - 1)%Z) by reflexivity.
  assert (Hmin : GoInt.minInt = (- 2 ^ 63)%Z) by reflexivity.
  unfold image.Set_. rewrite Hf.
  unfold canvas, image.In, image.Rect, image.PixOffset in *.
  destruct (Z.ltb_spec w 0); [lia|]. destruct (Z.ltb_spec h 0); [lia|].
  cbn [image.X image.Y image.Min image.Max image.Bounds image.Stride
       image.Pix image.Palette].
  unfold put.
  replace ((0 <=? x)%Z && (x <? w)%Z && (0 <=? y)%Z && (y <? h)%Z)
    with ((0 <=? x)%Z && (x <? w)%Z && ((0 <=? y)%Z && (y <? h)%Z))
    by (now rewrite andb_assoc).
  destruct (Z.leb_spec 0 x); cbn [andb negb];
    [|now rewrite list_insert_id].
  destruct (Z.ltb_spec x w); cbn [andb negb];
    [|now rewrite list_insert_id].
  destruct (Z.leb_spec 0 y); cbn [andb negb];
    [|now rewrite list_insert_id].
  destruct (Z.ltb_spec y h); cbn [andb negb];
    [|now rewrite list_insert_id].
  unfold GoInt.add, GoInt.sub, GoInt.mul.
  rewrite !Z.sub_0_r, Z.mul_1_r.
  rewrite !(wrap_id x), !(wrap_id y) by (unfold GoInt.in_range; nia).
  rewrite (wrap_id (y * w)) by (unfold GoInt.in_range; nia).
  rewrite (wrap_id (y * w + x)) by (unfold GoInt.in_range; nia).
  destruct (Z.leb_spec 0 (y * w + x)); [|nia].
  destruct (Z.ltb_spec (y * w + x) (Z.of_nat (length pix))); [|nia].
  reflexivity.
Qed.

Lemma put_length w h pix xy v : length (put w h pix xy v) = length pix.
Proof.
  unfold put. destruct xy as [x y].
  destruct (_ && _)%bool; [apply length_insert | reflexivity].
Qed.

(** The network takes the five features and yields the channels the mode
    of [cfg] reads. *)
Lemma slice_get_holds h s xs i :
  holds h s xs -> (i < length xs)%nat ->
  slice_get s i h = Ok (nth i xs 0%R, h).
Proof.
  intros (blk & Hb & Hlc & Hcb & <-) Hi.
  rewrite length_take in Hi.
  apply (slice_get_ok s i h blk); [exact Hb | | lia].
  rewrite <- (lookup_take_lt blk (len s) i) by lia.
  apply lookup_nth. rewrite length_take. lia.
Qed.

Lemma features_length cfg x y theta : length (features cfg x y theta) = 5%nat.
Proof. unfold features. now destruct (pattern cfg). Qed.

Lemma built_usable env cfg cppn :
  (0 <= size cfg)%Z -> built (fst (setup env cfg)) cppn -> usable cfg cppn.
Proof.
  intros Hs Hb. unfold usable.
  assert (Hp : NumInputs (fst (setup env cfg)) = 5%Z /\
               NumHiddenNeurons (fst (setup env cfg)) = size cfg /\
               NumOutputs (fst (setup env cfg)) = (if gray cfg then 1 else 3)%Z)
    by (unfold setup; destruct (gray cfg); simpl; auto).
  destruct Hp as (Hi & Hn & Ho).
  split; [destruct Hb as [-> _]; exact Hi|].
  split.
  - pose proof (built_chained _ cppn ltac:(rewrite Hi; lia) ltac:(rewrite Hn; lia)
                  ltac:(rewrite Ho; destruct (gray cfg); lia) Hb) as Hch.
    now rewrite Hi in Hch.
  - intros xs. destruct (built_last_sigmoid _ cppn xs Hb) as [_ ->].
    rewrite Ho. destruct (gray cfg); simpl; lia.
Qed.

(** [drawPixel] stores the palette index of [pixelColor] in the frame and
    leaves only new blocks behind in the float memory. *)
Lemma drawPixel_ok cfg cppn colors pix f x y theta (w : world) :
  usable cfg cppn -> nonempty (Layers cppn) ->
  (0 <= width cfg)%Z -> (0 <= height cfg)%Z ->
  (width cfg * height cfg <= GoInt.maxInt)%Z ->
  frames w !! f = Some (canvas (width cfg) (height cfg) colors pix) ->
  length pix = Z.to_nat (width cfg * height cfg) ->
  exists h',
    drawPixel cfg cppn f x y theta w =
    Ok (tt, mkWorld h'
              (<[f := canvas (width cfg) (height cfg) colors
                        (put (width cfg) (height cfg) pix (x, y)
                             (uint8 (color.Index colors
                                       (pixelColor cfg cppn x y theta))))]>
                 (frames w))).
Proof.
  intros (Hin & Hch & Hout) Hne Hw Hh Hwh Hf Hlen.
  unfold drawPixel.
  set (feats := features cfg x y theta).
  set (h := floats w).
  set (inputs := mkSlice (length h) (length feats) (length feats)).
  assert (Hfl : length feats = 5%nat) by apply features_length.
  assert (E1 : onFloats (literal feats) w = Ok (inputs, mkWorld (h ++ [feats]) (frames w)))
    by reflexivity.
  rewrite (bind_ok _ _ _ _ _ E1). clear E1.
  assert (Hh1 : holds (h ++ [feats]) inputs feats).
  { exists feats. unfold inputs. simpl. split; [apply lookup_last|].
    repeat split; try lia. now rewrite take_ge. }
  destruct (FeedForward_ok cppn inputs (h ++ [feats]) feats Hh1
              ltac:(unfold inputs; simpl; rewrite Hfl, Hin; reflexivity)
              ltac:(unfold inputs; simpl; now rewrite Hfl) Hne)
    as (out & h2 & Eff & Hh2 & _).
  assert (E2 : onFloats (FeedForward cppn inputs) (mkWorld (h ++ [feats]) (frames w)) =
               Ok (out, mkWorld h2 (frames w)))
    by (unfold onFloats; simpl; now rewrite Eff).
  rewrite (bind_ok _ _ _ _ _ E2). clear E2.
  specialize (Hout feats).
  set (ys := feed_spec (Layers cppn) feats) in *.
  exists h2. unfold set, pixelColor. fold feats. fold ys.
  destruct (gray cfg).
  - assert (G0 : onFloats (slice_get out 0) (mkWorld h2 (frames w)) =
                 Ok (nth 0 ys 0%R, mkWorld h2 (frames w)))
      by (unfold onFloats; simpl; now rewrite (slice_get_holds h2 out ys 0 Hh2 ltac:(lia))).
    rewrite (bind_ok _ _ _ _ _ G0).
    unfold onFrames. simpl.
    now rewrite (Set__canvas _ _ colors pix _ f x y _ Hw Hh Hwh Hf Hlen).
  - assert (G : forall i, (i < 3)%nat ->
                 onFloats (slice_get out i) (mkWorld h2 (frames w)) =
                 Ok (nth i ys 0%R, mkWorld h2 (frames w))).
    { intros i Hi. unfold onFloats. simpl.
      now rewrite (slice_get_holds h2 out ys i Hh2 ltac:(lia)). }
    rewrite (bind_ok _ _ _ _ _ (G 0%nat ltac:(lia))).
    rewrite (bind_ok _ _ _ _ _ (G 1%nat ltac:(lia))).
    rewrite (bind_ok _ _ _ _ _ (G 2%nat ltac:(lia))).
    unfold onFrames. simpl.
    now rewrite (Set__canvas _ _ colors pix _ f x y _ Hw Hh Hwh Hf Hlen).
Qed.

(** Drawing a sequence of pixels paints them in that order. *)
Lemma drawAll_ok cfg cppn colors f theta order :
  usable cfg cppn -> nonempty (Layers cppn) ->
  (0 <= width cfg)%Z -> (0 <= height cfg)%Z ->
  (width cfg * height cfg <= GoInt.maxInt)%Z ->
  forall pix (w : world),
    frames w !! f = Some (canvas (width cfg) (height cfg) colors pix) ->
    length pix = Z.to_nat (width cfg * height cfg) ->
    exists h',
      drawAll cfg cppn f theta order w =
      Ok (tt, mkWorld h'
                (<[f := canvas (width cfg) (height cfg) colors
                          (paint cfg cppn colors theta pix order)]> (frames w))).
Proof.
  intros Hu Hne Hw Hh Hwh. unfold drawAll.
  induction order as [|[x y] order IH]; intros pix w Hf Hlen.
  - exists (floats w). simpl. unfold ret. rewrite list_insert_id by exact Hf.
    now destruct w.
  - destruct (drawPixel_ok cfg cppn colors pix f x y theta w Hu Hne Hw Hh Hwh Hf Hlen)
      as (h1 & E1).
    cbn [forM_ fst snd]. rewrite (bind_ok _ _ _ _ _ E1).
    assert (Hf' : (f < length (frames w))%nat) by (eapply lookup_lt_Some; eauto).
    set (pix1 := put (width cfg) (height cfg) pix (x, y)
                   (uint8 (color.Index colors (pixelColor cfg cppn x y theta)))) in *.
    set (w1 := mkWorld h1 (<[f := canvas (width cfg) (height cfg) colors pix1]> (frames w))) in *.
    destruct (IH pix1 w1) as (h2 & E2).
    + simpl. now apply list_lookup_insert_eq.
    + unfold pix1. now rewrite put_length.
    + exists h2. rewrite E2. simpl. now rewrite list_insert_insert_eq.
Qed.

(* ================================================================== *)
(** * The order of drawing does not matter *)

Section Paint.
Variables (w h : Z) (val : Z * Z -> Z).

Lemma put_inside pix xy v :
  put w h pix xy v = if inside w h xy then <[offset w xy := v]> pix else pix.
Proof. destruct xy as [x y]. reflexivity. Qed.

Lemma inside_spec xy :
  inside w h xy = true <-> (0 <= fst xy < w /\ 0 <= snd xy < h)%Z.
Proof. unfold inside. rewrite !andb_true_iff. lia. Qed.

Lemma offset_inj p q :
  inside w h p = true -> inside w h q = true -> offset w p = offset w q -> p = q.
Proof.
  rewrite !inside_spec. unfold offset.
  destruct p as [x y], q as [x' y']. simpl. intros Hp Hq E.
  assert (E' : (y * w + x = y' * w + x')%Z) by nia.
  assert (y = y') by nia. subst y'. f_equal. lia.
Qed.

Lemma paintWith_length order : forall pix, length (paintWith w h val pix order) = length pix.
Proof.
  unfold paintWith. induction order as [|xy order IH]; intros pix; simpl.
  - reflexivity.
  - now rewrite IH, put_length.
Qed.

Lemma paintWith_miss order j :
  forall pix,
    (forall p, p ∈ order -> inside w h p = true -> offset w p <> j) ->
    paintWith w h val pix order !! j = pix !! j.
Proof.
  unfold paintWith. induction order as [|q order IH]; intros pix Hmiss; simpl.
  - reflexivity.
  - rewrite IH by (intros p Hp; apply Hmiss; now right).
    rewrite put_inside. destruct (inside w h q) eqn:Eq; [|reflexivity].
    apply list_lookup_insert_ne. apply Hmiss; [now left | exact Eq].
Qed.

Lemma paintWith_hit order p :
  forall pix,
    p ∈ order -> inside w h p = true -> (offset w p < length pix)%nat ->
    paintWith w h val pix order !! offset w p = Some (val p).
Proof.
  induction order as [|q order IH]; intros pix Hin Hp Hlt.
  - now apply elem_of_nil in Hin.
  - change (paintWith w h val pix (q :: order)) with (paintWith w h val (put w h pix q (val q)) order).
    destruct (decide (p ∈ order)) as [Hrest|Hrest].
    + apply IH; [exact Hrest | exact Hp | now rewrite put_length].
    + apply elem_of_cons in Hin as [->|Hin]; [|contradiction].
      rewrite paintWith_miss.
      * rewrite put_inside, Hp. now apply list_lookup_insert_eq.
      * intros r Hr Hri E. apply Hrest.
        now rewrite <- (offset_inj r q Hri Hp E).
Qed.

(** Two sequences that visit the same pixels leave the same buffer. *)
Lemma paintWith_members pix o1 o2 :
  (forall p, p ∈ o1 <-> p ∈ o2) -> paintWith w h val pix o1 = paintWith w h val pix o2.
Proof.
  intros Hsame. apply list_eq. intros j.
  destruct (decide (j < length pix)%nat) as [Hj|Hj].
  - destruct (decide (Exists (fun p => inside w h p = true /\ offset w p = j) o1))
      as [Hex|Hno].
    + apply Exists_exists in Hex as (p & Hp1 & Hpi & <-).
      rewrite !paintWith_hit; auto. now apply Hsame.
    + rewrite !paintWith_miss; auto.
      * intros p Hp Hpi E. apply Hno, Exists_exists. exists p.
        split; [now apply Hsame | auto].
      * intros p Hp Hpi E. apply Hno, Exists_exists. exists p. auto.
  - rewrite !lookup_ge_None_2; auto; rewrite paintWith_length; lia.
Qed.

End Paint.

Lemma paint_paintWith cfg cppn colors theta pix order :
  paint cfg cppn colors theta pix order =
  paintWith (width cfg) (height cfg)
            (fun xy => uint8 (color.Index colors
                                (pixelColor cfg cppn (fst xy) (snd xy) theta)))
            pix order.
Proof. reflexivity. Qed.

(* ------------------------------------------------------------------ *)
(** ** Which pixels a schedule visits *)

Lemma elem_of_range a b x : x ∈ range a b <-> (a <= x < b)%Z.
Proof.
  unfold range. rewrite list_elem_of_fmap. split.
  - intros (i & -> & Hi%elem_of_seq). lia.
  - intros Hx. exists (Z.to_nat (x - a)). split; [lia|].
    apply elem_of_seq. lia.
Qed.

Lemma elem_of_pixels x0 x1 y0 y1 x y :
  (x, y) ∈ pixels x0 x1 y0 y1 <-> (x0 <= x < x1 /\ y0 <= y < y1)%Z.
Proof.
  unfold pixels. rewrite list_elem_of_In, in_flat_map. split.
  - intros (y' & Hy%list_elem_of_In%elem_of_range & Hx%list_elem_of_In%list_elem_of_fmap).
    destruct Hx as (x' & [= -> ->] & Hx%elem_of_range). lia.
  - intros [Hx Hy]. exists y. split.
    + apply list_elem_of_In, elem_of_range. lia.
    + apply list_elem_of_In, list_elem_of_fmap. exists x. split; [reflexivity|].
      apply elem_of_range. lia.
Qed.

Lemma elem_of_schedule {A} (picks : list nat) :
  forall (tasks : list (list A)) (a : A),
    a ∈ schedule tasks picks <-> exists t, t ∈ tasks /\ a ∈ t.
Proof.
  induction picks as [|i picks IH]; intros tasks a; simpl.
  - rewrite list_elem_of_In, in_concat.
    split; intros (t & H1 & H2); exists t; rewrite ?list_elem_of_In in *; auto.
  - destruct (tasks !! i) as [[|b t]|] eqn:Ei; [apply IH | | apply IH].
    rewrite elem_of_cons, IH. split.
    + intros [-> | (t' & Ht' & Ha)].
      * exists (b :: t). split; [eapply list_elem_of_lookup_2; eauto | now left].
      * apply list_elem_of_lookup in Ht' as (k & Hk).
        destruct (decide (i = k)) as [<-|Hne].
        -- rewrite list_lookup_insert_eq in Hk by (eapply lookup_lt_Some; eauto).
           injection Hk as <-. exists (b :: t).
           split; [eapply list_elem_of_lookup_2; eauto | now right].
        -- rewrite list_lookup_insert_ne in Hk by exact Hne.
           exists t'. split; [eapply list_elem_of_lookup_2; eauto | exact Ha].
    + intros (t' & Ht' & Ha).
      apply list_elem_of_lookup in Ht' as (k & Hk).
      destruct (decide (i = k)) as [<-|Hne].
      * rewrite Ei in Hk. injection Hk as <-.
        apply elem_of_cons in Ha as [-> | Ha]; [now left|].
        right. exists t. split; [|exact Ha].
        eapply list_elem_of_lookup_2.
        apply list_lookup_insert_eq. eapply lookup_lt_Some; eauto.
      * right. exists t'. split; [|exact Ha].
        eapply list_elem_of_lookup_2. rewrite list_lookup_insert_ne; eauto.
Qed.

(** A schedule runs every step of every task exactly once. *)
Lemma schedule_permutation {A} (picks : list nat) :
  forall tasks : list (list A), schedule tasks picks ≡ₚ concat tasks.
Proof.
  induction picks as [|i picks IH]; intros tasks; simpl.
  - reflexivity.
  - destruct (tasks !! i) as [[|a t]|] eqn:Ei; [apply IH | | apply IH].
    rewrite IH.
    rewrite (insert_take_drop tasks i t) by (eapply lookup_lt_Some; eauto).
    rewrite <- (take_drop_middle tasks i (a :: t) Ei) at 3.
    rewrite !concat_app. simpl.
    now rewrite Permutation_middle.
Qed.

Lemma quadrants_cover cfg x y :
  (0 <= width cfg <= GoInt.maxInt)%Z -> (0 <= height cfg <= GoInt.maxInt)%Z ->
  (exists t, t ∈ quadrants cfg /\ (x, y) ∈ t) <->
  (x, y) ∈ pixels 0 (width cfg) 0 (height cfg).
Proof.
  intros Hw Hh.
  assert (Hmax : GoInt.maxInt = (2 ^ 63 - 1)%Z) by reflexivity.
  assert (Hmin : GoInt.minInt = (- 2 ^ 63)%Z) by reflexivity.
  unfold quadrants, GoInt.quot.
  pose proof (Z.quot_pos (width cfg) 2 ltac:(lia) ltac:(lia)).
  pose proof (Z.quot_pos (height cfg) 2 ltac:(lia) ltac:(lia)).
  pose proof (Z.quot_le_upper_bound (width cfg) 2 (width cfg) ltac:(lia) ltac:(lia)).
  pose proof (Z.quot_le_upper_bound (height cfg) 2 (height cfg) ltac:(lia) ltac:(lia)).
  rewrite !wrap_id by (unfold GoInt.in_range; lia).
  set (mx := Z.quot (width cfg) 2) in *. set (my := Z.quot (height cfg) 2) in *.
  rewrite elem_of_pixels. split.
  - intros (t & Ht & Hp).
    repeat (apply elem_of_cons in Ht as [-> | Ht];
            [apply elem_of_pixels in Hp; lia|]).
    now apply elem_of_nil in Ht.
  - intros [Hx Hy].
    destruct (Z_lt_le_dec x mx), (Z_lt_le_dec y my).
    + eexists. split; [apply list_elem_of_here|]. apply elem_of_pixels. lia.
    + eexists. split; [do 2 apply list_elem_of_further; apply list_elem_of_here|].
      apply elem_of_pixels. lia.
    + eexists. split; [apply list_elem_of_further, list_elem_of_here|].
      apply elem_of_pixels. lia.
    + eexists. split; [do 3 apply list_elem_of_further; apply list_elem_of_here|].
      apply elem_of_pixels. lia.
Qed.

(** A frame drawn by visiting the pixels of [order], whatever partition and
    interleaving produced that order. *)
Lemma drawable_bounds cfg :
  drawable cfg ->
  (0 <= width cfg <= GoInt.maxInt /\ 0 <= height cfg <= GoInt.maxInt)%Z.
Proof. unfold drawable. intros (? & ? & ?). split; split; nia. Qed.

Lemma renderIn_ok cfg cppn colors order theta (w : world) :
  usable cfg cppn -> nonempty (Layers cppn) -> drawable cfg ->
  (forall p, p ∈ order <-> p ∈ pixels 0 (width cfg) 0 (height cfg)) ->
  exists h',
    renderIn cfg cppn colors order theta w =
    Ok (length (frames w),
        mkWorld h' (frames w ++ [rendered cfg cppn colors theta])).
Proof.
  intros Hu Hne Hd Hsame. pose proof (drawable_bounds cfg Hd) as [Hw Hh].
  destruct Hd as (Hw0 & Hh0 & Hwh).
  unfold renderIn.
  set (blank := replicate (Z.to_nat (width cfg * height cfg)) 0%Z).
  assert (E1 : onFrames (image.NewPaletted
                           (image.Rect 0 0 (width cfg) (height cfg)) colors) w =
               Ok (length (frames w),
                   mkWorld (floats w)
                           (frames w ++ [canvas (width cfg) (height cfg) colors blank]))).
  { unfold onFrames.
    now rewrite (NewPaletted_canvas _ _ colors (frames w)) by lia. }
  rewrite (bind_ok _ _ _ _ _ E1). clear E1.
  destruct (drawAll_ok cfg cppn colors (length (frames w)) theta order Hu Hne
              ltac:(lia) ltac:(lia) Hwh blank
              (mkWorld (floats w)
                       (frames w ++ [canvas (width cfg) (height cfg) colors blank])))
    as (h' & E2).
  { simpl. apply list_lookup_middle. reflexivity. }
  { unfold blank. now rewrite length_replicate. }
  exists h'. rewrite (bind_ok _ _ _ _ _ E2). unfold ret. simpl.
  do 3 f_equal.
  replace (length (frames w)) with (length (frames w) + 0)%nat at 1 by lia.
  rewrite insert_app_r. simpl. do 2 f_equal. unfold rendered. f_equal.
  rewrite !paint_paintWith. now apply paintWith_members.
Qed.

Lemma renderFrame_renderIn cfg cppn colors picks theta :
  renderFrame cfg cppn colors picks theta =
  renderIn cfg cppn colors (schedule (quadrants cfg) picks) theta.
Proof. unfold renderFrame, renderIn. reflexivity. Qed.

Lemma renderFrame1_renderIn cfg cppn colors theta :
  renderFrame1 cfg cppn colors theta =
  renderIn cfg cppn colors (pixels 0 (width cfg) 0 (height cfg)) theta.
Proof. unfold renderFrame1, renderIn, drawPart. reflexivity. Qed.

Lemma renderFrame_ok cfg cppn colors picks theta (w : world) :
  usable cfg cppn -> nonempty (Layers cppn) -> drawable cfg ->
  exists h',
    renderFrame cfg cppn colors picks theta w =
    Ok (length (frames w),
        mkWorld h' (frames w ++ [rendered cfg cppn colors theta])).
Proof.
  intros Hu Hne Hd. pose proof (drawable_bounds cfg Hd) as [Hw Hh].
  rewrite renderFrame_renderIn.
  apply (renderIn_ok cfg cppn colors (schedule (quadrants cfg) picks)); auto.
  intros [x y]. rewrite elem_of_schedule. now apply quadrants_cover.
Qed.

Lemma rendered_pixel cfg cppn colors theta x y :
  drawable cfg ->
  (0 <= x < width cfg)%Z -> (0 <= y < height cfg)%Z ->
  image.Pix (rendered cfg cppn colors theta) !! Z.to_nat (y * width cfg + x) =
  Some (uint8 (color.Index colors (pixelColor cfg cppn x y theta))).
Proof.
  intros (Hw0 & Hh0 & Hwh) Hx Hy. unfold rendered, canvas. simpl.
  rewrite paint_paintWith.
  set (val := fun xy : Z * Z =>
                uint8 (color.Index colors (pixelColor cfg cppn (fst xy) (snd xy) theta))).
  change (Z.to_nat (y * width cfg + x)) with (offset (width cfg) (x, y)).
  change (uint8 (color.Index colors (pixelColor cfg cppn x y theta)))
    with (val (x, y)).
  apply (paintWith_hit (width cfg) (height cfg) val _ (x, y)).
  - apply elem_of_pixels. lia.
  - apply inside_spec. simpl. lia.
  - rewrite length_replicate. unfold offset. simpl. nia.
Qed.

Lemma setup_built env cfg g cppn g' :
  valid (fst (setup env cfg)) -> representable (fst (setup env cfg)) ->
  NewCPPN (fst (setup env cfg)) g = Ok (cppn, g') ->
  usable cfg cppn.
Proof.
  intros Hv Hr E.
  apply (built_usable env).
  - destruct Hv as (_ & _ & Hn & _). unfold setup in Hn.
    destruct (gray cfg); simpl in Hn; lia.
  - eapply NewCPPN_inv; eauto. now apply valid_constructible.
Qed.

Lemma setup_nonempty env cfg g cppn g' :
  valid (fst (setup env cfg)) -> representable (fst (setup env cfg)) ->
  NewCPPN (fst (setup env cfg)) g = Ok (cppn, g') ->
  nonempty (Layers cppn).
Proof.
  intros Hv Hr E. pose proof Hv as (_ & _ & Hn & Ho).
  apply (built_nonempty (fst (setup env cfg)) cppn Hn Ho).
  eapply NewCPPN_inv; eauto. now apply valid_constructible.
Qed.

(* ================================================================== *)
(** * C2 *)

(** C2. For a network built from the configuration of the run and a frame
    of positive size, the frame drawn by the four goroutines under any
    choices of the scheduler is the frame drawn by a single pass of
    [drawPart] over the whole grid, and the same frame results from any
    sequence that visits exactly the pixels of the grid: each pixel holds
    the palette index of [pixelColor], a function of the pixel, the phase
    and the weights. *)
Theorem partition_invariance (env : Env) (cfg : Config) (g g' : rng) (cppn : CPPN)
    (picks : list nat) (theta : Z) (w : world) :
  valid (fst (setup env cfg)) -> representable (fst (setup env cfg)) ->
  NewCPPN (fst (setup env cfg)) g = Ok (cppn, g') ->
  drawable cfg ->
  let colors := snd (setup env cfg) in
  exists f fr wq ws,
    renderFrame cfg cppn colors picks theta w = Ok (f, wq) /\
    renderFrame1 cfg cppn colors theta w = Ok (f, ws) /\
    frames wq !! f = Some fr /\ frames ws !! f = Some fr /\
    (forall x y, (0 <= x < width cfg)%Z -> (0 <= y < height cfg)%Z ->
       image.Pix fr !! Z.to_nat (y * width cfg + x) =
       Some (uint8 (color.Index colors (pixelColor cfg cppn x y theta)))) /\
    (forall order,
       (forall p, p ∈ order <-> p ∈ pixels 0 (width cfg) 0 (height cfg)) ->
       exists wo,
         renderIn cfg cppn colors order theta w = Ok (f, wo) /\
         frames wo !! f = Some fr).
Proof.
  intros Hv Hr E Hd colors.
  pose proof (setup_built env cfg g cppn g' Hv Hr E) as Hu.
  pose proof (setup_nonempty env cfg g cppn g' Hv Hr E) as Hne.
  destruct (renderFrame_ok cfg cppn colors picks theta w Hu Hne Hd) as (hq & Eq).
  destruct (renderIn_ok cfg cppn colors (pixels 0 (width cfg) 0 (height cfg))
              theta w Hu Hne Hd ltac:(tauto)) as (hs & Es).
  exists (length (frames w)), (rendered cfg cppn colors theta),
         (mkWorld hq (frames w ++ [rendered cfg cppn colors theta])),
         (mkWorld hs (frames w ++ [rendered cfg cppn colors theta])).
  split; [exact Eq|]. split; [rewrite renderFrame1_renderIn; exact Es|].
  cbn [frames]. split; [apply list_lookup_middle; reflexivity|].
  split; [apply list_lookup_middle; reflexivity|].
  split.
  - intros x y Hx Hy. now apply rendered_pixel.
  - intros order Hsame.
    destruct (renderIn_ok cfg cppn colors order theta w Hu Hne Hd Hsame) as (ho & Eo).
    eexists. split; [exact Eo|]. simpl. apply list_lookup_middle. reflexivity.
Qed.

(* ================================================================== *)
(** * C8 *)

Lemma range_length a b : length (range a b) = Z.to_nat (b - a).
Proof. unfold range. now rewrite length_map, length_seq. Qed.

Lemma range_split a n b :
  (a <= n <= b)%Z -> range a b = range a n ++ range n b.
Proof.
  intros H. unfold range.
  replace (Z.to_nat (b - a)) with (Z.to_nat (n - a) + Z.to_nat (b - n))%nat by lia.
  rewrite seq_app, map_app. f_equal.
  replace (seq (0 + Z.to_nat (n - a)) (Z.to_nat (b - n)))
    with (map (Nat.add (Z.to_nat (n - a))) (seq 0 (Z.to_nat (b - n))))
    by (rewrite (fmap_add_seq (Z.to_nat (n - a)) 0); f_equal; lia).
  rewrite map_map. apply map_ext_in. intros i _. lia.
Qed.

Lemma assemble_ok cfg cppn colors picks :
  usable cfg cppn -> nonempty (Layers cppn) -> drawable cfg ->
  forall thetas img (w : world),
    exists h',
      assemble cfg cppn colors picks thetas img w =
      Ok (mkGIF (Image img ++ seq (length (frames w)) (length thetas))
                (Delay img ++ replicate (length thetas) 0%Z),
          mkWorld h' (frames w ++ map (rendered cfg cppn colors) thetas)).
Proof.
  intros Hu Hne Hd. unfold assemble.
  induction thetas as [|theta thetas IH]; intros img w.
  - exists (floats w). simpl. unfold ret. rewrite !app_nil_r. now destruct img, w.
  - destruct (renderFrame_ok cfg cppn colors (picks theta) theta w Hu Hne Hd)
      as (h1 & E1).
    cbn [foldM]. unfold bind at 1. unfold bind at 1. rewrite E1. unfold ret at 1.
    destruct (IH (mkGIF (Image img ++ [length (frames w)]) (Delay img ++ [0%Z]))
                 (mkWorld h1 (frames w ++ [rendered cfg cppn colors theta])))
      as (h2 & E2).
    exists h2. rewrite E2. cbn [Image Delay frames length map replicate seq].
    rewrite length_app. cbn [length].
    rewrite <- !app_assoc. cbn [app].
    now replace (length (frames w) + 1)%nat with (S (length (frames w))) by lia.
Qed.

Lemma assemble_app cfg cppn colors picks t1 t2 img (w : world) :
  assemble cfg cppn colors picks (t1 ++ t2) img w =
  (img' <- assemble cfg cppn colors picks t1 img ;;
   assemble cfg cppn colors picks t2 img') w.
Proof. unfold assemble. apply foldM_app. Qed.

(** C8. For a valid configuration and a frame of positive size, [main]
    hands over an animation of exactly 60 frames and 60 zero delays; the
    frames are, in order, those of the phase samples 0, 1, ..., 59.  After
    any number [n] of samples the animation holds the first [n] frames and
    [n] zeros, the rest of the run starts from there, and the frames
    appended so far are in memory what they are at the end. *)
Theorem animation_assembled (env : Env) (cfg : Config) (picks : Z -> list nat) :
  valid (fst (setup env cfg)) -> representable (fst (setup env cfg)) ->
  drawable cfg ->
  let colors := snd (setup env cfg) in
  let start := mkWorld [] [] in
  exists cppn g' img w,
    NewCPPN (fst (setup env cfg)) (mkRng (deviates env (seed cfg)) 0) = Ok (cppn, g') /\
    main env cfg picks start = Ok (img, w) /\
    Image img = seq 0 60 /\
    Delay img = replicate 60 0%Z /\
    frames w = map (rendered cfg cppn colors) (range 0 60) /\
    forall n, (0 <= n <= 60)%Z ->
      exists img_n w_n,
        assemble cfg cppn colors picks (range 0 n) (mkGIF [] []) start = Ok (img_n, w_n) /\
        assemble cfg cppn colors picks (range n 60) img_n w_n = Ok (img, w) /\
        Image img_n = seq 0 (Z.to_nat n) /\
        Delay img_n = replicate (Z.to_nat n) 0%Z /\
        frames w_n = map (rendered cfg cppn colors) (range 0 n) /\
        forall k, (k < Z.to_nat n)%nat -> frames w_n !! k = frames w !! k.
Proof.
  intros Hv Hr Hd colors start.
  destruct (NewCPPN_built _ (mkRng (deviates env (seed cfg)) 0)
              (valid_constructible _ Hv Hr)) as (cppn & g' & E & Hb).
  pose proof (setup_built env cfg _ cppn g' Hv Hr E) as Hu.
  pose proof (setup_nonempty env cfg _ cppn g' Hv Hr E) as Hne.
  destruct (assemble_ok cfg cppn colors picks Hu Hne Hd (range 0 60) (mkGIF [] []) start)
    as (h60 & E60).
  exists cppn, g'. eexists _, _. split; [exact E|].
  split.
  { unfold main. subst colors. destruct (setup env cfg) as [param cs]. simpl in *.
    rewrite E. exact E60. }
  cbn [Image Delay frames start app length].
  split; [reflexivity|]. split; [reflexivity|]. split; [reflexivity|].
  intros n Hn.
  destruct (assemble_ok cfg cppn colors picks Hu Hne Hd (range 0 n) (mkGIF [] []) start)
    as (hn & En).
  eexists _, _. split; [exact En|].
  split.
  { assert (Es : assemble cfg cppn colors picks (range 0 60) (mkGIF [] []) start =
                 (img' <- assemble cfg cppn colors picks (range 0 n) (mkGIF [] []) ;;
                  assemble cfg cppn colors picks (range n 60) img') start).
    { rewrite <- assemble_app. now rewrite <- (range_split 0 n 60 Hn). }
    rewrite Es, (bind_ok _ _ _ _ _ En) in E60. exact E60. }
  cbn [Image Delay frames start app length]. rewrite range_length, Z.sub_0_r.
  split; [reflexivity|]. split; [reflexivity|]. split; [reflexivity|].
  intros k Hk.
  change (map (rendered cfg cppn colors) (range 0 n) !! k =
          map (rendered cfg cppn colors) (range 0 60) !! k).
  rewrite (range_split 0 n 60 Hn), map_app.
  rewrite lookup_app_l by (rewrite length_map, range_length; lia).
  reflexivity.
Qed.

Lemma partition_invariance_witness :
  let env := mkEnv [] (fun _ _ => 0%R) in
  let cfg := mkConfig 2 2 0.07 1.0 0 1 2 false 1.0 true in
  let g := mkRng (deviates env (seed cfg)) 0 in
  let colors := snd (setup env cfg) in
  let w := mkWorld [] [] in
  let picks := [3; 0; 2; 1]%nat in
  valid (fst (setup env cfg)) /\ representable (fst (setup env cfg)) /\
  drawable cfg /\
  exists cppn g',
    NewCPPN (fst (setup env cfg)) g = Ok (cppn, g') /\
    exists f fr wq ws,
      renderFrame cfg cppn colors picks 7 w = Ok (f, wq) /\
      renderFrame1 cfg cppn colors 7 w = Ok (f, ws) /\
      frames wq !! f = Some fr /\ frames ws !! f = Some fr.
Proof.
  intros env cfg g colors w picks.
  assert (Hv : valid (fst (setup env cfg))) by (vm_compute; repeat split; reflexivity).
  assert (Hr : representable (fst (setup env cfg)))
    by (vm_compute; repeat split; intros ?; discriminate).
  assert (Hd : drawable cfg)
    by (vm_compute; repeat split; try reflexivity; intros ?; discriminate).
  split; [exact Hv|]. split; [exact Hr|]. split; [exact Hd|].
  eexists _, _. split; [run|].
  edestruct (partition_invariance env cfg g _ _ picks 7 w Hv Hr ltac:(run) Hd)
    as (f & fr & wq & ws & H1 & H2 & H3 & H4 & _).
  exists f, fr, wq, ws. auto.
Defined.

Lemma animation_assembled_witness :
  let env := mkEnv [] (fun _ _ => 0%R) in
  let cfg := mkConfig 2 2 0.07 1.0 0 1 2 true 1.0 false in
  let picks := fun theta : Z => [Z.to_nat theta; 1; 2]%nat in
  valid (fst (setup env cfg)) /\ representable (fst (setup env cfg)) /\
  drawable cfg /\
  exists img w,
    main env cfg picks (mkWorld [] []) = Ok (img, w) /\
    Image img = seq 0 60 /\ Delay img = replicate 60 0%Z /\
    length (frames w) = 60%nat.
Proof.
  intros env cfg picks.
  assert (Hv : valid (fst (setup env cfg))) by (vm_compute; repeat split; reflexivity).
  assert (Hr : representable (fst (setup env cfg)))
    by (vm_compute; repeat split; intros ?; discriminate).
  assert (Hd : drawable cfg)
    by (vm_compute; repeat split; try reflexivity; intros ?; discriminate).
  split; [exact Hv|]. split; [exact Hr|]. split; [exact Hd|].
  destruct (animation_assembled env cfg picks Hv Hr Hd)
    as (cppn & g' & img & w & _ & Em & Hi & Hdl & Hf & _).
  exists img, w.
  split; [exact Em|]. split; [exact Hi|]. split; [exact Hdl|].
  rewrite Hf, length_map, range_length. reflexivity.
Defined.

(* ================================================================== *)
(** * C9 *)

Lemma In_grayColors (v : Z) :
  color.Gray v ∈ grayColors <-> (0 <= v <= 254)%Z.
Proof.
  unfold grayColors. rewrite list_elem_of_fmap. split.
  - intros (i & [= ->] & Hi%elem_of_range). unfold uint8.
    rewrite Z.mod_small; lia.
  - intros Hv. exists v. split.
    + unfold uint8. rewrite Z.mod_small; [reflexivity | lia].
    + apply elem_of_range. lia.
Qed.

(** C9. The gray palette built by [main] has 255 entries, the gray levels 0
    to 254: the level 255 has no entry, and [Palette.Index] maps
    [Gray{255}] to the entry of level 254. *)
Theorem grayColors_lacks_255 :
  length grayColors = 255%nat /\
  (forall v, color.Gray v ∈ grayColors <-> (0 <= v <= 254)%Z) /\
  ~ color.Gray 255 ∈ grayColors /\
  color.Index grayColors (color.Gray 255) = 254%Z /\
  grayColors !! 254%nat = Some (color.Gray 254).
Proof.
  split; [reflexivity|]. split; [exact In_grayColors|].
  split; [rewrite In_grayColors; lia|].
  split; vm_compute; reflexivity.
Qed.

(* ================================================================== *)
(** * Further properties of the engine *)

(* ------------------------------------------------------------------ *)
(** ** The weights and the generator *)

Lemma drawn_S g k n : drawn g k (S n) = (draws g k * 0.5)%R :: drawn g (S k) n.
Proof.
  unfold drawn. simpl. rewrite Nat.add_0_r. f_equal.
  rewrite <- seq_shift, map_map. apply map_ext. intros i. do 2 f_equal. lia.
Qed.

Lemma drawn_app g k n m : drawn g k (n + m) = drawn g k n ++ drawn g (k + n) m.
Proof.
  revert k. induction n as [|n IH]; intros k.
  - simpl. now rewrite Nat.add_0_r.
  - change (S n + m)%nat with (S (n + m)). rewrite !drawn_S, IH. simpl.
    do 3 f_equal. lia.
Qed.

Lemma draw_loop (n : nat) :
  forall g, replicateM n (x <- NormFloat64 ;; ret (x * 0.5)%R) g =
            Ok (drawn g (pos g) n, mkRng (draws g) (pos g + n)).
Proof.
  induction n as [|n IH]; intros g.
  - simpl. unfold ret, drawn. simpl. now rewrite Nat.add_0_r; destruct g.
  - cbn [replicateM]. unfold bind at 1. unfold bind at 1. unfold NormFloat64 at 1.
    unfold ret at 1. unfold bind. rewrite IH. unfold ret. simpl.
    rewrite drawn_S. do 3 f_equal. lia.
Qed.

Lemma NewLayer_ok r c act g :
  (0 <= r * c <= GoInt.maxInt)%Z ->
  NewLayer r c act g =
  Ok (mkLayer (mat64.mkDense r c (drawn g (pos g) (Z.to_nat (r * c)))) act,
      mkRng (draws g) (pos g + Z.to_nat (r * c))).
Proof.
  intros Hr.
  assert (Hin : GoInt.in_range (r * c))
    by (unfold GoInt.in_range, GoInt.minInt, GoInt.maxInt in *; lia).
  unfold NewLayer, GoInt.mul. rewrite (wrap_id _ Hin).
  destruct (Z.ltb_spec (r * c) 0); [lia|].
  rewrite (bind_ok _ _ _ _ _ (draw_loop _ g)).
  unfold mat64.NewDense, GoInt.mul. rewrite (wrap_id _ Hin).
  unfold drawn at 1. rewrite length_map, length_seq, Z2Nat.id by lia.
  rewrite Z.eqb_refl. reflexivity.
Qed.

Lemma middle_loop r c act (k : nat) :
  (0 <= r * c <= GoInt.maxInt)%Z ->
  forall g, exists ls,
    replicateM k (NewLayer r c act) g =
      Ok (ls, mkRng (draws g) (pos g + k * Z.to_nat (r * c))) /\
    concat (map (fun l => mat64.DData (Weights l)) ls) =
      drawn g (pos g) (k * Z.to_nat (r * c)).
Proof.
  intros Hr. induction k as [|k IH]; intros g.
  - exists []. simpl. unfold ret. rewrite Nat.add_0_r. now destruct g.
  - destruct (IH (mkRng (draws g) (pos g + Z.to_nat (r * c)))) as (ls & E & Hc).
    eexists (_ :: ls). cbn [replicateM].
    rewrite (bind_ok _ _ _ _ _ (NewLayer_ok r c act g Hr)).
    rewrite (bind_ok _ _ _ _ _ E). unfold ret. simpl. split.
    + do 3 f_equal. lia.
    + rewrite Hc. simpl. now rewrite drawn_app.
Qed.

Lemma parameters_length_eq p g :
  constructible p ->
  let n1 := Z.to_nat ((NumInputs p + 1) * NumHiddenNeurons p) in
  let n2 := Z.to_nat ((NumHiddenNeurons p + 1) * NumHiddenNeurons p) in
  let n3 := Z.to_nat ((NumHiddenNeurons p + 1) * NumOutputs p) in
  let k := Z.to_nat (NumHiddenLayers p - 1) in
  let total := (n1 + k * n2 + n3)%nat in
  exists c,
    NewCPPN p g = Ok (c, mkRng (draws g) (pos g + total)) /\
    parameters c = drawn g (pos g) total.
Proof.
  intros (Hd & Hi & Hn & Ho & H1 & H2 & H3 & Hi' & Hn') n1 n2 n3 k total.
  assert (Hmax : GoInt.maxInt = (2 ^ 63 - 1)%Z) by reflexivity.
  assert (Hmin : GoInt.minInt = (- 2 ^ 63)%Z) by reflexivity.
  unfold NewCPPN, GoInt.add.
  rewrite !wrap_id by (unfold GoInt.in_range; lia).
  destruct (Z.ltb_spec (NumHiddenLayers p + 1) 0); [lia|].
  assert (R1 : (0 <= (NumInputs p + 1) * NumHiddenNeurons p <= GoInt.maxInt)%Z)
    by (split; [clear - Hi Hn; nia | exact H1]).
  assert (R2 : (0 <= (NumHiddenNeurons p + 1) * NumHiddenNeurons p <= GoInt.maxInt)%Z)
    by (split; [clear - Hn; nia | exact H2]).
  assert (R3 : (0 <= (NumHiddenNeurons p + 1) * NumOutputs p <= GoInt.maxInt)%Z)
    by (split; [clear - Hn Ho; nia | exact H3]).
  rewrite (bind_ok _ _ _ _ _ (NewLayer_ok _ _ Tanh g R1)).
  fold n1.
  destruct (middle_loop (NumHiddenNeurons p + 1) (NumHiddenNeurons p) Tanh k
              R2 (mkRng (draws g) (pos g + n1))) as (middle & E2 & Hc).
  fold k. rewrite (bind_ok _ _ _ _ _ E2). fold n2 in E2, Hc |- *.
  rewrite (bind_ok _ _ _ _ _ (NewLayer_ok _ _ Sigmoid _ R3)).
  fold n3. unfold ret. cbn [pos draws].
  eexists. split.
  - do 3 f_equal. unfold total. cbn [pos]. lia.
  - unfold parameters. cbn [Layers map concat Weights mat64.DData].
    rewrite map_app, concat_app, Hc. cbn [map concat Weights mat64.DData pos].
    rewrite app_nil_r. unfold total.
    rewrite <- (Nat.add_assoc n1), (drawn_app g (pos g) n1),
      (drawn_app g (pos g + n1) (k * n2)).
    unfold drawn. cbn [draws pos]. reflexivity.
Qed.

(** X1.  [NewLayer(r, c, activation)], for a product [r*c] that is a value
    of [int]: a negative product makes [make] panic; otherwise the layer has
    the [r*c] next normal deviates of the generator, each halved, as its
    weights in row-major order, and the generator has advanced by [r*c]. *)
Theorem NewLayer_weights (r c : Z) (act : Activation) (g : rng) :
  GoInt.in_range (r * c) ->
  NewLayer r c act g =
  if (r * c <? 0)%Z then Panic ErrMakeSlice
  else Ok (mkLayer (mat64.mkDense r c (drawn g (pos g) (Z.to_nat (r * c)))) act,
           mkRng (draws g) (pos g + Z.to_nat (r * c))).
Proof.
  intros Hin. destruct (Z.ltb_spec (r * c) 0) as [Hneg|Hpos].
  - unfold NewLayer, GoInt.mul. rewrite (wrap_id _ Hin).
    destruct (Z.ltb_spec (r * c) 0); [reflexivity | lia].
  - apply NewLayer_ok. unfold GoInt.in_range in Hin. lia.
Qed.

Lemma NewLayer_weights_witness :
  GoInt.in_range (2 * 1) /\
  NewLayer 2 1 Tanh (mkRng (fun i => INR i) 3) =
  Ok (mkLayer (mat64.mkDense 2 1 [INR 3 * 0.5; INR 4 * 0.5]%R) Tanh,
      mkRng (fun i => INR i) 5).
Proof.
  assert (H : GoInt.in_range (2 * 1)) by (vm_compute; split; discriminate).
  split; [exact H|]. exact (NewLayer_weights 2 1 Tanh (mkRng (fun i => INR i) 3) H).
Defined.

(** X2.  [NewCPPN] on a configuration whose sizes are non-negative values
    of [int]: the weights of the network, layer after layer, are the normal
    deviates the generator yields from its position on, each halved; the
    generator advances by exactly the number of weights, which is
    (NumInputs+1)*NumHiddenNeurons
    + max(NumHiddenLayers-1, 0)*(NumHiddenNeurons+1)*NumHiddenNeurons
    + (NumHiddenNeurons+1)*NumOutputs. *)
Theorem NewCPPN_weights (p : CPPNParam) (g : rng) :
  constructible p ->
  exists c g',
    NewCPPN p g = Ok (c, g') /\
    draws g' = draws g /\
    pos g' = (pos g + length (parameters c))%nat /\
    parameters c = drawn g (pos g) (length (parameters c)) /\
    Z.of_nat (length (parameters c)) =
      ((NumInputs p + 1) * NumHiddenNeurons p
       + Z.max (NumHiddenLayers p - 1) 0
         * ((NumHiddenNeurons p + 1) * NumHiddenNeurons p)
       + (NumHiddenNeurons p + 1) * NumOutputs p)%Z.
Proof.
  intros Hp. destruct (parameters_length_eq p g Hp) as (c & E & Hc).
  cbv zeta in E, Hc.
  destruct Hp as (Hd & Hi & Hn & Ho & _).
  assert (Hlen : length (parameters c) =
                 (Z.to_nat ((NumInputs p + 1) * NumHiddenNeurons p)
                  + Z.to_nat (NumHiddenLayers p - 1)
                    * Z.to_nat ((NumHiddenNeurons p + 1) * NumHiddenNeurons p)
                  + Z.to_nat ((NumHiddenNeurons p + 1) * NumOutputs p))%nat).
  { rewrite Hc. unfold drawn. now rewrite length_map, length_seq. }
  exists c. eexists. split; [exact E|]. cbn [draws pos].
  split; [reflexivity|]. split; [now rewrite Hlen|]. split; [now rewrite Hlen|].
  rewrite Hlen. rewrite !Nat2Z.inj_add, Nat2Z.inj_mul.
  rewrite (Z2Nat.id ((NumInputs p + 1) * NumHiddenNeurons p)) by nia.
  rewrite (Z2Nat.id ((NumHiddenNeurons p + 1) * NumHiddenNeurons p)) by nia.
  rewrite (Z2Nat.id ((NumHiddenNeurons p + 1) * NumOutputs p)) by nia.
  replace (Z.of_nat (Z.to_nat (NumHiddenLayers p - 1)))
    with (Z.max (NumHiddenLayers p - 1) 0) by lia.
  reflexivity.
Qed.

Lemma NewCPPN_weights_witness :
  constructible (mkParam 5 12 24 3) /\
  exists c g',
    NewCPPN (mkParam 5 12 24 3) (mkRng (fun _ => 0%R) 0) = Ok (c, g') /\
    pos g' = length (parameters c) /\
    Z.of_nat (length (parameters c)) = 6819%Z.
Proof.
  assert (H : constructible (mkParam 5 12 24 3))
    by (unfold constructible; simpl; unfold GoInt.maxInt; lia).
  split; [exact H|].
  destruct (NewCPPN_weights (mkParam 5 12 24 3) (mkRng (fun _ => 0%R) 0) H)
    as (c & g' & E & _ & Hpos & _ & Hlen).
  exists c, g'. split; [exact E|]. split; [exact Hpos|]. exact Hlen.
Defined.

(** X3.  [NewCPPN] for a number of hidden layers of at most one (a value
    of [int]): below -1 the capacity [NumHiddenLayers+1] of [make] is
    negative and the call panics; for -1, 0 and 1 the loop over the middle
    layers does not run, and the layers and the state of the generator are
    those of the configuration with one hidden layer. *)
Theorem NewCPPN_shallow (p : CPPNParam) (g : rng) :
  GoInt.in_range (NumHiddenLayers p) -> (NumHiddenLayers p <= 1)%Z ->
  NewCPPN p g =
  if (NumHiddenLayers p <? -1)%Z then Panic ErrMakeSlice
  else match NewCPPN (mkParam (NumInputs p) 1 (NumHiddenNeurons p) (NumOutputs p)) g with
       | Ok (c, g') => Ok (mkCPPN p (Layers c), g')
       | Panic e => Panic e
       end.
Proof.
  intros Hin Hle. unfold NewCPPN. cbn [NumInputs NumHiddenLayers NumHiddenNeurons NumOutputs].
  unfold GoInt.add at 1.
  rewrite wrap_id
    by (unfold GoInt.in_range, GoInt.minInt, GoInt.maxInt in *; lia).
  change (GoInt.add 1 1 <? 0)%Z with false. cbv iota.
  destruct (Z.ltb_spec (NumHiddenLayers p) (-1)) as [Hlt|Hge].
  - destruct (Z.ltb_spec (NumHiddenLayers p + 1) 0); [reflexivity | lia].
  - destruct (Z.ltb_spec (NumHiddenLayers p + 1) 0); [lia|].
    replace (Z.to_nat (NumHiddenLayers p - 1)) with (Z.to_nat (1 - 1)) by lia.
    unfold bind, ret.
    destruct (NewLayer _ _ Tanh g) as [[first g1]|e]; [|reflexivity].
    destruct (replicateM _ _ g1) as [[middle g2]|e]; [|reflexivity].
    destruct (NewLayer _ _ Sigmoid g2) as [[last g3]|e]; reflexivity.
Qed.

Lemma NewCPPN_shallow_witness :
  let p := mkParam 5 (-1) 2 1 in
  let g := mkRng (fun _ => 0%R) 0 in
  GoInt.in_range (NumHiddenLayers p) /\ (NumHiddenLayers p <= 1)%Z /\
  NewCPPN p g =
  match NewCPPN (mkParam 5 1 2 1) g with
  | Ok (c, g') => Ok (mkCPPN p (Layers c), g')
  | Panic e => Panic e
  end.
Proof.
  intros p g.
  assert (H1 : GoInt.in_range (NumHiddenLayers p)) by (vm_compute; split; discriminate).
  assert (H2 : (NumHiddenLayers p <= 1)%Z) by (simpl; lia).
  split; [exact H1|]. split; [exact H2|].
  exact (NewCPPN_shallow p g H1 H2).
Defined.

(* ------------------------------------------------------------------ *)
(** ** The activations *)

(** X4.  The function of [Sigmoid()] is monotone: a larger argument never
    gives a smaller value.  (Over the reals it is strictly increasing; on
    float64 values it is not, being exactly 1 on all large arguments, see
    [float64_Sigmoid_746].) *)
Theorem Sigmoid_monotone (x y : R) :
  (x <= y)%R -> (Fn Sigmoid x <= Fn Sigmoid y)%R.
Proof.
  intros Hxy. simpl.
  assert (Hx := exp_pos (- x)). assert (Hy := exp_pos (- y)).
  assert (Hle : (exp (- y) <= exp (- x))%R).
  { destruct Hxy as [Hlt | ->]; [|lra].
    left. apply exp_increasing. lra. }
  unfold Rdiv. rewrite !Rmult_1_l.
  apply Rinv_le_contravar; lra.
Qed.

Lemma Sigmoid_monotone_witness : (0 <= 1)%R /\ (Fn Sigmoid 0 <= Fn Sigmoid 1)%R.
Proof.
  assert (H : (0 <= 1)%R) by lra.
  split; [exact H | exact (Sigmoid_monotone 0 1 H)].
Defined.

(** X5.  The two activations are related: the sigmoid of [Sigmoid()] is
    point-symmetric about (0, 1/2), and [math.Tanh], the function of
    [Tanh()], is the sigmoid rescaled to (-1, 1): tanh x = 2*sigmoid(2x) - 1. *)
Theorem Sigmoid_symmetry (x : R) :
  (Fn Sigmoid (- x) = 1 - Fn Sigmoid x)%R /\
  (Fn Sigmoid 0 = 1 / 2)%R /\
  (Fn Tanh x = 2 * Fn Sigmoid (2 * x) - 1)%R.
Proof.
  assert (Hx := exp_pos x). assert (Hnx := exp_pos (- x)).
  assert (Hinv : (exp x * exp (- x) = 1)%R)
    by (rewrite <- exp_plus, Rplus_opp_r; apply exp_0).
  simpl. split; [|split].
  - rewrite Ropp_involutive.
    assert (Ex : exp x = (/ exp (- x))%R) by (field_simplify_eq; lra).
    rewrite Ex. field. split; lra.
  - rewrite Ropp_0, exp_0. lra.
  - unfold tanh, sinh, cosh.
    replace (- (2 * x))%R with (- x + - x)%R by lra. rewrite exp_plus.
    assert (Ex : exp x = (/ exp (- x))%R) by (field_simplify_eq; lra).
    assert (0 < exp (- x) * exp (- x))%R by (apply Rmult_lt_0_compat; lra).
    rewrite Ex. field. repeat split; nra.
Qed.

(* ------------------------------------------------------------------ *)
(** ** Layers that do not fit *)

(** The first three statements of [Activate] always succeed on a valid
    signal: they leave the signal with the bias appended in a new block. *)
Lemma Activate_bias (l : Layer) (signal : mat64.Vector) (h : heap) (blk : list R) :
  h !! ptr (mat64.Data signal) = Some blk ->
  (mat64.Len signal <= length blk)%nat ->
  let n := mat64.Len signal in
  let xs := take n blk in
  let withBias := mat64.mkVector (mkSlice (length h) (n + 1) (n + 1)) in
  Activate l signal h =
  (let c := mat64.Cols (Weights l) in
   d <- make c ;;
   activated <- mat64.NewVector c (Some d) ;;
   mat64.MulVec activated (mat64.T (Weights l)) withBias ;;;
   forM_ (seq 0 (Z.to_nat c))
         (fun i => x <- mat64.At activated i ;;
                   mat64.SetVec activated i (Fn (activation l) x)) ;;;
   ret activated) (h ++ [xs ++ [(-1)%R]]).
Proof.
  intros Hb Hlen n xs withBias.
  assert (Hxs : length xs = n) by (subst xs; rewrite length_take; lia).
  unfold Activate. fold n.
  set (wb := mkSlice (length h) (n + 1) (n + 1)) in *.
  assert (E1 : mat64.NewVector (Z.of_nat (n + 1)) None h =
               Ok (mat64.mkVector wb, h ++ [replicate (n + 1) 0%R])).
  { unfold mat64.NewVector.
    rewrite (bind_ok _ _ _ _ _ (make_ok (Z.of_nat (n + 1)) h ltac:(lia))).
    unfold ret, wb. now rewrite Nat2Z.id. }
  rewrite (bind_ok _ _ _ _ _ E1). clear E1.
  assert (E2 : mat64.CopyVec (mat64.mkVector wb) signal (h ++ [replicate (n + 1) 0%R]) =
               Ok (n, h ++ [xs ++ [0%R]])).
  { unfold mat64.CopyVec. unfold mat64.Len at 1. simpl.
    fold n. replace (Nat.min (n + 1) n) with n by lia.
    assert (Ec : mat64.Copy n (mat64.Data signal) wb (h ++ [replicate (n + 1) 0%R]) =
                 Ok (tt, <[ptr wb := take n blk ++ drop n (replicate (n + 1) 0%R)]>
                           (h ++ [replicate (n + 1) 0%R]))).
    { apply Copy_ok; unfold wb; simpl.
      - apply lookup_lt_Some in Hb. lia.
      - rewrite lookup_app_l by (eapply lookup_lt_Some; eauto). exact Hb.
      - apply lookup_last.
      - unfold n, mat64.Len. lia.
      - lia.
      - lia.
      - rewrite length_replicate. lia. }
    rewrite (bind_ok _ _ _ _ _ Ec).
    unfold ret. simpl. rewrite insert_last.
    rewrite drop_replicate. replace (n + 1 - n)%nat with 1%nat by lia.
    unfold mat64.Len. simpl. replace (Nat.min (n + 1) n) with n by lia.
    reflexivity. }
  rewrite (bind_ok _ _ _ _ _ E2). clear E2.
  assert (E3 : mat64.SetVec (mat64.mkVector wb) n (-1)%R (h ++ [xs ++ [0%R]]) =
               Ok (tt, h ++ [xs ++ [(-1)%R]])).
  { unfold mat64.SetVec, mat64.Len. simpl.
    destruct (Nat.ltb_spec n (n + 1)); [|lia].
    rewrite (slice_set_ok wb n _ _ (xs ++ [0%R])); unfold wb; simpl.
    - rewrite insert_last. do 3 f_equal.
      replace n with (length xs + 0)%nat at 1 by lia.
      now rewrite insert_app_r.
    - apply lookup_last.
    - lia.
    - rewrite length_app. simpl. lia. }
  rewrite (bind_ok _ _ _ _ _ E3). reflexivity.
Qed.

(** The failures of [Activate] on a valid signal. *)
Lemma Activate_negative (l : Layer) (signal : mat64.Vector) (h : heap) (blk : list R) :
  h !! ptr (mat64.Data signal) = Some blk ->
  (mat64.Len signal <= length blk)%nat ->
  (mat64.Cols (Weights l) < 0)%Z ->
  Activate l signal h = Panic ErrMakeSlice.
Proof.
  intros Hb Hlen Hc. rewrite (Activate_bias l signal h blk Hb Hlen). cbv zeta.
  apply bind_panic. unfold make.
  destruct (Z.ltb_spec (mat64.Cols (Weights l)) 0); [reflexivity | lia].
Qed.

Lemma Activate_misfit (l : Layer) (signal : mat64.Vector) (h : heap) (blk : list R) :
  h !! ptr (mat64.Data signal) = Some blk ->
  (mat64.Len signal <= length blk)%nat ->
  (0 <= mat64.Cols (Weights l))%Z ->
  mat64.Rows (Weights l) <> Z.of_nat (mat64.Len signal + 1) ->
  Activate l signal h = Panic ErrShape.
Proof.
  intros Hb Hlen Hc Hr. rewrite (Activate_bias l signal h blk Hb Hlen). cbv zeta.
  rewrite (bind_ok _ _ _ _ _ (make_ok _ _ Hc)).
  unfold mat64.NewVector at 1. cbn [len].
  rewrite Z2Nat.id by lia. rewrite Z.eqb_refl.
  unfold ret at 1. unfold bind at 1.
  apply bind_panic.
  unfold mat64.MulVec, mat64.T, mat64.Dims, mat64.Len. cbn [mat64.Data len].
  unfold mat64.Len in Hr.
  destruct (Z.eqb_spec (mat64.Rows (Weights l))
                       (Z.of_nat (len (mat64.Data signal) + 1)));
    [contradiction | reflexivity].
Qed.

Lemma valid_contents_holds h s xs :
  valid_slice h s -> contents h s = Some xs -> holds h s xs.
Proof.
  intros (blk & Hb & H1 & H2). unfold contents. rewrite Hb. intros [= <-].
  exists blk. auto.
Qed.

(** A network whose shapes do not chain stops at the first layer that does
    not fit, with the panic of [make] or of [MulVec]. *)
Lemma propagate_unchained (ls : list Layer) :
  forall (sv : mat64.Vector) h xs,
    holds h (mat64.Data sv) xs ->
    nonempty ls ->
    ~ chained (mat64.Len sv) ls ->
    propagate ls sv h = Panic ErrShape \/ propagate ls sv h = Panic ErrMakeSlice.
Proof.
  induction ls as [|l ls IH]; intros sv h xs Hh Hnz Hn.
  - exfalso. apply Hn. exact I.
  - rewrite propagate_cons. apply Forall_cons in Hnz as [Hn0 Hnz].
    destruct Hh as (blk & Hb & Hlc & Hcb & Hxs).
    assert (Hlen : (mat64.Len sv <= length blk)%nat) by (unfold mat64.Len; lia).
    destruct (Z.lt_ge_cases (mat64.Cols (Weights l)) 0) as [Hneg|Hpos].
    { right. apply bind_panic. unfold turn. apply bind_panic.
      eapply Activate_negative; eauto. }
    destruct (Z.eq_dec (mat64.Rows (Weights l)) (Z.of_nat (mat64.Len sv + 1)))
      as [Hr|Hr].
    + destruct (turn_ok l sv h xs) as (sv' & h' & E & Hh' & _); auto; [|lia|].
      { exists blk. auto. }
      rewrite (bind_ok _ _ _ _ _ E).
      apply (IH sv' h' _ Hh' Hnz).
      intros Hc. apply Hn. cbn [chained]. split; [exact Hr|]. split; [exact Hpos|].
      apply holds_length in Hh'. rewrite activate_spec_length in Hh'.
      unfold mat64.Len in Hc. now rewrite <- Hh' in Hc.
    + left. apply bind_panic. unfold turn. apply bind_panic.
      eapply Activate_misfit; eauto.
Qed.

Lemma chained_dec (ls : list Layer) : forall n, chained n ls \/ ~ chained n ls.
Proof.
  induction ls as [|l ls IH]; intros n; cbn [chained].
  - now left.
  - destruct (Z.eq_dec (mat64.Rows (Weights l)) (Z.of_nat (n + 1))); [|tauto].
    destruct (Z_le_dec 0 (mat64.Cols (Weights l))); [|tauto].
    destruct (IH (Z.to_nat (mat64.Cols (Weights l)))); tauto.
Qed.

(** X6.  [Activate] on a valid signal, for a weight matrix that has columns,
    fails in two ways only, both decided by the shape of the matrix: a
    negative column count is the panic of [make], and a row count other than
    [signal.Len()+1] is the [ErrShape] of [MulVec]; in every other case the
    call returns the layer's function of the signal in a new block. *)
Theorem Activate_shape_check (l : Layer) (signal : mat64.Vector) (h : heap) :
  valid_slice h (mat64.Data signal) ->
  mat64.Cols (Weights l) <> 0%Z ->
  exists xs,
    contents h (mat64.Data signal) = Some xs /\
    Activate l signal h =
    let c := Z.to_nat (mat64.Cols (Weights l)) in
    if (mat64.Cols (Weights l) <? 0)%Z then Panic ErrMakeSlice
    else if (mat64.Rows (Weights l) =? Z.of_nat (mat64.Len signal + 1))%Z
         then Ok (mat64.mkVector (mkSlice (S (length h)) c c),
                  h ++ [xs ++ [(-1)%R]; activate_spec l xs])
         else Panic ErrShape.
Proof.
  intros (blk & Hb & Hlc & Hcb) Hnz.
  assert (Hlen : (mat64.Len signal <= length blk)%nat) by (unfold mat64.Len; lia).
  exists (take (mat64.Len signal) blk). split.
  { unfold contents. now rewrite Hb. }
  cbv zeta.
  destruct (Z.ltb_spec (mat64.Cols (Weights l)) 0) as [Hneg|Hpos].
  { eapply Activate_negative; eauto. }
  destruct (Z.eqb_spec (mat64.Rows (Weights l)) (Z.of_nat (mat64.Len signal + 1)))
    as [Hr|Hr].
  - apply Activate_ok; [assumption.. | lia].
  - eapply Activate_misfit; eauto.
Qed.

Lemma Activate_shape_check_witness :
  let l := mkLayer (mat64.mkDense 3 1 [1; 1; 1]%R) Tanh in
  let signal := mat64.mkVector (mkSlice 0 1 1) in
  let h := [[0%R]] in
  valid_slice h (mat64.Data signal) /\
  mat64.Cols (Weights l) <> 0%Z /\
  exists xs,
    contents h (mat64.Data signal) = Some xs /\
    Activate l signal h = Panic ErrShape.
Proof.
  intros l signal h.
  assert (H : valid_slice h (mat64.Data signal)).
  { exists [0%R]. simpl. split; [reflexivity | lia]. }
  assert (H0 : mat64.Cols (Weights l) <> 0%Z) by discriminate.
  split; [exact H|]. split; [exact H0|].
  destruct (Activate_shape_check l signal h H H0) as (xs & Hc & E).
  exists xs. split; [exact Hc | exact E].
Defined.

(** X7.  [FeedForward] computes the composition of the layers: on a network
    whose shapes chain (no weight matrix empty) and an input of [NumInputs]
    values it returns a slice
    holding the layers' functions applied in order to the input values (each
    layer: append -1, multiply by the transposed weights, apply the
    activation), whatever else the heap holds; the slice has as many
    elements as the last weight matrix has columns. *)
Theorem FeedForward_computes (c : CPPN) (inputs : slice) (h : heap) (xs : list R) :
  valid_slice h inputs -> contents h inputs = Some xs ->
  Z.of_nat (len inputs) = NumInputs (Param c) ->
  chained (len inputs) (Layers c) -> nonempty (Layers c) ->
  exists out h',
    FeedForward c inputs h = Ok (out, h') /\
    contents h' out = Some (feed_spec (Layers c) xs) /\
    len out = length (feed_spec (Layers c) xs) /\
    match last (Layers c) with
    | Some l => Z.of_nat (len out) = mat64.Cols (Weights l)
    | None => out = inputs
    end.
Proof.
  intros Hv Hc Hn Hch Hne.
  pose proof (valid_contents_holds _ _ _ Hv Hc) as Hh.
  destruct (FeedForward_ok c inputs h xs Hh Hn Hch Hne) as (out & h' & E & Hh' & _).
  exists out, h'. split; [exact E|].
  split; [now apply holds_contents|].
  split; [symmetry; eapply holds_length; eauto|].
  destruct (last (Layers c)) as [l|] eqn:El.
  - apply holds_length in Hh'. rewrite <- Hh'.
    destruct (Layers c) as [|l0 ls] using rev_ind; [discriminate|].
    rewrite last_snoc in El. injection El as ->.
    rewrite feed_spec_snoc, activate_spec_length.
    apply chained_app in Hch. destruct Hch as [_ Hch].
    cbn [chained] in Hch. lia.
  - apply last_None in El. unfold FeedForward in E. rewrite El in E.
    destruct (Z.eqb_spec (Z.of_nat (len inputs)) (NumInputs (Param c))); [|contradiction].
    cbn in E. unfold mat64.NewVector in E. rewrite Z.eqb_refl in E.
    cbn in E. now injection E as <- _.
Qed.

Lemma FeedForward_computes_witness :
  let l := mkLayer (mat64.mkDense 2 1 [1; 1]%R) Sigmoid in
  let c := mkCPPN (mkParam 1 0 1 1) [l] in
  let inputs := mkSlice 0 1 1 in
  let h := [[0%R]] in
  valid_slice h inputs /\ contents h inputs = Some [0%R] /\
  Z.of_nat (len inputs) = NumInputs (Param c) /\
  chained (len inputs) (Layers c) /\ nonempty (Layers c) /\
  exists out h',
    FeedForward c inputs h = Ok (out, h') /\
    contents h' out = Some (feed_spec (Layers c) [0%R]).
Proof.
  intros l c inputs h.
  assert (H1 : valid_slice h inputs).
  { exists [0%R]. simpl. split; [reflexivity | lia]. }
  assert (H2 : contents h inputs = Some [0%R]) by reflexivity.
  assert (H3 : Z.of_nat (len inputs) = NumInputs (Param c)) by reflexivity.
  assert (H4 : chained (len inputs) (Layers c)).
  { simpl. split; [reflexivity|]. split; [lia | exact I]. }
  assert (H5 : nonempty (Layers c)) by (repeat constructor; discriminate).
  split; [exact H1|]. split; [exact H2|]. split; [exact H3|]. split; [exact H4|].
  split; [exact H5|].
  destruct (FeedForward_computes c inputs h [0%R] H1 H2 H3 H4 H5)
    as (out & h' & E & Hc & _).
  exists out, h'. split; [exact E | exact Hc].
Defined.

(** X8.  [FeedForward] on an input of [NumInputs] values, no weight matrix
    being empty, succeeds exactly when the shapes of the layers chain (each weight matrix has one row more
    than its input has components and a non-negative column count); when
    they do not, the call panics at the first layer that does not fit, with
    [ErrShape] of [MulVec] or the panic of [make], and with no other
    panic. *)
Theorem FeedForward_succeeds_iff_chained (c : CPPN) (inputs : slice) (h : heap) :
  valid_slice h inputs ->
  Z.of_nat (len inputs) = NumInputs (Param c) ->
  nonempty (Layers c) ->
  ((exists out h', FeedForward c inputs h = Ok (out, h')) <->
   chained (len inputs) (Layers c)) /\
  (~ chained (len inputs) (Layers c) ->
   FeedForward c inputs h = Panic ErrShape \/
   FeedForward c inputs h = Panic ErrMakeSlice).
Proof.
  intros Hv Hn Hne.
  destruct (valid_holds _ _ Hv) as (xs & Hh).
  assert (Hfail : ~ chained (len inputs) (Layers c) ->
                  FeedForward c inputs h = Panic ErrShape \/
                  FeedForward c inputs h = Panic ErrMakeSlice).
  { intros Hnc. unfold FeedForward.
    destruct (Z.eqb_spec (Z.of_nat (len inputs)) (NumInputs (Param c))); [|contradiction].
    cbn [negb]. unfold mat64.NewVector. rewrite Z.eqb_refl.
    destruct (propagate_unchained (Layers c) (mat64.mkVector inputs) h xs Hh Hne Hnc)
      as [E|E]; [left | right]; unfold bind, ret; now rewrite E. }
  split; [|exact Hfail]. split.
  - intros (out & h' & E).
    destruct (chained_dec (Layers c) (len inputs)) as [Hc|Hc]; [exact Hc|].
    destruct (Hfail Hc) as [E'|E']; rewrite E' in E; discriminate.
  - intros Hc.
    destruct (FeedForward_ok c inputs h xs Hh Hn Hc Hne) as (out & h' & E & _).
    eauto.
Qed.

Lemma FeedForward_succeeds_iff_chained_witness :
  let l := mkLayer (mat64.mkDense 3 1 [1; 1; 1]%R) Sigmoid in
  let c := mkCPPN (mkParam 1 0 1 1) [l] in
  let inputs := mkSlice 0 1 1 in
  let h := [[0%R]] in
  valid_slice h inputs /\
  Z.of_nat (len inputs) = NumInputs (Param c) /\
  nonempty (Layers c) /\
  ((exists out h', FeedForward c inputs h = Ok (out, h')) <->
   chained (len inputs) (Layers c)).
Proof.
  intros l c inputs h.
  assert (H1 : valid_slice h inputs).
  { exists [0%R]. simpl. split; [reflexivity | lia]. }
  assert (H2 : Z.of_nat (len inputs) = NumInputs (Param c)) by reflexivity.
  assert (H3 : nonempty (Layers c)) by (repeat constructor; discriminate).
  split; [exact H1|]. split; [exact H2|]. split; [exact H3|].
  exact (proj1 (FeedForward_succeeds_iff_chained c inputs h H1 H2 H3)).
Defined.

(* ================================================================== *)
(** * Further properties of the rendering *)

(* ------------------------------------------------------------------ *)
(** ** One pixel *)

Lemma drawPixel_drawWith cfg cppn f x y theta :
  drawPixel cfg cppn f x y theta =
  drawWith (features cfg x y theta) (gray cfg) cppn f x y.
Proof. reflexivity. Qed.

Lemma pixelColor_colorOf cfg cppn x y theta :
  pixelColor cfg cppn x y theta =
  colorOf (gray cfg) (feed_spec (Layers cppn) (features cfg x y theta)).
Proof. reflexivity. Qed.

(** One pixel drawn: the frame receives the palette index of the colour,
    the float memory only grows. *)
Lemma drawWith_ok (feats : list R) (gray : bool) cppn colors W H pix f x y (w : world) :
  Z.of_nat (length feats) = NumInputs (Param cppn) ->
  chained (length feats) (Layers cppn) -> nonempty (Layers cppn) ->
  ((if gray then 1 else 3) <= length (feed_spec (Layers cppn) feats))%nat ->
  (0 <= W)%Z -> (0 <= H)%Z -> (W * H <= GoInt.maxInt)%Z ->
  frames w !! f = Some (canvas W H colors pix) ->
  length pix = Z.to_nat (W * H) ->
  exists h',
    drawWith feats gray cppn f x y w =
    Ok (tt, mkWorld h'
              (<[f := canvas W H colors
                        (put W H pix (x, y)
                             (uint8 (color.Index colors
                                       (colorOf gray (feed_spec (Layers cppn) feats)))))]>
                 (frames w))) /\
    (length (floats w) <= length h')%nat /\
    (forall p, (p < length (floats w))%nat -> h' !! p = floats w !! p).
Proof.
  intros Hin Hch Hne Hout Hw Hh Hwh Hf Hlen.
  unfold drawWith.
  set (h := floats w).
  set (inputs := mkSlice (length h) (length feats) (length feats)).
  assert (E1 : onFloats (literal feats) w = Ok (inputs, mkWorld (h ++ [feats]) (frames w)))
    by reflexivity.
  rewrite (bind_ok _ _ _ _ _ E1). clear E1.
  assert (Hh1 : holds (h ++ [feats]) inputs feats).
  { exists feats. unfold inputs. simpl. split; [apply lookup_last|].
    repeat split; try lia. now rewrite take_ge. }
  destruct (FeedForward_ok cppn inputs (h ++ [feats]) feats Hh1 Hin Hch Hne)
    as (out & h2 & Eff & Hh2 & Hgrow & Hframe & _).
  assert (E2 : onFloats (FeedForward cppn inputs) (mkWorld (h ++ [feats]) (frames w)) =
               Ok (out, mkWorld h2 (frames w)))
    by (unfold onFloats; simpl; now rewrite Eff).
  rewrite (bind_ok _ _ _ _ _ E2). clear E2.
  set (ys := feed_spec (Layers cppn) feats) in *.
  rewrite length_app in Hgrow. simpl in Hgrow.
  exists h2. split; [|split].
  - unfold set, colorOf.
    destruct gray.
    + assert (G0 : onFloats (slice_get out 0) (mkWorld h2 (frames w)) =
                   Ok (nth 0 ys 0%R, mkWorld h2 (frames w)))
        by (unfold onFloats; simpl;
            now rewrite (slice_get_holds h2 out ys 0 Hh2 ltac:(lia))).
      rewrite (bind_ok _ _ _ _ _ G0).
      unfold onFrames. simpl.
      now rewrite (Set__canvas _ _ colors pix _ f x y _ Hw Hh Hwh Hf Hlen).
    + assert (G : forall i, (i < 3)%nat ->
                   onFloats (slice_get out i) (mkWorld h2 (frames w)) =
                   Ok (nth i ys 0%R, mkWorld h2 (frames w))).
      { intros i Hi. unfold onFloats. simpl.
        now rewrite (slice_get_holds h2 out ys i Hh2 ltac:(lia)). }
      rewrite (bind_ok _ _ _ _ _ (G 0%nat ltac:(lia))).
      rewrite (bind_ok _ _ _ _ _ (G 1%nat ltac:(lia))).
      rewrite (bind_ok _ _ _ _ _ (G 2%nat ltac:(lia))).
      unfold onFrames. simpl.
      now rewrite (Set__canvas _ _ colors pix _ f x y _ Hw Hh Hwh Hf Hlen).
  - fold h. lia.
  - intros p Hp. fold h in Hp |- *.
    rewrite Hframe.
    + now rewrite lookup_app_l.
    + rewrite length_app. simpl. lia.
    + unfold inputs. simpl. lia.
Qed.

Lemma flatNet_usable : usable smallGray flatNet.
Proof.
  split; [reflexivity|]. split.
  - cbn. split; [reflexivity|]. split; [lia | exact I].
  - intros xs. cbn [gray smallGray flatNet Layers feed_spec fold_left].
    rewrite activate_spec_length. cbn. lia.
Qed.

Lemma flatNet_nonempty : nonempty (Layers flatNet).
Proof. repeat constructor. discriminate. Qed.

Lemma smallGray_drawable : drawable smallGray.
Proof. unfold drawable, GoInt.maxInt. cbn. lia. Qed.

(** X9.  One call of [drawPixel] on a frame of the configured size, with a
    network that fits (no weight matrix empty): it succeeds; every float64 block that existed before
    the call is unchanged (the call works on blocks of its own); no other
    frame changes; in the frame at most the one byte of the pixel changes,
    which receives the palette index of the pixel's colour when the pixel
    lies in the frame, and nothing is written when it lies outside. *)
Theorem drawPixel_frame_effect (cfg : Config) (cppn : CPPN)
    (colors : color.Palette) (pix : list Z) (f : nat) (x y theta : Z) (w : world) :
  usable cfg cppn -> nonempty (Layers cppn) ->
  (0 <= width cfg)%Z -> (0 <= height cfg)%Z ->
  (width cfg * height cfg <= GoInt.maxInt)%Z ->
  frames w !! f = Some (canvas (width cfg) (height cfg) colors pix) ->
  length pix = Z.to_nat (width cfg * height cfg) ->
  exists w' pix',
    drawPixel cfg cppn f x y theta w = Ok (tt, w') /\
    (forall p, (p < length (floats w))%nat -> floats w' !! p = floats w !! p) /\
    length (frames w') = length (frames w) /\
    (forall f', f' <> f -> frames w' !! f' = frames w !! f') /\
    frames w' !! f = Some (canvas (width cfg) (height cfg) colors pix') /\
    length pix' = length pix /\
    (forall j, j <> Z.to_nat (y * width cfg + x) -> pix' !! j = pix !! j) /\
    ((0 <= x < width cfg /\ 0 <= y < height cfg)%Z ->
     pix' !! Z.to_nat (y * width cfg + x) =
     Some (uint8 (color.Index colors (pixelColor cfg cppn x y theta)))) /\
    (~ (0 <= x < width cfg /\ 0 <= y < height cfg)%Z -> pix' = pix).
Proof.
  intros (Hin & Hch & Hout) Hnz Hw Hh Hwh Hf Hlen.
  rewrite drawPixel_drawWith.
  destruct (drawWith_ok (features cfg x y theta) (gray cfg) cppn colors
              (width cfg) (height cfg) pix f x y w) as (h' & E & _ & Hfl); auto.
  { now rewrite features_length, Hin. }
  { now rewrite features_length. }
  rewrite <- pixelColor_colorOf in E.
  set (v := uint8 (color.Index colors (pixelColor cfg cppn x y theta))) in *.
  assert (Hf' : (f < length (frames w))%nat) by (eapply lookup_lt_Some; eauto).
  eexists _, (put (width cfg) (height cfg) pix (x, y) v).
  split; [exact E|]. cbn [floats frames].
  split; [exact Hfl|].
  split; [apply length_insert|].
  split; [intros f' Hne; now apply list_lookup_insert_ne|].
  split; [now apply list_lookup_insert_eq|].
  split; [apply put_length|].
  rewrite put_inside. unfold offset. cbn [fst snd].
  destruct (inside (width cfg) (height cfg) (x, y)) eqn:Ei.
  - apply inside_spec in Ei. cbn [fst snd] in Ei.
    split; [intros j Hj; now apply list_lookup_insert_ne|].
    split; [|tauto].
    intros _. apply list_lookup_insert_eq. nia.
  - assert (Hno : ~ (0 <= x < width cfg /\ 0 <= y < height cfg)%Z).
    { intros Hc. assert (inside (width cfg) (height cfg) (x, y) = true)
        by (apply inside_spec; cbn [fst snd]; lia). congruence. }
    split; [reflexivity|]. split; [tauto | reflexivity].
Qed.

Lemma drawPixel_frame_effect_witness :
  let w := mkWorld [] [canvas 2 2 grayColors [0; 0; 0; 0]%Z] in
  usable smallGray flatNet /\ nonempty (Layers flatNet) /\
  frames w !! 0%nat = Some (canvas 2 2 grayColors [0; 0; 0; 0]%Z) /\
  exists w' pix',
    drawPixel smallGray flatNet 0 1 1 7 w = Ok (tt, w') /\
    frames w' !! 0%nat = Some (canvas 2 2 grayColors pix') /\
    (forall j, j <> 3%nat -> pix' !! j = [0; 0; 0; 0]%Z !! j).
Proof.
  intros w.
  assert (H1 : (0 <= width smallGray)%Z) by (cbn; lia).
  assert (H2 : (0 <= height smallGray)%Z) by (cbn; lia).
  assert (H3 : (width smallGray * height smallGray <= GoInt.maxInt)%Z)
    by (unfold GoInt.maxInt; cbn; lia).
  assert (H4 : frames w !! 0%nat = Some (canvas 2 2 grayColors [0; 0; 0; 0]%Z))
    by reflexivity.
  assert (H5 : length [0; 0; 0; 0]%Z = Z.to_nat (width smallGray * height smallGray))
    by reflexivity.
  split; [exact flatNet_usable|]. split; [exact flatNet_nonempty|].
  split; [exact H4|].
  destruct (drawPixel_frame_effect smallGray flatNet grayColors [0; 0; 0; 0]%Z
              0 1 1 7 w flatNet_usable flatNet_nonempty H1 H2 H3 H4 H5)
    as (w' & pix' & E & _ & _ & _ & Hf & _ & Hj & _).
  exists w', pix'. split; [exact E|]. split; [exact Hf | exact Hj].
Defined.

(* ------------------------------------------------------------------ *)
(** ** The grid, the palette, the conversion *)

Lemma NoDup_range a b : NoDup (range a b).
Proof.
  unfold range. apply (NoDup_fmap_2_strong (fun i => (a + Z.of_nat i)%Z)).
  - intros i j _ _ Hij. lia.
  - apply NoDup_seq.
Qed.

Lemma NoDup_pixels x0 x1 y0 y1 : NoDup (pixels x0 x1 y0 y1).
Proof.
  unfold pixels. generalize (NoDup_range y0 y1).
  induction (range y0 y1) as [|y ys IH]; intros Hnd; simpl.
  - constructor.
  - apply NoDup_cons in Hnd as [Hy Hys].
    apply NoDup_app. split; [|split].
    + apply (NoDup_fmap_2_strong (fun x => (x, y))).
      * intros x x' _ _ [= ->]. reflexivity.
      * apply NoDup_range.
    + intros [x y'] Hin Hin'.
      apply list_elem_of_fmap in Hin as (x' & [= -> ->] & _).
      apply list_elem_of_In, in_flat_map in Hin' as (y'' & Hy'' & Hx).
      apply list_elem_of_In, list_elem_of_fmap in Hx as (x'' & [= -> ->] & _).
      apply Hy. now apply list_elem_of_In.
    + apply IH, Hys.
Qed.

Lemma pixels_length x0 x1 y0 y1 :
  length (pixels x0 x1 y0 y1) = (Z.to_nat (y1 - y0) * Z.to_nat (x1 - x0))%nat.
Proof.
  unfold pixels.
  rewrite flat_map_constant_length with (c := Z.to_nat (x1 - x0)).
  - now rewrite range_length.
  - intros y _. now rewrite length_map, range_length.
Qed.

(** Half of an [int], as [width/2] computes it. *)
Lemma quot2_bounds (w : Z) :
  GoInt.in_range w ->
  GoInt.quot w 2 = Z.quot w 2 /\
  ((0 <= w -> 0 <= Z.quot w 2 <= w) /\ (w < 0 -> w <= Z.quot w 2 <= 0))%Z.
Proof.
  intros Hw.
  assert (Hb : ((0 <= w -> 0 <= Z.quot w 2 <= w) /\ (w < 0 -> w <= Z.quot w 2 <= 0))%Z).
  { pose proof (Z.quot_rem' w 2) as Hq. split; intros H.
    - pose proof (Z.rem_bound_pos w 2 H ltac:(lia)). lia.
    - pose proof (Z.rem_nonpos w 2 ltac:(lia) ltac:(lia)).
      pose proof (Z.rem_bound_abs w 2 ltac:(lia)). lia. }
  split; [|exact Hb].
  unfold GoInt.quot. apply wrap_id.
  unfold GoInt.in_range, GoInt.minInt, GoInt.maxInt in *.
  destruct (Z_lt_le_dec w 0); lia.
Qed.

(** The four quadrants are disjoint and cover the grid. *)
Lemma quadrants_split cfg :
  GoInt.in_range (width cfg) -> GoInt.in_range (height cfg) ->
  concat (quadrants cfg) ≡ₚ pixels 0 (width cfg) 0 (height cfg).
Proof.
  intros Hw Hh.
  destruct (quot2_bounds _ Hw) as (Ew & Hw1 & Hw2).
  destruct (quot2_bounds _ Hh) as (Eh & Hh1 & Hh2).
  unfold quadrants. rewrite Ew, Eh.
  set (mx := Z.quot (width cfg) 2) in *. set (my := Z.quot (height cfg) 2) in *.
  cbn [concat]. rewrite app_nil_r.
  apply NoDup_Permutation.
  - repeat (apply NoDup_app; split; [apply NoDup_pixels | split]);
      try apply NoDup_pixels;
      intros [x y] Hin Hin'; apply elem_of_pixels in Hin;
      rewrite ?elem_of_app, ?elem_of_pixels in Hin'; lia.
  - apply NoDup_pixels.
  - intros [x y]. rewrite !elem_of_app, !elem_of_pixels. lia.
Qed.

(** The index [Palette.Index] returns is the initial best one or a position
    of the palette. *)
Lemma Index_from_range (p : color.Palette) (c : Z * Z * Z * Z) :
  forall i best bestSum,
    color.Index_from p c i best bestSum = best \/
    (i <= color.Index_from p c i best bestSum < i + Z.of_nat (length p))%Z.
Proof.
  induction p as [|v p IH]; intros i best bestSum.
  - now left.
  - cbn [color.Index_from length].
    destruct c as [[[cr cg] cb] ca]. destruct (color.channels v) as [[[vr vg] vb] va].
    cbv zeta.
    destruct (_ <? bestSum)%Z.
    + destruct (_ =? 0)%Z; [right; lia|].
      destruct (IH (i + 1)%Z i
                  (color.uint32 (color.sqDiff cr vr + color.sqDiff cg vg +
                                 color.sqDiff cb vb + color.sqDiff ca va)))
        as [-> | H]; right; lia.
    + destruct (IH (i + 1)%Z best bestSum) as [-> | H]; [now left | right; lia].
Qed.

Lemma Index_range (p : color.Palette) (c : color.Color) :
  p <> [] -> (0 <= color.Index p c < Z.of_nat (length p))%Z.
Proof.
  intros Hp. unfold color.Index.
  destruct (Index_from_range p (color.channels c) 0 0 (2 ^ 32 - 1)) as [-> | H].
  - destruct p; [contradiction | simpl; lia].
  - lia.
Qed.

Lemma paint_Forall (P : Z -> Prop) cfg cppn colors theta order :
  (forall c, P (uint8 (color.Index colors c))) ->
  forall pix, Forall P pix -> Forall P (paint cfg cppn colors theta pix order).
Proof.
  intros HP. unfold paint.
  induction order as [|xy order IH]; intros pix Hpix; simpl; [exact Hpix|].
  apply IH. unfold put. destruct xy as [x y].
  destruct (_ && _)%bool; [|exact Hpix].
  apply Forall_insert; [exact Hpix | apply HP].
Qed.

(** X10.  The four [drawPart] goroutines of a frame, for every width and
    height an [int] can hold and every interleaving: together they call
    [drawPixel] exactly once for each pixel of the grid [0,width) x
    [0,height) and for no other pixel, so a frame takes width*height
    evaluations of the network (none when width or height is not
    positive). *)
Theorem quadrants_partition (cfg : Config) (picks : list nat) :
  GoInt.in_range (width cfg) -> GoInt.in_range (height cfg) ->
  schedule (quadrants cfg) picks ≡ₚ pixels 0 (width cfg) 0 (height cfg) /\
  NoDup (schedule (quadrants cfg) picks) /\
  length (schedule (quadrants cfg) picks) =
    (Z.to_nat (height cfg) * Z.to_nat (width cfg))%nat.
Proof.
  intros Hw Hh.
  assert (Hp : schedule (quadrants cfg) picks ≡ₚ pixels 0 (width cfg) 0 (height cfg)).
  { rewrite schedule_permutation. now apply quadrants_split. }
  split; [exact Hp|]. split.
  - rewrite Hp. apply NoDup_pixels.
  - rewrite Hp, pixels_length. now rewrite !Z.sub_0_r.
Qed.

Lemma quadrants_partition_witness :
  let cfg := mkConfig 3 2 0.07 1.0 0 12 24 false 1.0 false in
  GoInt.in_range (width cfg) /\ GoInt.in_range (height cfg) /\
  schedule (quadrants cfg) [3; 0; 3; 1]%nat ≡ₚ pixels 0 3 0 2 /\
  length (schedule (quadrants cfg) [3; 0; 3; 1]%nat) = 6%nat.
Proof.
  intros cfg.
  assert (H1 : GoInt.in_range (width cfg)) by (vm_compute; split; discriminate).
  assert (H2 : GoInt.in_range (height cfg)) by (vm_compute; split; discriminate).
  split; [exact H1|]. split; [exact H2|].
  destruct (quadrants_partition cfg [3; 0; 3; 1]%nat H1 H2) as (Hp & _ & Hl).
  split; [exact Hp | exact Hl].
Defined.

(** X11.  With a palette of 1 to 256 colours and a network that fits (no
    weight matrix empty) every byte of a frame that [main] renders is a
    position of the palette: [Palette.Index] returns a
    position below [len(palette)], which [uint8] keeps as it is, and the
    bytes no [Set] has written are 0. *)
Theorem rendered_indices_valid (cfg : Config) (cppn : CPPN) (colors : color.Palette)
    (picks : list nat) (theta : Z) (w : world) :
  usable cfg cppn -> nonempty (Layers cppn) -> drawable cfg ->
  colors <> [] -> (length colors <= 256)%nat ->
  exists frame w' fr,
    renderFrame cfg cppn colors picks theta w = Ok (frame, w') /\
    frames w' !! frame = Some fr /\
    image.Palette fr = colors /\
    Forall (fun v => (0 <= v < Z.of_nat (length colors))%Z) (image.Pix fr).
Proof.
  intros Hu Hnz Hd Hne Hlen.
  destruct (renderFrame_ok cfg cppn colors picks theta w Hu Hnz Hd) as (h' & E).
  eexists _, _, _. split; [exact E|]. cbn [frames].
  split; [now apply list_lookup_middle|]. split; [reflexivity|].
  unfold rendered, canvas. cbn [image.Pix].
  apply paint_Forall.
  - intros c. pose proof (Index_range colors c Hne) as Hr.
    unfold uint8. rewrite Z.mod_small by lia. exact Hr.
  - apply Forall_replicate. destruct colors; [contradiction | simpl; lia].
Qed.

Lemma rendered_indices_valid_witness :
  usable smallGray flatNet /\ nonempty (Layers flatNet) /\ drawable smallGray /\
  grayColors <> [] /\ (length grayColors <= 256)%nat /\
  exists frame w' fr,
    renderFrame smallGray flatNet grayColors [2; 0]%nat 7 (mkWorld [] []) = Ok (frame, w') /\
    frames w' !! frame = Some fr /\
    Forall (fun v => (0 <= v < 255)%Z) (image.Pix fr).
Proof.
  assert (H3 : grayColors <> []) by discriminate.
  assert (H4 : (length grayColors <= 256)%nat) by (vm_compute; lia).
  split; [exact flatNet_usable|]. split; [exact flatNet_nonempty|].
  split; [exact smallGray_drawable|].
  split; [exact H3|]. split; [exact H4|].
  destruct (rendered_indices_valid smallGray flatNet grayColors [2; 0]%nat 7
              (mkWorld [] []) flatNet_usable flatNet_nonempty smallGray_drawable H3 H4)
    as (frame & w' & fr & E & Hf & _ & Hall).
  exists frame, w', fr. split; [exact E|]. split; [exact Hf | exact Hall].
Defined.

(** X12.  The gray palette stores the levels it has exactly: for every level
    v from 0 to 254, [Palette.Index] of [color.Gray{v}] in the palette that
    [main] builds is v, and the entry at v is [color.Gray{v}]. *)
Theorem gray_palette_exact (v : Z) :
  (0 <= v <= 254)%Z ->
  color.Index grayColors (color.Gray v) = v /\
  grayColors !! Z.to_nat v = Some (color.Gray v).
Proof.
  intros Hv.
  assert (Hall : forallb (fun v => (color.Index grayColors (color.Gray v) =? v)%Z &&
                                   match grayColors !! Z.to_nat v with
                                   | Some (color.Gray y) => (y =? v)%Z
                                   | _ => false
                                   end)
                         (range 0 255) = true) by (vm_compute; reflexivity).
  rewrite forallb_forall in Hall.
  specialize (Hall v ltac:(apply list_elem_of_In, elem_of_range; lia)).
  apply andb_true_iff in Hall as [H1 H2].
  split; [now apply Z.eqb_eq|].
  destruct (grayColors !! Z.to_nat v) as [[y|]|]; try discriminate.
  apply Z.eqb_eq in H2. now subst y.
Qed.

Lemma gray_palette_exact_witness :
  (0 <= 200 <= 254)%Z /\
  color.Index grayColors (color.Gray 200) = 200%Z /\
  grayColors !! Z.to_nat 200 = Some (color.Gray 200).
Proof.
  assert (H : (0 <= 200 <= 254)%Z) by lia.
  split; [exact H | exact (gray_palette_exact 200 H)].
Defined.

(** X13.  The conversion [uint8(255 * o)] of [set], for an output [o] from 0
    to 1: the value is the integer part of 255*o, it lies between 0 and 255,
    and it is 255 only for o = 1; for o below 1 it is at most 254. *)
Theorem intensity_conversion (o : R) :
  (0 <= o <= 1)%R ->
  let v := float64_to_uint8 (255 * o) in
  (0 <= v <= 255)%Z /\
  (IZR v <= 255 * o < IZR v + 1)%R /\
  (v = 255%Z <-> o = 1%R).
Proof.
  intros Ho v. subst v. unfold float64_to_uint8, trunc, uint8.
  destruct (Rlt_dec (255 * o) 0) as [Hneg|_]; [lra|].
  destruct (base_Int_part (255 * o)) as [Hle Hgt].
  assert (H0 : (-1 < Int_part (255 * o))%Z) by (apply lt_IZR; lra).
  assert (H1 : (Int_part (255 * o) < 256)%Z) by (apply lt_IZR; lra).
  rewrite Z.mod_small by lia.
  split; [lia|]. split; [lra|]. split.
  - intros E. rewrite E in Hle. lra.
  - intros ->. symmetry. apply Int_part_spec. lra.
Qed.

Lemma intensity_conversion_witness :
  (0 <= 1 <= 1)%R /\ (float64_to_uint8 (255 * 1) = 255%Z <-> 1%R = 1%R).
Proof.
  assert (H : (0 <= 1 <= 1)%R) by lra.
  split; [exact H|]. exact (proj2 (proj2 (intensity_conversion 1 H))).
Defined.

(* ------------------------------------------------------------------ *)
(** ** The run as a whole, the phases *)






(** X15.  No two of the 60 frames share a phase: for sample numbers that
    differ by 1 to 59 the pairs (z1, z2) that [drawPixel] computes differ (the
    angle theta/(3*pi) advances by less than a full turn over 59 samples). *)
Theorem phases_distinct (a b : Z) :
  (0 < b - a <= 59)%Z -> ~ (z1 a = z1 b /\ z2 a = z2 b).
Proof.
  intros Hab [Hc Hs]. unfold z1, z2 in *.
  pose proof PI_bounds as [Hpi1 Hpi2].
  set (A := (IZR a / (PI * 3.0))%R) in *. set (B := (IZR b / (PI * 3.0))%R) in *.
  assert (Hd : (B - A = IZR (b - a) / (PI * 3.0))%R).
  { unfold A, B. rewrite minus_IZR. field. lra. }
  assert (H1 : (1 <= IZR (b - a) <= 59)%R).
  { split; apply IZR_le; lia. }
  assert (Hpos : (0 < PI * 3.0)%R) by lra.
  assert (Hrange : (0 < (B - A) / 2 < PI)%R).
  { rewrite Hd. split.
    - apply Rdiv_lt_0_compat; [|lra]. apply Rdiv_lt_0_compat; lra.
    - apply (Rmult_lt_reg_r 2); [lra|].
      replace (IZR (b - a) / (PI * 3.0) / 2 * 2)%R with (IZR (b - a) / (PI * 3.0))%R
        by (field; lra).
      apply (Rmult_lt_reg_r (PI * 3.0)); [exact Hpos|].
      replace (IZR (b - a) / (PI * 3.0) * (PI * 3.0))%R with (IZR (b - a))
        by (field; lra).
      nra. }
  pose proof (sin_gt_0 _ (proj1 Hrange) (proj2 Hrange)) as Hsin.
  assert (Hcos : (cos (B - A) = 1)%R).
  { rewrite cos_minus, <- Hc, <- Hs.
    pose proof (sin2_cos2 A) as H2. unfold Rsqr in H2. lra. }
  replace (B - A)%R with (2 * ((B - A) / 2))%R in Hcos by field.
  rewrite cos_2a_sin in Hcos. nra.
Qed.

Lemma phases_distinct_witness :
  (0 < 59 - 0 <= 59)%Z /\ ~ (z1 0 = z1 59 /\ z2 0 = z2 59).
Proof.
  assert (H : (0 < 59 - 0 <= 59)%Z) by lia.
  split; [exact H | exact (phases_distinct 0 59 H)].
Defined.

(* ------------------------------------------------------------------ *)
(** ** The closure set and the features *)

Lemma slice_get_beyond (s : slice) (i : nat) (h : heap) :
  (len s <= i)%nat -> slice_get s i h = Panic ErrAccess.
Proof.
  intros Hi. unfold slice_get. destruct (Nat.ltb_spec i (len s)); [lia | reflexivity].
Qed.

Lemma onFloats_get (w : world) out ys i :
  holds (floats w) out ys -> (i < length ys)%nat ->
  onFloats (slice_get out i) w = Ok (nth i ys 0%R, w).
Proof.
  intros Hh Hi. unfold onFloats. rewrite (slice_get_holds _ _ _ _ Hh Hi).
  now destruct w.
Qed.

Lemma onFloats_beyond (w : world) out i :
  (len out <= i)%nat -> onFloats (slice_get out i) w = Panic ErrAccess.
Proof. intros Hi. unfold onFloats. now rewrite slice_get_beyond. Qed.

(** X16.  The closure [set] on a frame of the configured size and an output
    slice holding [ys]: in gray mode it needs one output, in colour mode
    three.  With fewer it panics on the index (Go's index out of range)
    before the frame is touched; otherwise it stores the palette index of
    the colour made of the first one or three outputs and ignores the
    rest. *)
Theorem set_needs_outputs (gray : bool) (W H : Z) (colors : color.Palette)
    (pix : list Z) (f : nat) (out : slice) (ys : list R) (x y : Z) (w : world) :
  holds (floats w) out ys ->
  (0 <= W)%Z -> (0 <= H)%Z -> (W * H <= GoInt.maxInt)%Z ->
  frames w !! f = Some (canvas W H colors pix) ->
  length pix = Z.to_nat (W * H) ->
  set gray f out x y w =
  if (length ys <? (if gray then 1 else 3))%nat then Panic ErrAccess
  else Ok (tt, mkWorld (floats w)
                 (<[f := canvas W H colors
                           (put W H pix (x, y)
                                (uint8 (color.Index colors (colorOf gray ys))))]>
                    (frames w))).
Proof.
  intros Hh Hw HH Hwh Hf Hlen.
  pose proof (holds_length _ _ _ Hh) as Hl.
  unfold set, colorOf. destruct gray.
  - destruct (Nat.ltb_spec (length ys) 1) as [Hs|Hs].
    + apply bind_panic, onFloats_beyond. lia.
    + rewrite (bind_ok _ _ _ _ _ (onFloats_get w out ys 0 Hh ltac:(lia))).
      unfold onFrames.
      now rewrite (Set__canvas _ _ colors pix _ f x y _ Hw HH Hwh Hf Hlen).
  - destruct (Nat.ltb_spec (length ys) 3) as [Hs|Hs].
    + destruct (Nat.le_gt_cases (length ys) 0) as [H0|H0].
      { apply bind_panic, onFloats_beyond. lia. }
      rewrite (bind_ok _ _ _ _ _ (onFloats_get w out ys 0 Hh ltac:(lia))).
      destruct (Nat.le_gt_cases (length ys) 1) as [H1|H1].
      { apply bind_panic, onFloats_beyond. lia. }
      rewrite (bind_ok _ _ _ _ _ (onFloats_get w out ys 1 Hh ltac:(lia))).
      apply bind_panic, onFloats_beyond. lia.
    + rewrite (bind_ok _ _ _ _ _ (onFloats_get w out ys 0 Hh ltac:(lia))).
      rewrite (bind_ok _ _ _ _ _ (onFloats_get w out ys 1 Hh ltac:(lia))).
      rewrite (bind_ok _ _ _ _ _ (onFloats_get w out ys 2 Hh ltac:(lia))).
      unfold onFrames.
      now rewrite (Set__canvas _ _ colors pix _ f x y _ Hw HH Hwh Hf Hlen).
Qed.

Lemma set_needs_outputs_witness :
  let w := mkWorld [[0.5; 0.25]%R] [canvas 1 1 [] [0%Z]] in
  let out := mkSlice 0 2 2 in
  holds (floats w) out [0.5; 0.25]%R /\
  (0 <= 1)%Z /\ (1 * 1 <= GoInt.maxInt)%Z /\
  frames w !! 0%nat = Some (canvas 1 1 [] [0%Z]) /\
  length [0%Z] = Z.to_nat (1 * 1) /\
  set false 0 out 0 0 w = Panic ErrAccess.
Proof.
  intros w out.
  assert (H1 : holds (floats w) out [0.5; 0.25]%R).
  { exists [0.5; 0.25]%R. simpl. split; [reflexivity|]. split; [lia|].
    split; [lia | reflexivity]. }
  assert (H2 : (0 <= 1)%Z) by lia.
  assert (H3 : (1 * 1 <= GoInt.maxInt)%Z) by (unfold GoInt.maxInt; lia).
  assert (H4 : frames w !! 0%nat = Some (canvas 1 1 [] [0%Z])) by reflexivity.
  assert (H5 : length [0%Z] = Z.to_nat (1 * 1)) by reflexivity.
  split; [exact H1|]. split; [exact H2|]. split; [exact H3|]. split; [exact H4|].
  split; [exact H5|].
  exact (set_needs_outputs false 1 1 [] [0%Z] 0 out [0.5; 0.25]%R 0 0 w
           H1 H2 H2 H3 H4 H5).
Defined.



(* ------------------------------------------------------------------ *)
(** ** Frames without pixels *)

(** [image.NewPaletted(image.Rect(0, 0, w, h), colors)] for sizes of either
    sign: the rectangle is put in order, the buffer has |w|*|h| bytes. *)
Lemma NewPaletted_rect (w h : Z) colors (st : image.store) :
  (GoInt.minInt < w <= GoInt.maxInt)%Z -> (GoInt.minInt < h <= GoInt.maxInt)%Z ->
  (Z.abs w * Z.abs h <= GoInt.maxInt)%Z ->
  image.NewPaletted (image.Rect 0 0 w h) colors st =
  Ok (length st,
      st ++ [image.mkPaletted (replicate (Z.to_nat (Z.abs w * Z.abs h)) 0%Z)
               (Z.abs w) (image.Rect 0 0 w h) colors]).
Proof.
  intros Hw Hh Hwh.
  assert (Hmax : GoInt.maxInt = (2 ^ 63 - 1)%Z) by reflexivity.
  assert (Hmin : GoInt.minInt = (- 2 ^ 63)%Z) by reflexivity.
  assert (Dx : image.Dx (image.Rect 0 0 w h) = Z.abs w).
  { unfold image.Dx, image.Rect, GoInt.sub.
    destruct (Z.ltb_spec w 0); destruct (Z.ltb_spec h 0);
      cbn [image.X image.Y image.Min image.Max];
      rewrite wrap_id by (unfold GoInt.in_range; lia); lia. }
  assert (Dy : image.Dy (image.Rect 0 0 w h) = Z.abs h).
  { unfold image.Dy, image.Rect, GoInt.sub.
    destruct (Z.ltb_spec w 0); destruct (Z.ltb_spec h 0);
      cbn [image.X image.Y image.Min image.Max];
      rewrite wrap_id by (unfold GoInt.in_range; lia); lia. }
  unfold image.NewPaletted. rewrite Dx, Dy. unfold GoInt.mul.
  rewrite Z.mul_1_l, (wrap_id (Z.abs w)) by (unfold GoInt.in_range; lia).
  rewrite (wrap_id (Z.abs w * Z.abs h)) by (unfold GoInt.in_range; nia).
  destruct (Z.ltb_spec (Z.abs w * Z.abs h) 0); [nia | reflexivity].
Qed.

Lemma schedule_empty_grid cfg picks :
  GoInt.in_range (width cfg) -> GoInt.in_range (height cfg) ->
  (width cfg <= 0 \/ height cfg <= 0)%Z ->
  schedule (quadrants cfg) picks = [].
Proof.
  intros Hw Hh Hz. apply length_zero_iff_nil.
  rewrite (Permutation_length (schedule_permutation picks (quadrants cfg))).
  rewrite (Permutation_length (quadrants_split cfg Hw Hh)), pixels_length.
  destruct Hz; [replace (Z.to_nat (width cfg - 0)) with 0%nat by lia
               | replace (Z.to_nat (height cfg - 0)) with 0%nat by lia]; lia.
Qed.

(** X18.  A width or height that is not positive is not rejected: the turn
    of the frame loop then creates a frame of |width| x |height| pixels on
    the rectangle that [image.Rect] puts in order, the four goroutines visit
    no pixel, and the frame is appended blank, whatever the network is (it is
    never evaluated). *)
Theorem renderFrame_empty_grid (cfg : Config) (cppn : CPPN) (colors : color.Palette)
    (picks : list nat) (theta : Z) (w : world) :
  (GoInt.minInt < width cfg <= GoInt.maxInt)%Z ->
  (GoInt.minInt < height cfg <= GoInt.maxInt)%Z ->
  (Z.abs (width cfg) * Z.abs (height cfg) <= GoInt.maxInt)%Z ->
  (width cfg <= 0 \/ height cfg <= 0)%Z ->
  renderFrame cfg cppn colors picks theta w =
  Ok (length (frames w),
      mkWorld (floats w)
        (frames w ++
         [image.mkPaletted
            (replicate (Z.to_nat (Z.abs (width cfg) * Z.abs (height cfg))) 0%Z)
            (Z.abs (width cfg))
            (image.Rect 0 0 (width cfg) (height cfg)) colors])).
Proof.
  intros Hw Hh Hwh Hz. unfold renderFrame.
  rewrite schedule_empty_grid by (unfold GoInt.in_range; lia).
  unfold onFrames, bind. rewrite (NewPaletted_rect _ _ _ _ Hw Hh Hwh).
  reflexivity.
Qed.

Lemma renderFrame_empty_grid_witness :
  let cfg := mkConfig (-2) 3 0.07 1.0 0 12 24 false 1.0 false in
  (GoInt.minInt < width cfg <= GoInt.maxInt)%Z /\
  (GoInt.minInt < height cfg <= GoInt.maxInt)%Z /\
  (Z.abs (width cfg) * Z.abs (height cfg) <= GoInt.maxInt)%Z /\
  (width cfg <= 0 \/ height cfg <= 0)%Z /\
  renderFrame cfg (mkCPPN (mkParam 5 12 24 3) []) [] [1; 0]%nat 7 (mkWorld [] []) =
  Ok (0%nat,
      mkWorld []
        [image.mkPaletted [0; 0; 0; 0; 0; 0]%Z 2
           (image.mkRectangle (image.mkPoint (-2) 0) (image.mkPoint 0 3)) []]).
Proof.
  intros cfg.
  assert (H1 : (GoInt.minInt < width cfg <= GoInt.maxInt)%Z)
    by (unfold GoInt.minInt, GoInt.maxInt; cbn; lia).
  assert (H2 : (GoInt.minInt < height cfg <= GoInt.maxInt)%Z)
    by (unfold GoInt.minInt, GoInt.maxInt; cbn; lia).
  assert (H3 : (Z.abs (width cfg) * Z.abs (height cfg) <= GoInt.maxInt)%Z)
    by (unfold GoInt.maxInt; cbn; lia).
  assert (H4 : (width cfg <= 0 \/ height cfg <= 0)%Z) by (left; cbn; lia).
  split; [exact H1|]. split; [exact H2|]. split; [exact H3|]. split; [exact H4|].
  exact (renderFrame_empty_grid cfg (mkCPPN (mkParam 5 12 24 3) []) [] [1; 0]%nat 7
           (mkWorld [] []) H1 H2 H3 H4).
Defined.

(* ================================================================== *)
(** * The first version of the program *)

Lemma forM__map {S A B} (g : A -> B) (l : list A) (body : B -> M S unit) s :
  forM_ (map g l) body s = forM_ l (fun a => body (g a)) s.
Proof.
  revert s. induction l as [|a l IH]; intros s; simpl; [reflexivity|].
  unfold bind. destruct (body (g a) s) as [[[] s']|e]; [apply IH | reflexivity].
Qed.

Lemma forM__flat_map {S A B} (f : A -> list B) (l : list A) (body : B -> M S unit) s :
  forM_ (flat_map f l) body s = forM_ l (fun a => forM_ (f a) body) s.
Proof.
  revert s. induction l as [|a l IH]; intros s; simpl; [reflexivity|].
  rewrite forM__app. unfold bind.
  destruct (forM_ (f a) body s) as [[[] s']|e]; [apply IH | reflexivity].
Qed.

Lemma forM__ext {S A} (l : list A) (b1 b2 : A -> M S unit) s :
  (forall a s, b1 a s = b2 a s) -> forM_ l b1 s = forM_ l b2 s.
Proof.
  intros Hb. revert s. induction l as [|a l IH]; intros s; simpl; [reflexivity|].
  unfold bind. rewrite Hb. destruct (b2 a s) as [[[] s']|e]; [apply IH | reflexivity].
Qed.

(** The two nested loops over the pixels are one loop over [pixels]. *)
Lemma nested_loops {S} (x0 x1 y0 y1 : Z) (body : Z -> Z -> M S unit) s :
  forM_ (range y0 y1) (fun y => forM_ (range x0 x1) (fun x => body y x)) s =
  forM_ (pixels x0 x1 y0 y1) (fun xy => body (snd xy) (fst xy)) s.
Proof.
  unfold pixels. rewrite forM__flat_map. apply forM__ext.
  intros y s'. now rewrite forM__map.
Qed.

(** Drawing a sequence of pixels, whatever the features are. *)
Lemma drawWith_all (feat : Z * Z -> list R) (gray : bool) cppn colors W H f order :
  (forall xy, Z.of_nat (length (feat xy)) = NumInputs (Param cppn)) ->
  (forall xy, chained (length (feat xy)) (Layers cppn)) ->
  nonempty (Layers cppn) ->
  (forall xs, ((if gray then 1 else 3) <= length (feed_spec (Layers cppn) xs))%nat) ->
  (0 <= W)%Z -> (0 <= H)%Z -> (W * H <= GoInt.maxInt)%Z ->
  forall pix (w : world),
    frames w !! f = Some (canvas W H colors pix) ->
    length pix = Z.to_nat (W * H) ->
    exists h',
      forM_ order (fun xy => drawWith (feat xy) gray cppn f (fst xy) (snd xy)) w =
      Ok (tt, mkWorld h'
                (<[f := canvas W H colors
                          (paintWith W H
                             (fun xy => uint8 (color.Index colors
                                (colorOf gray (feed_spec (Layers cppn) (feat xy)))))
                             pix order)]> (frames w))).
Proof.
  intros Hin Hch Hne Hout Hw Hh Hwh.
  induction order as [|[x y] order IH]; intros pix w Hf Hlen.
  - exists (floats w). simpl. unfold ret. rewrite list_insert_id by exact Hf.
    now destruct w.
  - destruct (drawWith_ok (feat (x, y)) gray cppn colors W H pix f x y w
                (Hin _) (Hch _) Hne (Hout _) Hw Hh Hwh Hf Hlen) as (h1 & E1 & _).
    cbn [forM_ fst snd]. rewrite (bind_ok _ _ _ _ _ E1).
    set (pix1 := put W H pix (x, y) _) in *.
    set (w1 := mkWorld h1 (<[f := canvas W H colors pix1]> (frames w))) in *.
    assert (Hf' : (f < length (frames w))%nat) by (eapply lookup_lt_Some; eauto).
    destruct (IH pix1 w1) as (h2 & E2).
    + simpl. now apply list_lookup_insert_eq.
    + unfold pix1. now rewrite put_length.
    + exists h2. rewrite E2. simpl. now rewrite list_insert_insert_eq.
Qed.

Lemma v1_pixel_drawWith cfg cppn f theta y x :
  v1.pixel cfg cppn f theta y x =
  drawWith (v1.features cfg x y theta) false cppn f x y.
Proof. reflexivity. Qed.

(** Networks of the fixed shape of the first version fit its pixels. *)
Lemma v1_fits cppn :
  built v1.param cppn ->
  NumInputs (Param cppn) = 5%Z /\
  chained 5 (Layers cppn) /\
  nonempty (Layers cppn) /\
  forall xs, (3 <= length (feed_spec (Layers cppn) xs))%nat.
Proof.
  intros Hb. split; [now destruct Hb as [-> _]|]. split; [|split].
  - apply (built_chained v1.param cppn); cbn; try lia. exact Hb.
  - apply (built_nonempty v1.param cppn); cbn; try lia. exact Hb.
  - intros xs. destruct (built_last_sigmoid _ cppn xs Hb) as [_ ->]. cbn. lia.
Qed.

Lemma v1_renderFrame_ok env cfg cppn theta (w : world) :
  built v1.param cppn ->
  (0 < v1.width cfg)%Z -> (0 < v1.height cfg)%Z ->
  (v1.width cfg * v1.height cfg <= GoInt.maxInt)%Z ->
  exists h',
    v1.renderFrame env cfg cppn theta w =
    Ok (length (frames w),
        mkWorld h' (frames w ++ [v1.rendered env cfg cppn theta])).
Proof.
  intros Hb Hw Hh Hwh. destruct (v1_fits cppn Hb) as (Hin & Hch & Hne & Hout).
  assert (Hmax : GoInt.maxInt = (2 ^ 63 - 1)%Z) by reflexivity.
  unfold v1.renderFrame.
  assert (E1 : onFrames (image.NewPaletted
                           (image.Rect 0 0 (v1.width cfg) (v1.height cfg)) (Plan9 env)) w =
               Ok (length (frames w),
                   mkWorld (floats w)
                     (frames w ++ [canvas (v1.width cfg) (v1.height cfg) (Plan9 env)
                                     (replicate (Z.to_nat (v1.width cfg * v1.height cfg)) 0%Z)]))).
  { unfold onFrames. rewrite NewPaletted_canvas by nia. reflexivity. }
  rewrite (bind_ok _ _ _ _ _ E1). clear E1.
  set (w1 := mkWorld _ _).
  destruct (drawWith_all (fun xy => v1.features cfg (fst xy) (snd xy) theta) false
              cppn (Plan9 env) (v1.width cfg) (v1.height cfg) (length (frames w))
              (pixels 0 (v1.width cfg) 0 (v1.height cfg)))
    with (pix := replicate (Z.to_nat (v1.width cfg * v1.height cfg)) 0%Z) (w := w1)
    as (h' & E); try lia; auto.
  { unfold w1. cbn [frames]. now apply list_lookup_middle. }
  { now rewrite length_replicate. }
  assert (E2 : forM_ (range 0 (v1.height cfg))
                 (fun y => forM_ (range 0 (v1.width cfg))
                                 (fun x => v1.pixel cfg cppn (length (frames w)) theta y x))
                 w1 =
               Ok (tt, mkWorld h' (frames w ++ [v1.rendered env cfg cppn theta]))).
  { rewrite nested_loops.
    rewrite (forM__ext _ _
               (fun xy => drawWith (v1.features cfg (fst xy) (snd xy) theta) false cppn
                            (length (frames w)) (fst xy) (snd xy)))
      by (intros [x y] s; reflexivity).
    rewrite E. unfold w1. cbn [frames]. unfold v1.rendered.
    replace (length (frames w)) with (length (frames w) + 0)%nat at 1 by lia.
    rewrite insert_app_r. reflexivity. }
  rewrite (bind_ok _ _ _ _ _ E2). exists h'. reflexivity.
Qed.

Lemma v1_assemble_ok env cfg cppn :
  built v1.param cppn ->
  (0 < v1.width cfg)%Z -> (0 < v1.height cfg)%Z ->
  (v1.width cfg * v1.height cfg <= GoInt.maxInt)%Z ->
  forall thetas img (w : world),
    exists h',
      v1.assemble env cfg cppn thetas img w =
      Ok (mkGIF (Image img ++ seq (length (frames w)) (length thetas))
                (Delay img ++ replicate (length thetas) 0%Z),
          mkWorld h' (frames w ++ map (v1.rendered env cfg cppn) thetas)).
Proof.
  intros Hb Hw Hh Hwh. unfold v1.assemble.
  induction thetas as [|theta thetas IH]; intros img w.
  - exists (floats w). simpl. unfold ret. rewrite !app_nil_r. now destruct img, w.
  - destruct (v1_renderFrame_ok env cfg cppn theta w Hb Hw Hh Hwh) as (h1 & E1).
    cbn [foldM]. unfold bind at 1. unfold bind at 1. rewrite E1. unfold ret at 1.
    destruct (IH (mkGIF (Image img ++ [length (frames w)]) (Delay img ++ [0%Z]))
                 (mkWorld h1 (frames w ++ [v1.rendered env cfg cppn theta])))
      as (h2 & E2).
    exists h2. rewrite E2. cbn [Image Delay frames length map replicate seq].
    rewrite length_app. cbn [length].
    rewrite <- !app_assoc. cbn [app].
    now replace (length (frames w) + 1)%nat with (S (length (frames w))) by lia.
Qed.

Lemma v1_param_constructible : constructible v1.param.
Proof. unfold constructible, v1.param, GoInt.maxInt. cbn. lia. Qed.

Lemma rangeBy_0_360_6 : rangeBy 0 360 6 = map (fun k => (6 * k)%Z) (range 0 60).
Proof. reflexivity. Qed.

Lemma v1_rendered_pixel env cfg cppn theta x y :
  (0 < v1.width cfg)%Z -> (0 < v1.height cfg)%Z ->
  (0 <= x < v1.width cfg)%Z -> (0 <= y < v1.height cfg)%Z ->
  image.Pix (v1.rendered env cfg cppn theta) !! Z.to_nat (y * v1.width cfg + x) =
  Some (uint8 (color.Index (Plan9 env)
                 (colorOf false (feed_spec (Layers cppn) (v1.features cfg x y theta))))).
Proof.
  intros Hw Hh Hx Hy. unfold v1.rendered, canvas. cbn [image.Pix].
  set (val := fun xy : Z * Z => uint8 _).
  change (Z.to_nat (y * v1.width cfg + x)) with (offset (v1.width cfg) (x, y)).
  change (uint8 _) with (val (x, y)).
  apply paintWith_hit.
  - apply elem_of_pixels. lia.
  - apply inside_spec. cbn [fst snd]. lia.
  - rewrite length_replicate. unfold offset. cbn [fst snd]. nia.
Qed.

(** X19.  The first version of [main] (main.go), for every seed and every
    positive frame size whose area is an [int]: the network of the fixed
    shape (5, 8, 16, 3) is always constructed; the run yields 60 frames, for
    theta = 0, 6, ..., 354, each with delay 0; and in the frame of theta the
    byte of pixel (x, y) is the Plan9 palette index of the colour
    RGBA(uint8(255*o0), uint8(255*o1), uint8(255*o2), 255), where o is the
    output of the network on (x*sharpness, y*sharpness, r, sin(theta)/2,
    cos(theta)/2). *)
Theorem v1_main_animation (env : Env) (cfg : v1.Config) (w : world) :
  (0 < v1.width cfg)%Z -> (0 < v1.height cfg)%Z ->
  (v1.width cfg * v1.height cfg <= GoInt.maxInt)%Z ->
  exists cppn g' img w',
    NewCPPN v1.param (mkRng (deviates env (v1.seed cfg)) 0) = Ok (cppn, g') /\
    v1.main env cfg w = Ok (img, w') /\
    Image img = seq (length (frames w)) 60 /\
    Delay img = replicate 60 0%Z /\
    frames w' = frames w ++ map (fun k => v1.rendered env cfg cppn (6 * k)) (range 0 60) /\
    forall k x y,
      (0 <= k < 60)%Z -> (0 <= x < v1.width cfg)%Z -> (0 <= y < v1.height cfg)%Z ->
      exists fr,
        frames w' !! (length (frames w) + Z.to_nat k)%nat = Some fr /\
        image.Palette fr = Plan9 env /\
        image.Pix fr !! Z.to_nat (y * v1.width cfg + x) =
        Some (uint8 (color.Index (Plan9 env)
                       (let o := feed_spec (Layers cppn) (v1.features cfg x y (6 * k)) in
                        color.RGBA (float64_to_uint8 (255 * nth 0 o 0%R))
                                   (float64_to_uint8 (255 * nth 1 o 0%R))
                                   (float64_to_uint8 (255 * nth 2 o 0%R))
                                   255))).
Proof.
  intros Hw Hh Hwh.
  destruct (NewCPPN_built v1.param (mkRng (deviates env (v1.seed cfg)) 0)
              v1_param_constructible) as (cppn & g' & E & Hb).
  destruct (v1_assemble_ok env cfg cppn Hb Hw Hh Hwh (rangeBy 0 360 6) (mkGIF [] []) w)
    as (h' & Ea).
  exists cppn, g'. eexists _, _. split; [exact E|].
  split; [unfold v1.main; rewrite E; exact Ea|].
  split; [reflexivity|]. split; [reflexivity|].
  cbn [frames]. rewrite rangeBy_0_360_6, map_map.
  split; [reflexivity|].
  intros k x y Hk Hx Hy.
  exists (v1.rendered env cfg cppn (6 * k)). split; [|split].
  - rewrite lookup_app_r by lia.
    replace (length (frames w) + Z.to_nat k - length (frames w))%nat
      with (Z.to_nat k) by lia.
    change (map ?f ?l) with (f <$> l). rewrite list_lookup_fmap.
    unfold range. change (map ?f ?l) with (f <$> l). rewrite list_lookup_fmap.
    rewrite lookup_seq_lt by (simpl; lia). cbn [fmap option_fmap option_map].
    do 2 f_equal. lia.
  - reflexivity.
  - apply v1_rendered_pixel; assumption.
Qed.

Lemma v1_main_animation_witness :
  let env := mkEnv [color.RGBA 0 0 0 255; color.RGBA 255 255 255 255] (fun _ _ => 0%R) in
  let cfg := v1.mkConfig 2 2 0.07 0.7 0 in
  (0 < v1.width cfg)%Z /\ (0 < v1.height cfg)%Z /\
  (v1.width cfg * v1.height cfg <= GoInt.maxInt)%Z /\
  exists img w',
    v1.main env cfg (mkWorld [] []) = Ok (img, w') /\
    Image img = seq 0 60 /\ Delay img = replicate 60 0%Z.
Proof.
  intros env cfg.
  assert (H1 : (0 < v1.width cfg)%Z) by (simpl; lia).
  assert (H2 : (0 < v1.height cfg)%Z) by (simpl; lia).
  assert (H3 : (v1.width cfg * v1.height cfg <= GoInt.maxInt)%Z)
    by (unfold GoInt.maxInt; simpl; lia).
  split; [exact H1|]. split; [exact H2|]. split; [exact H3|].
  destruct (v1_main_animation env cfg (mkWorld [] []) H1 H2 H3)
    as (cppn & g' & img & w' & _ & E & Hi & Hd & _).
  exists img, w'. split; [exact E|]. split; [exact Hi | exact Hd].
Defined.
